(** * NoCpad: AXI/ACE payloads, ports and the master-side traffic generator

    A shallow embedding of

    - [src/include/axi_for_ace.h]: the payload structures of [ace::axi4<Cfg>],
      their constructors, and the write slave port with its non-blocking
      [nb_wread] and its blocking [wread];
    - [tb/tb_axi_con/axi_master.h]: the testbench master [axi_master], its
      transaction generators [gen_new_rd_trans] / [gen_new_wr_trans] with the
      expected-response predictor, the verifiers [verify_rd_resp] /
      [verify_wr_resp], and the clocked thread [do_cycle] that calls them.

    Integers of the source are modelled as [Z] with every truncation written
    out: a [w]-bit unsigned value is [trunc w x]. *)

From Stdlib Require Import ZArith List Bool Lia.
From coqutil Require Import Z.bitblast.
Import ListNotations.
Local Open Scope Z_scope.

(** ** Machine integers *)

(** Conversion to a [w]-bit unsigned integer. *)
Definition trunc (w x : Z) : Z := x mod 2 ^ w.

(** [unsigned char], [unsigned int], [unsigned long] and
    [unsigned long long]. *)
Definition u8 (x : Z) : Z := trunc 8 x.
Definition u32 (x : Z) : Z := trunc 32 x.
Definition u64 (x : Z) : Z := trunc 64 x.

(** A C++ [bool] used as an integer. *)
Definition b2z (b : bool) : Z := if b then 1 else 0.

(** Byte lane [lane] of a data word. *)
Definition get_byte (d lane : Z) : Z := Z.land (Z.shiftr d (8 * lane)) 255.

(** The lane numbers [0 .. n-1]. *)
Definition lanes_upto (n : Z) : list Z := map Z.of_nat (seq 0 (Z.to_nat n)).

(** The bytes a beat carries: the bytes of [data] on the lanes whose strobe
    bit is set, lowest lane first; [n] is the number of lanes looked at. *)
Definition beat_bytes (n data strb : Z) : list Z :=
  map (get_byte data) (filter (Z.testbit strb) (lanes_upto n)).

(** The byte sequence [f 0, f 1, ..., f (n-1)]. *)
Definition pattern (f : Z -> Z) (n : Z) : list Z := map f (lanes_upto n).

(** ** Containers *)

(** [std::deque::erase(begin()+j)]. *)
Definition erase {A : Type} (j : nat) (q : list A) : list A :=
  firstn j q ++ skipn (S j) q.

(** Update of element [i] of a [std::vector]. Indexing past the end is
    undefined in the source; the model leaves the vector unchanged there. *)
Fixpoint upd_at {A : Type} (i : nat) (f : A -> A) (v : list A) : list A :=
  match v, i with
  | [], _ => []
  | x :: v', O => f x :: v'
  | x :: v', S i' => x :: upd_at i' f v'
  end.

(** The outcome of a testbench step: [Ok] when it ran to its end, [Fatal]
    when an assertion ([sc_assert], [NVHLS_ASSERT_MSG]) fired; both carry the
    state reached at that point. *)
Inductive result (A : Type) : Type :=
| Ok (a : A)
| Fatal (a : A).
Arguments Ok {A} a.
Arguments Fatal {A} a.

Definition state_of {A : Type} (r : result A) : A :=
  match r with Ok a => a | Fatal a => a end.

Definition is_fatal {A : Type} (r : result A) : bool :=
  match r with Ok _ => false | Fatal _ => true end.

(** * [axi_for_ace.h] *)

Module Ace.

(** Widths of [axi::AXI4_Encoding] (MatchLib's axi4_encoding.h). *)
Definition ARCACHE_WIDTH : Z := 4.
Definition AXBURST_WIDTH : Z := 2.
Definition XRESP_WIDTH : Z := 2.

(** The configuration class [Cfg]; flags are integers tested against 0. *)
Record Cfg : Type := {
  dataWidth : Z;
  addrWidth : Z;
  idWidth : Z;
  useWriteResponses : Z;
  useBurst : Z;
  maxBurstSize : Z;
  useVariableBeatSize : Z;
  useLast : Z;
  useCache : Z;
  useFixedBurst : Z;
  useWrapBurst : Z;
  useWriteStrobes : Z;
  useACE : Z;
  aUserWidth : Z;
  wUserWidth : Z;
  bUserWidth : Z;
  rUserWidth : Z
}.

Definition nz (x : Z) : bool := negb (x =? 0).

(** [nvhls::log2_ceil<N>::val]. *)
Definition log2_ceil (n : Z) : Z := Z.log2_up n.

Section Widths.
Variable c : Cfg.

Definition DATA_WIDTH : Z := dataWidth c.
Definition ADDR_WIDTH : Z := addrWidth c.
Definition ID_WIDTH : Z := idWidth c.
Definition BID_WIDTH : Z := if useWriteResponses c =? 0 then 0 else idWidth c.
Definition ALEN_WIDTH : Z := if nz (useBurst c) then log2_ceil (maxBurstSize c) else 0.
Definition ASIZE_WIDTH : Z := if nz (useVariableBeatSize c) then 3 else 0.
Definition LAST_WIDTH : Z := if nz (useLast c) then 1 else 0.
Definition CACHE_WIDTH : Z := if nz (useCache c) then ARCACHE_WIDTH else 0.
Definition BURST_WIDTH : Z :=
  if nz (useBurst c) && (nz (useFixedBurst c) || nz (useWrapBurst c))
  then AXBURST_WIDTH else 0.
Definition WSTRB_WIDTH : Z := if nz (useWriteStrobes c) then Z.shiftr DATA_WIDTH 3 else 0.
Definition RESP_WIDTH : Z := if nz (useACE c) then XRESP_WIDTH + 2 else XRESP_WIDTH.
Definition AUSER_WIDTH : Z := aUserWidth c.
Definition WUSER_WIDTH : Z := wUserWidth c.
Definition BUSER_WIDTH : Z := if useWriteResponses c =? 0 then 0 else bUserWidth c.
Definition RUSER_WIDTH : Z := rUserWidth c.
Definition C_SNOOP_WIDTH : Z := if nz (useACE c) then 4 else 0.
Definition C_DOMAIN_WIDTH : Z := if nz (useACE c) then 2 else 0.
Definition C_BARRIER_WIDTH : Z := if nz (useACE c) then 2 else 0.
Definition C_UNIQUE_WIDTH : Z := if nz (useACE c) then 1 else 0.

End Widths.

(** A field of type [nvhls::UIntOrEmpty<W>::T]: [None] while the member holds
    no value (an [EmptyField] when [W = 0], or a member no statement has
    assigned yet). Fields of type [NVUINTW(W)] are plain integers. *)
Definition UIntOrEmpty : Type := option Z.

(** Assignment of the integer [v] to a [UIntOrEmpty<w>] member. *)
Definition store (w v : Z) : UIntOrEmpty :=
  if 0 <? w then Some (trunc w v) else None.

Record AddrPayload : Type := {
  a_id : UIntOrEmpty;
  a_addr : Z;
  a_burst : UIntOrEmpty;
  a_len : UIntOrEmpty;
  a_size : UIntOrEmpty;
  a_cache : UIntOrEmpty;
  a_auser : UIntOrEmpty;
  a_snoop : UIntOrEmpty;
  a_domain : UIntOrEmpty;
  a_barrier : UIntOrEmpty;
  a_unique : UIntOrEmpty
}.

Record ReadPayload : Type := {
  r_id : UIntOrEmpty;
  r_data : Z;
  r_resp : Z;
  r_last : UIntOrEmpty;
  r_ruser : UIntOrEmpty
}.

Record WRespPayload : Type := {
  b_id : UIntOrEmpty;
  b_resp : Z;
  b_buser : UIntOrEmpty
}.

Record WritePayload : Type := {
  w_data : Z;
  w_last : UIntOrEmpty;
  w_wstrb : UIntOrEmpty;
  w_wuser : UIntOrEmpty
}.

Section Payloads.
Variable c : Cfg.

(** [AddrPayload::AddrPayload()]. *)
Definition AddrPayload_ctor : AddrPayload := {|
  a_id := if 0 <? ID_WIDTH c then store (ID_WIDTH c) 0 else None;
  a_addr := trunc (ADDR_WIDTH c) 0;
  a_len := if 0 <? ALEN_WIDTH c then store (ALEN_WIDTH c) 0 else None;
  a_size := if 0 <? ASIZE_WIDTH c then store (ASIZE_WIDTH c) 0 else None;
  a_burst := if 0 <? BURST_WIDTH c then store (BURST_WIDTH c) 0 else None;
  a_cache := if 0 <? CACHE_WIDTH c then store (CACHE_WIDTH c) 0 else None;
  a_auser := if 0 <? AUSER_WIDTH c then store (AUSER_WIDTH c) 0 else None;
  a_snoop := if 0 <? C_SNOOP_WIDTH c then store (C_SNOOP_WIDTH c) 0 else None;
  a_domain := if 0 <? C_DOMAIN_WIDTH c then store (C_DOMAIN_WIDTH c) 0 else None;
  a_barrier := if 0 <? C_BARRIER_WIDTH c then store (C_BARRIER_WIDTH c) 0 else None;
  a_unique := if 0 <? C_UNIQUE_WIDTH c then store (C_UNIQUE_WIDTH c) 0 else None
|}.

(** [ReadPayload::ReadPayload()]. *)
Definition ReadPayload_ctor : ReadPayload := {|
  r_id := if 0 <? ID_WIDTH c then store (ID_WIDTH c) 0 else None;
  r_data := trunc (DATA_WIDTH c) 0;
  r_resp := trunc (RESP_WIDTH c) 0;
  r_last := if 0 <? LAST_WIDTH c then store (LAST_WIDTH c) 0 else None;
  r_ruser := if 0 <? RUSER_WIDTH c then store (RUSER_WIDTH c) 0 else None
|}.

(** [WRespPayload::WRespPayload()]; the member [id] has type [BId] and the
    guard tests [ID_WIDTH]. *)
Definition WRespPayload_ctor : WRespPayload := {|
  b_id := if 0 <? ID_WIDTH c then store (BID_WIDTH c) 0 else None;
  b_resp := trunc (RESP_WIDTH c) 0;
  b_buser := if 0 <? BUSER_WIDTH c then store (BUSER_WIDTH c) 0 else None
|}.

(** [WritePayload::WritePayload()]; [wstrb = ~0]. *)
Definition WritePayload_ctor : WritePayload := {|
  w_data := trunc (DATA_WIDTH c) 0;
  w_last := if 0 <? LAST_WIDTH c then store (LAST_WIDTH c) 0 else None;
  w_wstrb := if 0 <? WSTRB_WIDTH c then store (WSTRB_WIDTH c) (Z.lnot 0) else None;
  w_wuser := if 0 <? WUSER_WIDTH c then store (WUSER_WIDTH c) 0 else None
|}.

(** The fields of each payload as (declared width, value) pairs, in
    declaration order. *)
Definition AddrPayload_fields (p : AddrPayload) : list (Z * UIntOrEmpty) :=
  [ (ID_WIDTH c, a_id p); (ADDR_WIDTH c, Some (a_addr p));
    (BURST_WIDTH c, a_burst p); (ALEN_WIDTH c, a_len p);
    (ASIZE_WIDTH c, a_size p); (CACHE_WIDTH c, a_cache p);
    (AUSER_WIDTH c, a_auser p); (C_SNOOP_WIDTH c, a_snoop p);
    (C_DOMAIN_WIDTH c, a_domain p); (C_BARRIER_WIDTH c, a_barrier p);
    (C_UNIQUE_WIDTH c, a_unique p) ].

Definition ReadPayload_fields (p : ReadPayload) : list (Z * UIntOrEmpty) :=
  [ (ID_WIDTH c, r_id p); (DATA_WIDTH c, Some (r_data p));
    (RESP_WIDTH c, Some (r_resp p)); (LAST_WIDTH c, r_last p);
    (RUSER_WIDTH c, r_ruser p) ].

Definition WRespPayload_fields (p : WRespPayload) : list (Z * UIntOrEmpty) :=
  [ (BID_WIDTH c, b_id p); (RESP_WIDTH c, Some (b_resp p));
    (BUSER_WIDTH c, b_buser p) ].

Definition WritePayload_fields (p : WritePayload) : list (Z * UIntOrEmpty) :=
  [ (DATA_WIDTH c, Some (w_data p)); (LAST_WIDTH c, w_last p);
    (WSTRB_WIDTH c, w_wstrb p); (WUSER_WIDTH c, w_wuser p) ].

End Payloads.

(** Every field that is present (declared width above zero) holds zero. *)
Definition zero_valued (fs : list (Z * UIntOrEmpty)) : Prop :=
  Forall (fun f => 0 < fst f -> snd f = Some 0) fs.

(** ** The write slave port [write::slave] *)

(** The state of the port: the messages the AW and W channels offer to
    [PopNB] (oldest first), and the members [got_waddr], [stored_waddr]. *)
Record slave : Type := {
  aw : list AddrPayload;
  w : list WritePayload;
  got_waddr : bool;
  stored_waddr : AddrPayload
}.

(** [Connections::In::PopNB]: takes the oldest message when there is one. *)
Definition PopNB {A : Type} (ch : list A) : option A * list A :=
  match ch with
  | [] => (None, [])
  | x :: ch' => (Some x, ch')
  end.

(** The constructor of the port, on given channels: [got_waddr(false)];
    [stored_waddr] is a default-constructed payload. *)
Definition slave_ctor (c : Cfg) (aw0 : list AddrPayload) (w0 : list WritePayload) : slave :=
  {| aw := aw0; w := w0; got_waddr := false; stored_waddr := AddrPayload_ctor c |}.

(** What a call of [nb_wread] hands back: the returned [bool] and the two
    reference parameters ([None] when the call has not written them). *)
Record wread_out : Type := {
  ret : bool;
  addr_out : option AddrPayload;
  data_out : option WritePayload
}.

(** The second half of [nb_wread]: [if (w.PopNB(data)) ...]. *)
Definition nb_wread_data (addr : AddrPayload) (s : slave) : wread_out * slave :=
  match PopNB (w s) with
  | (Some d, w') =>
      ({| ret := true; addr_out := Some addr; data_out := Some d |},
       {| aw := aw s; w := w'; got_waddr := false; stored_waddr := stored_waddr s |})
  | (None, _) =>
      ({| ret := false; addr_out := Some addr; data_out := None |}, s)
  end.

(** [write::slave::nb_wread]. *)
Definition nb_wread (s : slave) : wread_out * slave :=
  if negb (got_waddr s) then
    match PopNB (aw s) with
    | (None, _) => ({| ret := false; addr_out := None; data_out := None |}, s)
    | (Some a, aw') =>
        nb_wread_data a
          {| aw := aw'; w := w s; got_waddr := true; stored_waddr := a |}
    end
  else nb_wread_data (stored_waddr s) s.

(** The messages a call has taken from a channel: those at the front of
    the channel before the call that are gone after it. *)
Definition taken {A : Type} (before after : list A) : list A :=
  firstn (length before - length after) before.

(** Histories of the port: the environment delivers messages on AW and W,
    the owner calls [nb_wread]. [port_run s la lw] holds when [s] is reached
    with the address beats [la] and the data beats [lw] consumed from the
    channels so far, oldest first. *)
Inductive port_run (c : Cfg) : slave -> list AddrPayload -> list WritePayload -> Prop :=
| run_ctor : port_run c (slave_ctor c [] []) [] []
| run_aw s la lw a :
    port_run c s la lw ->
    port_run c {| aw := aw s ++ [a]; w := w s; got_waddr := got_waddr s;
                  stored_waddr := stored_waddr s |} la lw
| run_w s la lw d :
    port_run c s la lw ->
    port_run c {| aw := aw s; w := w s ++ [d]; got_waddr := got_waddr s;
                  stored_waddr := stored_waddr s |} la lw
| run_nb_wread s la lw :
    port_run c s la lw ->
    port_run c (snd (nb_wread s))
      (la ++ taken (aw s) (aw (snd (nb_wread s))))
      (lw ++ taken (w s) (w (snd (nb_wread s)))).

(** [Connections::In::Pop]: takes the oldest message. The call blocks
    while the channel is empty; [None] stands for a call that has not
    returned. *)
Definition Pop {A : Type} (ch : list A) : option (A * list A) :=
  match ch with
  | [] => None
  | x :: ch' => Some (x, ch')
  end.

(** [write::slave::wread]: the two reference parameters and the port
    afterwards; [None] when one of the two [Pop]s blocks. The members
    [got_waddr] and [stored_waddr] are neither read nor written. *)
Definition wread (s : slave) : option (AddrPayload * WritePayload * slave) :=
  match Pop (aw s) with
  | None => None
  | Some (a, aw') =>
      match Pop (w s) with
      | None => None
      | Some (d, w') =>
          Some (a, d, {| aw := aw'; w := w'; got_waddr := got_waddr s;
                         stored_waddr := stored_waddr s |})
      end
  end.

(** What happens at the port: the environment delivers a message on AW or
    on W, or the owner calls [nb_wread]. *)
Inductive port_event : Type :=
| DeliverAW (a : AddrPayload)
| DeliverW (d : WritePayload)
| CallNbWread.

(** The (address, data) pair a call of [nb_wread] hands to its caller: the
    two reference parameters, when it returns true. *)
Definition returned_pair (out : wread_out) : list (AddrPayload * WritePayload) :=
  if ret out then
    match addr_out out, data_out out with
    | Some a, Some d => [(a, d)]
    | _, _ => []
    end
  else [].

(** The port after a sequence of events, and the pairs handed to the
    caller, oldest first. *)
Fixpoint port_trace (s : slave) (evs : list port_event)
  : slave * list (AddrPayload * WritePayload) :=
  match evs with
  | [] => (s, [])
  | DeliverAW a :: evs' =>
      port_trace {| aw := aw s ++ [a]; w := w s; got_waddr := got_waddr s;
                    stored_waddr := stored_waddr s |} evs'
  | DeliverW d :: evs' =>
      port_trace {| aw := aw s; w := w s ++ [d]; got_waddr := got_waddr s;
                    stored_waddr := stored_waddr s |} evs'
  | CallNbWread :: evs' =>
      let (s', pairs) := port_trace (snd (nb_wread s)) evs' in
      (s', returned_pair (fst (nb_wread s)) ++ pairs)
  end.

(** The messages the environment delivers during a sequence of events. *)
Fixpoint aw_delivered (evs : list port_event) : list AddrPayload :=
  match evs with
  | [] => []
  | DeliverAW a :: evs' => a :: aw_delivered evs'
  | _ :: evs' => aw_delivered evs'
  end.

Fixpoint w_delivered (evs : list port_event) : list WritePayload :=
  match evs with
  | [] => []
  | DeliverW d :: evs' => d :: w_delivered evs'
  | _ :: evs' => w_delivered evs'
  end.

(** The address the port holds back between two calls. *)
Definition held_waddr (s : slave) : list AddrPayload :=
  if got_waddr s then [stored_waddr s] else [].

End Ace.

(** * [axi_master.h] *)

Module Tb.

Definition AXI_TID_NUM : Z := 4.
Definition AXI_BURST_NUM : Z := 3.
Definition AXI4_MAX_LEN : Z := 4.
Definition AXI4_MAX_INCR_LEN : Z := 4.

(** [enc_::AXBURST] (MatchLib's axi4_encoding.h). *)
Definition FIXED : Z := 0.
Definition INCR : Z := 1.
Definition WRAP : Z := 2.

(** Modelled from the spec: [my_log2c] is declared in helper_non_synth.h,
    which is not among the sources; the spec reads [my_log2c(lanes)] as
    "log2(lanes)", and the name says rounded up, so it is the ceiling of the
    binary logarithm. *)
Definition my_log2c (x : Z) : Z := Z.log2_up x.

(** The template parameters of [axi_master], the field widths of
    [axi::axi4<axi::cfg::standard_duth>] (declared in axi/axi4.h and
    axi4_configs.h, not among the sources: the widths are parameters here),
    the tag width [dnp::ID_W], and the address map the module reads from its
    [addr_map] ports ([SLAVE_NUM] rows of [low, high]). *)
Record Params : Type := {
  RD_M_LANES : Z;
  RD_S_LANES : Z;
  WR_M_LANES : Z;
  WR_S_LANES : Z;
  ADDR_WIDTH : Z;
  DATA_WIDTH : Z;
  ID_WIDTH : Z;
  ALEN_WIDTH : Z;
  ASIZE_WIDTH : Z;
  BURST_WIDTH : Z;
  RESP_WIDTH : Z;
  LAST_WIDTH : Z;
  WSTRB_WIDTH : Z;
  ID_W : Z;
  addr_map : list (Z * Z)
}.

(** The payloads of [axi4_], with the fields the master uses. *)
Record AddrPayload : Type := {
  ap_id : Z;
  ap_addr : Z;
  ap_burst : Z;
  ap_len : Z;
  ap_size : Z
}.

Record ReadPayload : Type := {
  rp_id : Z;
  rp_data : Z;
  rp_resp : Z;
  rp_last : Z
}.

Record WritePayload : Type := {
  wp_data : Z;
  wp_last : Z;
  wp_wstrb : Z
}.

Record WRespPayload : Type := {
  bp_id : Z;
  bp_resp : Z
}.

(** The values [rand()] returns during one call of a generator, in call
    order; [rand()] is never negative. *)
Record Draws : Type := {
  d_id : Z;
  d_size : Z;
  d_burst : Z;
  d_len : Z;
  d_lane : Z;
  d_sel : Z
}.

Definition rand_ok (d : Draws) : Prop :=
  0 <= d_id d /\ 0 <= d_size d /\ 0 <= d_burst d /\
  0 <= d_len d /\ 0 <= d_lane d /\ 0 <= d_sel d.

(** The members of [axi_master] the generators and verifiers use. The [int]
    counters are unbounded here (signed overflow is undefined in the source);
    the time stamps of [msg_tb_wrap] and the latency sums ([sc_time]
    arithmetic) are left out. *)
Record master : Type := {
  MASTER_ID : Z;
  gen_rd_addr : Z;
  gen_wr_addr : Z;
  stored_rd_trans : list AddrPayload;
  stored_wr_trans : list AddrPayload;
  stored_wr_data : list WritePayload;
  sb_rd_order_q : list AddrPayload;
  sb_wr_order_q : list AddrPayload;
  rd_trans_generated : Z;
  rd_data_generated : Z;
  wr_trans_generated : Z;
  wr_data_generated : Z;
  rd_resp_ej : Z;
  wr_resp_ej : Z;
  error_sb_rd_resp_not_found : Z;
  error_sb_wr_resp_not_found : Z;
  rd_resp_count : Z;
  rd_resp_data_count : Z;
  wr_resp_count : Z;
  wr_resp_data_count : Z
}.

(** The scoreboard shared by all masters and slaves ([sb_lock] guards it):
    vectors of queues, indexed by destination or by master. *)
Record scoreboard : Type := {
  sb_rd_req_q : list (list AddrPayload);
  sb_rd_resp_q : list (list ReadPayload);
  sb_wr_req_q : list (list AddrPayload);
  sb_wr_data_q : list (list WritePayload);
  sb_wr_resp_q : list (list WRespPayload)
}.

(** A master as its constructor and the testbench leave it: empty queues,
    counters at their in-class initialisers, [MASTER_ID] set by the
    testbench. *)
Definition master_new (master_id : Z) : master := {|
  MASTER_ID := master_id;
  gen_rd_addr := 0;
  gen_wr_addr := 0;
  stored_rd_trans := [];
  stored_wr_trans := [];
  stored_wr_data := [];
  sb_rd_order_q := [];
  sb_wr_order_q := [];
  rd_trans_generated := 0;
  rd_data_generated := 0;
  wr_trans_generated := 0;
  wr_data_generated := 0;
  rd_resp_ej := 0;
  wr_resp_ej := 0;
  error_sb_rd_resp_not_found := 0;
  error_sb_wr_resp_not_found := 0;
  rd_resp_count := 0;
  rd_resp_data_count := 0;
  wr_resp_count := 0;
  wr_resp_data_count := 0
|}.

(** The initialisation at the head of [do_cycle]. *)
Definition do_cycle_reset (m : master) : master := {|
  MASTER_ID := MASTER_ID m;
  gen_rd_addr := 0;
  gen_wr_addr := 0;
  stored_rd_trans := stored_rd_trans m;
  stored_wr_trans := stored_wr_trans m;
  stored_wr_data := stored_wr_data m;
  sb_rd_order_q := sb_rd_order_q m;
  sb_wr_order_q := sb_wr_order_q m;
  rd_trans_generated := 0;
  rd_data_generated := 0;
  wr_trans_generated := 0;
  wr_data_generated := 0;
  rd_resp_ej := 0;
  wr_resp_ej := 0;
  error_sb_rd_resp_not_found := 0;
  error_sb_wr_resp_not_found := 0;
  rd_resp_count := rd_resp_count m;
  rd_resp_data_count := rd_resp_data_count m;
  wr_resp_count := wr_resp_count m;
  wr_resp_data_count := wr_resp_data_count m
|}.

Section WithParams.
Variable p : Params.

(** [mem_map_resolve]: the first row of the address map that holds [addr];
    [None] when [NVHLS_ASSERT_MSG(0, ...)] is reached. *)
Fixpoint resolve_from (i : Z) (rows : list (Z * Z)) (addr : Z) : option Z :=
  match rows with
  | [] => None
  | (lo, hi) :: rows' =>
      if (lo <=? addr) && (addr <=? hi) then Some i
      else resolve_from (i + 1) rows' addr
  end.

Definition mem_map_resolve (addr : Z) : option Z :=
  resolve_from 0 (addr_map p) addr.

(** [((axi4_::Data)x) << ((axi4_::Data)n)]. *)
Definition Data_shl (x n : Z) : Z :=
  trunc (DATA_WIDTH p) (Z.shiftl (trunc (DATA_WIDTH p) x) (trunc (DATA_WIDTH p) n)).

(** *** Generation of the request fields *)

(** The [len] expression of both generators. Division and remainder by
    zero are undefined in the source (a master of one lane, or more than
    four times as wide as its slave); [lanes_ok] below excludes them. *)
Definition gen_len (m_lanes s_lanes burst r : Z) : Z :=
  if burst =? WRAP then Z.shiftl 1 (r mod my_log2c (AXI4_MAX_LEN + 1)) - 1
  else if burst =? FIXED then r mod AXI4_MAX_LEN
  else if s_lanes <? m_lanes then r mod (AXI4_MAX_INCR_LEN / (m_lanes / s_lanes))
  else r mod AXI4_MAX_INCR_LEN.

(** The request [gen_new_rd_trans] / [gen_new_wr_trans] builds from the
    address counter [gen_addr] and the draws. The first assignment to [addr]
    (which consumes [d_lane]) is overwritten by the second. *)
Definition gen_req (m_lanes s_lanes gen_addr : Z) (d : Draws) : AddrPayload :=
  let id := trunc (ID_WIDTH p) (d_id d mod AXI_TID_NUM) in
  let size :=
    trunc (ASIZE_WIDTH p)
      (Z.land (d_size d mod my_log2c m_lanes + 1)
              (Z.shiftl 1 (my_log2c m_lanes) - 1)) in
  let burst := trunc (BURST_WIDTH p) (d_burst d mod AXI_BURST_NUM) in
  let len := trunc (ALEN_WIDTH p) (gen_len m_lanes s_lanes burst (d_len d)) in
  let addr :=
    trunc (ADDR_WIDTH p)
      (if negb (d_sel d mod 2 =? 0) then gen_addr else u32 (gen_addr + 65536)) in
  {| ap_id := id; ap_addr := addr; ap_burst := burst; ap_len := len; ap_size := size |}.

Definition rd_req (m : master) (d : Draws) : AddrPayload :=
  gen_req (RD_M_LANES p) (RD_S_LANES p) (gen_rd_addr m) d.

Definition wr_req (m : master) (d : Draws) : AddrPayload :=
  gen_req (WR_M_LANES p) (WR_S_LANES p) (gen_wr_addr m) d.

(** "Consider resizing at slave": [rd_req_s] of [gen_new_rd_trans]. *)
Definition rd_req_s (req : AddrPayload) : AddrPayload := {|
  ap_id := ap_id req;
  ap_size :=
    trunc (ASIZE_WIDTH p)
      (if RD_S_LANES p <? Z.shiftl 1 (ap_size req) then my_log2c (RD_S_LANES p)
       else u32 (ap_size req));
  ap_len :=
    trunc (ALEN_WIDTH p)
      (if RD_S_LANES p <? Z.shiftl 1 (ap_size req)
       then u32 (Z.shiftl (ap_len req + 1) (ap_size req - my_log2c (RD_S_LANES p)) - 1)
       else u32 (ap_len req));
  ap_burst := ap_burst req;
  ap_addr := ap_addr req
|}.

(** [s_size] and [s_len] of [gen_new_wr_trans], both [unsigned char]. *)
Definition wr_s_size (m_size : Z) : Z :=
  u8 (if WR_S_LANES p <? Z.shiftl 1 m_size then my_log2c (WR_S_LANES p) else m_size).

Definition wr_s_len (m_len m_size : Z) : Z :=
  u8 (if WR_S_LANES p <? Z.shiftl 1 m_size
      then Z.shiftl (m_len + 1) (m_size - wr_s_size m_size) - 1
      else m_len).

(** [s_wr_req] of [gen_new_wr_trans]. *)
Definition wr_req_s (req : AddrPayload) : AddrPayload := {|
  ap_id := ap_id req;
  ap_addr := ap_addr req;
  ap_size := trunc (ASIZE_WIDTH p) (wr_s_size (u8 (ap_size req)));
  ap_len := trunc (ALEN_WIDTH p) (wr_s_len (u8 (ap_len req)) (u8 (ap_size req)));
  ap_burst := ap_burst req
|}.

(** [bytes_total] of both generators ([unsigned long]). *)
Definition bytes_total (req : AddrPayload) : Z :=
  u64 (Z.shiftl (ap_len req + 1) (ap_size req)).

(** *** The expected read response *)

(** The variables of the [while] loop of [gen_new_rd_trans]. The source
    pushes each closed beat to [sb_rd_resp_q] at once; here they are
    collected in [rw_out] and pushed after the loop. [rw_lanes] and the
    second component of [rw_out] are ghost state: a read beat has no strobe,
    so the model records beside each beat which lanes the loop wrote, the
    way the write generator does in [wstrb]. *)
Record rd_walk : Type := {
  rw_count : Z;
  rw_ptr : Z;
  rw_data : Z;
  rw_lanes : Z;
  rw_out : list (ReadPayload * Z)
}.

Definition rd_init_ptr (req : AddrPayload) : Z := u8 (ap_addr req mod RD_M_LANES p).

(** One pass through the loop body; [dst] is what [mem_map_resolve] returns
    for the address of the request. *)
Definition rd_body (req : AddrPayload) (dst : Z) (w : rd_walk) : rd_walk :=
  let total := bytes_total req in
  let m_init_ptr := rd_init_ptr req in
  let m_size := u8 (ap_size req) in
  let data :=
    trunc (DATA_WIDTH p)
      (Z.lor (rw_data w) (Data_shl (Z.land (rw_count w) 255) (rw_ptr w * 8))) in
  let lanes := Z.lor (rw_lanes w) (Z.shiftl 1 (rw_ptr w)) in
  let count := u64 (rw_count w + 1) in
  let ptr :=
    u8 (if ap_burst req =? FIXED
        then (rw_ptr w + 1) mod Z.shiftl 1 m_size + m_init_ptr
        else (rw_ptr w + 1) mod RD_M_LANES p) in
  if (ptr mod Z.shiftl 1 m_size =? 0) || (count =? total) then
    {| rw_count := count; rw_ptr := ptr; rw_data := 0; rw_lanes := 0;
       rw_out := rw_out w ++
         [({| rp_id := ap_id req; rp_data := data;
              rp_resp := trunc (RESP_WIDTH p) dst;
              rp_last := trunc (LAST_WIDTH p) (b2z (count =? total)) |}, lanes)] |}
  else
    {| rw_count := count; rw_ptr := ptr; rw_data := data; rw_lanes := lanes;
       rw_out := rw_out w |}.

(** [while (byte_count < bytes_total) ...], at most [fuel] passes. *)
Fixpoint rd_loop (fuel : nat) (req : AddrPayload) (dst : Z) (w : rd_walk) : rd_walk :=
  match fuel with
  | O => w
  | S fuel' =>
      if rw_count w <? bytes_total req
      then rd_loop fuel' req dst (rd_body req dst w)
      else w
  end.

(** The loop from its initial state; every pass adds one to [byte_count],
    so [bytes_total] passes are enough. *)
Definition rd_expected (req : AddrPayload) (dst : Z) : rd_walk :=
  rd_loop (Z.to_nat (bytes_total req)) req dst
    {| rw_count := 0; rw_ptr := rd_init_ptr req; rw_data := 0; rw_lanes := 0;
       rw_out := [] |}.

(** [gen_new_rd_trans]. *)
Definition gen_new_rd_trans (m : master) (sb : scoreboard) (d : Draws)
  : result (master * scoreboard) :=
  let req := rd_req m d in
  let m1 := {|
    MASTER_ID := MASTER_ID m;
    gen_rd_addr := u32 (gen_rd_addr m + RD_M_LANES p);
    gen_wr_addr := gen_wr_addr m;
    stored_rd_trans := stored_rd_trans m ++ [req];
    stored_wr_trans := stored_wr_trans m;
    stored_wr_data := stored_wr_data m;
    sb_rd_order_q := sb_rd_order_q m;
    sb_wr_order_q := sb_wr_order_q m;
    rd_trans_generated := rd_trans_generated m;
    rd_data_generated := rd_data_generated m;
    wr_trans_generated := wr_trans_generated m;
    wr_data_generated := wr_data_generated m;
    rd_resp_ej := rd_resp_ej m;
    wr_resp_ej := wr_resp_ej m;
    error_sb_rd_resp_not_found := error_sb_rd_resp_not_found m;
    error_sb_wr_resp_not_found := error_sb_wr_resp_not_found m;
    rd_resp_count := rd_resp_count m;
    rd_resp_data_count := rd_resp_data_count m;
    wr_resp_count := wr_resp_count m;
    wr_resp_data_count := wr_resp_data_count m |} in
  match mem_map_resolve (ap_addr (rd_req_s req)) with
  | None => Fatal (m1, sb)
  | Some dst =>
      let beats := map fst (rw_out (rd_expected req dst)) in
      Ok ({|
        MASTER_ID := MASTER_ID m1;
        gen_rd_addr := gen_rd_addr m1;
        gen_wr_addr := gen_wr_addr m1;
        stored_rd_trans := stored_rd_trans m1;
        stored_wr_trans := stored_wr_trans m1;
        stored_wr_data := stored_wr_data m1;
        sb_rd_order_q := sb_rd_order_q m1 ++ [req];
        sb_wr_order_q := sb_wr_order_q m1;
        rd_trans_generated := rd_trans_generated m1 + 1;
        rd_data_generated := rd_data_generated m1 + Z.of_nat (length beats);
        wr_trans_generated := wr_trans_generated m1;
        wr_data_generated := wr_data_generated m1;
        rd_resp_ej := rd_resp_ej m1;
        wr_resp_ej := wr_resp_ej m1;
        error_sb_rd_resp_not_found := error_sb_rd_resp_not_found m1;
        error_sb_wr_resp_not_found := error_sb_wr_resp_not_found m1;
        rd_resp_count := rd_resp_count m1;
        rd_resp_data_count := rd_resp_data_count m1;
        wr_resp_count := wr_resp_count m1;
        wr_resp_data_count := wr_resp_data_count m1 |},
       {|
        sb_rd_req_q :=
          upd_at (Z.to_nat dst) (fun q => q ++ [rd_req_s req]) (sb_rd_req_q sb);
        sb_rd_resp_q :=
          upd_at (Z.to_nat (MASTER_ID m)) (fun q => q ++ beats) (sb_rd_resp_q sb);
        sb_wr_req_q := sb_wr_req_q sb;
        sb_wr_data_q := sb_wr_data_q sb;
        sb_wr_resp_q := sb_wr_resp_q sb |})
  end.

(** *** The write data, at the master and as expected at the slave *)

(** The variables of the [while] loop of [gen_new_wr_trans]: [cur_beat] is
    the beat injected at the master, [beat_at_slave] the beat expected at the
    slave. The beats pushed to [stored_wr_data] and to [sb_wr_data_q] are
    collected in [ww_m_out] and [ww_s_out]. *)
Record wr_walk : Type := {
  ww_count : Z;
  ww_m_ptr : Z;
  ww_s_ptr : Z;
  cur_beat : WritePayload;
  beat_at_slave : WritePayload;
  ww_m_out : list WritePayload;
  ww_s_out : list WritePayload
}.

Definition wr_m_init_ptr (req : AddrPayload) : Z := u8 (ap_addr req mod WR_M_LANES p).
Definition wr_s_init_ptr (req : AddrPayload) : Z := u8 (ap_addr req mod WR_S_LANES p).

(** [unsigned byte_to_write = (byte_count==bytes_total-1) ? MASTER_ID : byte_count]. *)
Definition byte_to_write (master_id total count : Z) : Z :=
  u32 (if count =? u64 (total - 1) then u64 master_id else count).

(** [beat.data |= ...; beat.wstrb |= ...] at lane [ptr]. *)
Definition wr_place (b : WritePayload) (byte ptr : Z) : WritePayload := {|
  wp_data :=
    trunc (DATA_WIDTH p) (Z.lor (wp_data b) (Data_shl (Z.land byte 255) (ptr * 8)));
  wp_wstrb := trunc (WSTRB_WIDTH p) (Z.lor (wp_wstrb b) (Data_shl 1 ptr));
  wp_last := wp_last b
|}.

(** [beat.last = (byte_count == bytes_total)], for the beat that is pushed. *)
Definition wr_close (b : WritePayload) (last : bool) : WritePayload := {|
  wp_data := wp_data b;
  wp_wstrb := wp_wstrb b;
  wp_last := trunc (LAST_WIDTH p) (b2z last)
|}.

(** [beat.data = 0; beat.wstrb = 0], after the push. *)
Definition wr_clear (b : WritePayload) : WritePayload := {|
  wp_data := trunc (DATA_WIDTH p) 0;
  wp_wstrb := trunc (WSTRB_WIDTH p) 0;
  wp_last := wp_last b
|}.

(** One pass through the loop body. *)
Definition wr_body (master_id : Z) (req : AddrPayload) (w : wr_walk) : wr_walk :=
  let total := bytes_total req in
  let m_init_ptr := wr_m_init_ptr req in
  let s_init_ptr := wr_s_init_ptr req in
  let m_size := u8 (ap_size req) in
  let s_size := wr_s_size m_size in
  let byte := byte_to_write master_id total (ww_count w) in
  let cur := wr_place (cur_beat w) byte (ww_m_ptr w) in
  let slv := wr_place (beat_at_slave w) byte (ww_s_ptr w) in
  let count := u64 (ww_count w + 1) in
  let m_ptr :=
    u8 (if ap_burst req =? FIXED
        then (ww_m_ptr w + 1) mod Z.shiftl 1 m_size + m_init_ptr
        else (ww_m_ptr w + 1) mod WR_M_LANES p) in
  let s_ptr :=
    u8 (if ap_burst req =? FIXED
        then (ww_s_ptr w + 1) mod Z.shiftl 1 s_size + s_init_ptr
        else (ww_s_ptr w + 1) mod WR_S_LANES p) in
  let m_closes := (m_ptr mod Z.shiftl 1 m_size =? 0) || (count =? total) in
  let s_closes := (s_ptr mod Z.shiftl 1 s_size =? 0) || (count =? total) in
  let cur_pushed := wr_close cur (count =? total) in
  let slv_pushed := wr_close slv (count =? total) in
  {| ww_count := count;
     ww_m_ptr := m_ptr;
     ww_s_ptr := s_ptr;
     cur_beat := if m_closes then wr_clear cur_pushed else cur;
     beat_at_slave := if s_closes then wr_clear slv_pushed else slv;
     ww_m_out := if m_closes then ww_m_out w ++ [cur_pushed] else ww_m_out w;
     ww_s_out := if s_closes then ww_s_out w ++ [slv_pushed] else ww_s_out w |}.

(** [while (byte_count < bytes_total) ...], at most [fuel] passes. *)
Fixpoint wr_loop (fuel : nat) (master_id : Z) (req : AddrPayload) (w : wr_walk) : wr_walk :=
  match fuel with
  | O => w
  | S fuel' =>
      if ww_count w <? bytes_total req
      then wr_loop fuel' master_id req (wr_body master_id req w)
      else w
  end.

(** The loop from its initial state ([data] and [wstrb] of both beats set to
    0 before it). *)
Definition wr_expected (master_id : Z) (req : AddrPayload) : wr_walk :=
  let zero := {| wp_data := trunc (DATA_WIDTH p) 0; wp_last := 0;
                 wp_wstrb := trunc (WSTRB_WIDTH p) 0 |} in
  wr_loop (Z.to_nat (bytes_total req)) master_id req
    {| ww_count := 0; ww_m_ptr := wr_m_init_ptr req; ww_s_ptr := wr_s_init_ptr req;
       cur_beat := zero; beat_at_slave := zero; ww_m_out := []; ww_s_out := [] |}.

(** [gen_new_wr_trans]. *)
Definition gen_new_wr_trans (m : master) (sb : scoreboard) (d : Draws)
  : result (master * scoreboard) :=
  let req := wr_req m d in
  let m1 := {|
    MASTER_ID := MASTER_ID m;
    gen_rd_addr := gen_rd_addr m;
    gen_wr_addr := u32 (gen_wr_addr m + WR_M_LANES p);
    stored_rd_trans := stored_rd_trans m;
    stored_wr_trans := stored_wr_trans m ++ [req];
    stored_wr_data := stored_wr_data m;
    sb_rd_order_q := sb_rd_order_q m;
    sb_wr_order_q := sb_wr_order_q m ++ [req];
    rd_trans_generated := rd_trans_generated m;
    rd_data_generated := rd_data_generated m;
    wr_trans_generated := wr_trans_generated m;
    wr_data_generated := wr_data_generated m;
    rd_resp_ej := rd_resp_ej m;
    wr_resp_ej := wr_resp_ej m;
    error_sb_rd_resp_not_found := error_sb_rd_resp_not_found m;
    error_sb_wr_resp_not_found := error_sb_wr_resp_not_found m;
    rd_resp_count := rd_resp_count m;
    rd_resp_data_count := rd_resp_data_count m;
    wr_resp_count := wr_resp_count m;
    wr_resp_data_count := wr_resp_data_count m |} in
  match mem_map_resolve (ap_addr (wr_req_s req)) with
  | None => Fatal (m1, sb)
  | Some dst =>
      let w := wr_expected (MASTER_ID m) req in
      Ok ({|
        MASTER_ID := MASTER_ID m1;
        gen_rd_addr := gen_rd_addr m1;
        gen_wr_addr := gen_wr_addr m1;
        stored_rd_trans := stored_rd_trans m1;
        stored_wr_trans := stored_wr_trans m1;
        stored_wr_data := stored_wr_data m1 ++ ww_m_out w;
        sb_rd_order_q := sb_rd_order_q m1;
        sb_wr_order_q := sb_wr_order_q m1;
        rd_trans_generated := rd_trans_generated m1;
        rd_data_generated := rd_data_generated m1;
        wr_trans_generated := wr_trans_generated m1 + 1;
        wr_data_generated := wr_data_generated m1 + Z.of_nat (length (ww_m_out w));
        rd_resp_ej := rd_resp_ej m1;
        wr_resp_ej := wr_resp_ej m1;
        error_sb_rd_resp_not_found := error_sb_rd_resp_not_found m1;
        error_sb_wr_resp_not_found := error_sb_wr_resp_not_found m1;
        rd_resp_count := rd_resp_count m1;
        rd_resp_data_count := rd_resp_data_count m1;
        wr_resp_count := wr_resp_count m1;
        wr_resp_data_count :=
          u64 (wr_resp_data_count m1 + Z.of_nat (length (ww_s_out w))) |},
       {|
        sb_rd_req_q := sb_rd_req_q sb;
        sb_rd_resp_q := sb_rd_resp_q sb;
        sb_wr_req_q :=
          upd_at (Z.to_nat dst) (fun q => q ++ [wr_req_s req]) (sb_wr_req_q sb);
        sb_wr_data_q :=
          upd_at (Z.to_nat dst) (fun q => q ++ ww_s_out w) (sb_wr_data_q sb);
        sb_wr_resp_q := sb_wr_resp_q sb |})
  end.

(** *** The verifiers *)

(** [eq_rd_data] and [eq_wr_resp]. *)
Definition tid_mask : Z := u32 (Z.shiftl 1 (ID_W p) - 1).

Definition eq_rd_data (rcv sb : ReadPayload) : bool :=
  (Z.land (rp_id rcv) tid_mask =? Z.land (rp_id sb) tid_mask) &&
  (rp_data rcv =? rp_data sb) &&
  (rp_resp rcv =? rp_resp sb) &&
  (rp_last rcv =? rp_last sb).

Definition eq_wr_resp (rcv sb : WRespPayload) : bool :=
  (Z.land (bp_id rcv) tid_mask =? Z.land (bp_id sb) tid_mask) &&
  (bp_resp rcv =? bp_resp sb).

(** What the reorder check leaves behind: the assertion of
    [mem_map_resolve] fired, or the value of [reorder] and the order queue. *)
Inductive reorder_result : Type :=
| ReorderFatal
| Reorder (status : Z) (q : list AddrPayload).

(** The reorder check of both verifiers, from index [j], at most [fuel]
    passes: [id] and [resp] are those of the received response, [terminal]
    says whether the entry is erased ([rcv_rd_resp.last] for reads, always
    for writes). *)
Fixpoint reorder_check (fuel j : nat) (q : list AddrPayload) (id resp : Z) (terminal : bool)
  : reorder_result :=
  match fuel with
  | O => Reorder 2 q
  | S fuel' =>
      match nth_error q j with
      | None => Reorder 2 q
      | Some sb_ord_req =>
          if ap_id sb_ord_req =? id then
            match mem_map_resolve (ap_addr sb_ord_req) with
            | None => ReorderFatal
            | Some dst =>
                Reorder (if dst =? resp then 0 else 1)
                        (if terminal then erase j q else q)
            end
          else reorder_check fuel' (S j) q id resp terminal
      end
  end.

Definition rd_reorder_check (q : list AddrPayload) (rcv : ReadPayload) : reorder_result :=
  reorder_check (length q) 0 q (rp_id rcv) (rp_resp rcv) (negb (rp_last rcv =? 0)).

Definition wr_reorder_check (q : list AddrPayload) (rcv : WRespPayload) : reorder_result :=
  reorder_check (length q) 0 q (bp_id rcv) (bp_resp rcv) true.

(** The scan of a predicted-response queue for the first entry equal to the
    received response: its index and the entry. *)
Fixpoint content_check {A : Type} (eq : A -> bool) (fuel j : nat) (q : list A)
  : option (nat * A) :=
  match fuel with
  | O => None
  | S fuel' =>
      match nth_error q j with
      | None => None
      | Some sb_resp =>
          if eq sb_resp then Some (j, sb_resp)
          else content_check eq fuel' (S j) q
      end
  end.

(** [verify_rd_resp]. Reading a vector past its end is undefined in the
    source; the model finds an empty queue there. *)
Definition verify_rd_resp (m : master) (sb : scoreboard) (rcv : ReadPayload)
  : result (master * scoreboard) :=
  match rd_reorder_check (sb_rd_order_q m) rcv with
  | ReorderFatal => Fatal (m, sb)
  | Reorder reorder order_q =>
      let q := nth (Z.to_nat (MASTER_ID m)) (sb_rd_resp_q sb) [] in
      match content_check (eq_rd_data rcv) (length q) 0 q with
      | Some (j, sb_resp) =>
          let ok := (negb (reorder =? 2)) && (negb (reorder =? 1)) in
          let m' := {|
            MASTER_ID := MASTER_ID m;
            gen_rd_addr := gen_rd_addr m;
            gen_wr_addr := gen_wr_addr m;
            stored_rd_trans := stored_rd_trans m;
            stored_wr_trans := stored_wr_trans m;
            stored_wr_data := stored_wr_data m;
            sb_rd_order_q := order_q;
            sb_wr_order_q := sb_wr_order_q m;
            rd_trans_generated := rd_trans_generated m;
            rd_data_generated := rd_data_generated m;
            wr_trans_generated := wr_trans_generated m;
            wr_data_generated := wr_data_generated m;
            rd_resp_ej := if ok then rd_resp_ej m + 1 else rd_resp_ej m;
            wr_resp_ej := wr_resp_ej m;
            error_sb_rd_resp_not_found := error_sb_rd_resp_not_found m;
            error_sb_wr_resp_not_found := error_sb_wr_resp_not_found m;
            rd_resp_count :=
              if negb (rp_last sb_resp =? 0) then u64 (rd_resp_count m + 1)
              else rd_resp_count m;
            rd_resp_data_count := u64 (rd_resp_data_count m + 1);
            wr_resp_count := wr_resp_count m;
            wr_resp_data_count := wr_resp_data_count m |} in
          let sb' := {|
            sb_rd_req_q := sb_rd_req_q sb;
            sb_rd_resp_q := upd_at (Z.to_nat (MASTER_ID m)) (erase j) (sb_rd_resp_q sb);
            sb_wr_req_q := sb_wr_req_q sb;
            sb_wr_data_q := sb_wr_data_q sb;
            sb_wr_resp_q := sb_wr_resp_q sb |} in
          if ok then Ok (m', sb') else Fatal (m', sb')
      | None =>
          Fatal ({|
            MASTER_ID := MASTER_ID m;
            gen_rd_addr := gen_rd_addr m;
            gen_wr_addr := gen_wr_addr m;
            stored_rd_trans := stored_rd_trans m;
            stored_wr_trans := stored_wr_trans m;
            stored_wr_data := stored_wr_data m;
            sb_rd_order_q := order_q;
            sb_wr_order_q := sb_wr_order_q m;
            rd_trans_generated := rd_trans_generated m;
            rd_data_generated := rd_data_generated m;
            wr_trans_generated := wr_trans_generated m;
            wr_data_generated := wr_data_generated m;
            rd_resp_ej := rd_resp_ej m;
            wr_resp_ej := wr_resp_ej m;
            error_sb_rd_resp_not_found := error_sb_rd_resp_not_found m + 1;
            error_sb_wr_resp_not_found := error_sb_wr_resp_not_found m;
            rd_resp_count := rd_resp_count m;
            rd_resp_data_count := rd_resp_data_count m;
            wr_resp_count := wr_resp_count m;
            wr_resp_data_count := wr_resp_data_count m |}, sb)
      end
  end.

(** [verify_wr_resp]. *)
Definition verify_wr_resp (m : master) (sb : scoreboard) (rcv : WRespPayload)
  : result (master * scoreboard) :=
  match wr_reorder_check (sb_wr_order_q m) rcv with
  | ReorderFatal => Fatal (m, sb)
  | Reorder reorder order_q =>
      let q := nth (Z.to_nat (MASTER_ID m)) (sb_wr_resp_q sb) [] in
      match content_check (fun sb_resp => eq_wr_resp sb_resp rcv) (length q) 0 q with
      | Some (j, sb_resp) =>
          let ok := (negb (reorder =? 2)) && (negb (reorder =? 1)) in
          let m' := {|
            MASTER_ID := MASTER_ID m;
            gen_rd_addr := gen_rd_addr m;
            gen_wr_addr := gen_wr_addr m;
            stored_rd_trans := stored_rd_trans m;
            stored_wr_trans := stored_wr_trans m;
            stored_wr_data := stored_wr_data m;
            sb_rd_order_q := sb_rd_order_q m;
            sb_wr_order_q := order_q;
            rd_trans_generated := rd_trans_generated m;
            rd_data_generated := rd_data_generated m;
            wr_trans_generated := wr_trans_generated m;
            wr_data_generated := wr_data_generated m;
            rd_resp_ej := rd_resp_ej m;
            wr_resp_ej := if ok then wr_resp_ej m + 1 else wr_resp_ej m;
            error_sb_rd_resp_not_found := error_sb_rd_resp_not_found m;
            error_sb_wr_resp_not_found := error_sb_wr_resp_not_found m;
            rd_resp_count := rd_resp_count m;
            rd_resp_data_count := rd_resp_data_count m;
            wr_resp_count := u64 (wr_resp_count m + 1);
            wr_resp_data_count := wr_resp_data_count m |} in
          let sb' := {|
            sb_rd_req_q := sb_rd_req_q sb;
            sb_rd_resp_q := sb_rd_resp_q sb;
            sb_wr_req_q := sb_wr_req_q sb;
            sb_wr_data_q := sb_wr_data_q sb;
            sb_wr_resp_q := upd_at (Z.to_nat (MASTER_ID m)) (erase j) (sb_wr_resp_q sb) |} in
          if ok then Ok (m', sb') else Fatal (m', sb')
      | None =>
          Fatal ({|
            MASTER_ID := MASTER_ID m;
            gen_rd_addr := gen_rd_addr m;
            gen_wr_addr := gen_wr_addr m;
            stored_rd_trans := stored_rd_trans m;
            stored_wr_trans := stored_wr_trans m;
            stored_wr_data := stored_wr_data m;
            sb_rd_order_q := sb_rd_order_q m;
            sb_wr_order_q := order_q;
            rd_trans_generated := rd_trans_generated m;
            rd_data_generated := rd_data_generated m;
            wr_trans_generated := wr_trans_generated m;
            wr_data_generated := wr_data_generated m;
            rd_resp_ej := rd_resp_ej m;
            wr_resp_ej := wr_resp_ej m;
            error_sb_rd_resp_not_found := error_sb_rd_resp_not_found m;
            error_sb_wr_resp_not_found := error_sb_wr_resp_not_found m + 1;
            rd_resp_count := rd_resp_count m;
            rd_resp_data_count := rd_resp_data_count m;
            wr_resp_count := wr_resp_count m;
            wr_resp_data_count := wr_resp_data_count m |}, sb)
      end
  end.

(** One injection block: [if (!q.empty()) { tmp = q.front();
    if (port.PushNB(tmp)) { q.pop(); ... } }]: the message pushed and the
    queue afterwards. *)
Definition inject {A : Type} (q : list A) (ready : bool) : option A * list A :=
  match q with
  | [] => (None, [])
  | x :: q' => if ready then (Some x, q') else (None, q)
  end.

(** What the three injection blocks of [do_cycle] ("Read Request
    Injection", "Write Request Injection", "Write Data Injection") do to
    the members of [master]: each pops the front of its queue when its
    [PushNB] is accepted. *)
Definition inject_queues (m : master) (ar_ready aw_ready w_ready : bool) : master := {|
  MASTER_ID := MASTER_ID m;
  gen_rd_addr := gen_rd_addr m;
  gen_wr_addr := gen_wr_addr m;
  stored_rd_trans := snd (inject (stored_rd_trans m) ar_ready);
  stored_wr_trans := snd (inject (stored_wr_trans m) aw_ready);
  stored_wr_data := snd (inject (stored_wr_data m) w_ready);
  sb_rd_order_q := sb_rd_order_q m;
  sb_wr_order_q := sb_wr_order_q m;
  rd_trans_generated := rd_trans_generated m;
  rd_data_generated := rd_data_generated m;
  wr_trans_generated := wr_trans_generated m;
  wr_data_generated := wr_data_generated m;
  rd_resp_ej := rd_resp_ej m;
  wr_resp_ej := wr_resp_ej m;
  error_sb_rd_resp_not_found := error_sb_rd_resp_not_found m;
  error_sb_wr_resp_not_found := error_sb_wr_resp_not_found m;
  rd_resp_count := rd_resp_count m;
  rd_resp_data_count := rd_resp_data_count m;
  wr_resp_count := wr_resp_count m;
  wr_resp_data_count := wr_resp_data_count m
|}.

(** The states of a running master: [do_cycle] initialises the counters of
    a freshly constructed module, then every clock cycle may call the
    generators, run the injection blocks (with any answer of the three
    [PushNB]) and call the verifiers; the scoreboard is shared, so each
    call finds it in any state. A call whose assertion fires halts the
    simulation, so only calls that run to their end lead on. *)
Inductive reachable : master -> Prop :=
| reach_reset master_id : reachable (do_cycle_reset (master_new master_id))
| reach_inject m ar_ready aw_ready w_ready :
    reachable m -> reachable (inject_queues m ar_ready aw_ready w_ready)
| reach_gen_rd m sb d m' sb' :
    reachable m -> rand_ok d ->
    gen_new_rd_trans m sb d = Ok (m', sb') -> reachable m'
| reach_gen_wr m sb d m' sb' :
    reachable m -> rand_ok d ->
    gen_new_wr_trans m sb d = Ok (m', sb') -> reachable m'
| reach_verify_rd m sb rcv m' sb' :
    reachable m ->
    verify_rd_resp m sb rcv = Ok (m', sb') -> reachable m'
| reach_verify_wr m sb rcv m' sb' :
    reachable m ->
    verify_wr_resp m sb rcv = Ok (m', sb') -> reachable m'.

(** The bytes of a sequence of write beats, read through their strobes. *)
Definition wr_bytes (beats : list WritePayload) : list Z :=
  concat (map (fun b => beat_bytes (WSTRB_WIDTH p) (wp_data b) (wp_wstrb b)) beats).

(** The bytes of a sequence of read beats, read through the ghost strobes. *)
Definition rd_bytes (beats : list (ReadPayload * Z)) : list Z :=
  concat (map (fun bg => beat_bytes (RD_M_LANES p) (rp_data (fst bg)) (snd bg)) beats).

(** *** The clocked thread [do_cycle] *)

(** The module [axi_master]: the members of [master], the generation rates
    the testbench sets, and the counters only [do_cycle] touches. *)
Record axi_master : Type := {
  core : master;
  GEN_RATE_RD : Z;
  GEN_RATE_WR : Z;
  total_cycles : Z;
  rd_trans_inj : Z;
  wr_trans_inj : Z;
  wr_data_inj : Z;
  resp_val_expect : Z
}.

(** What the module finds at its ports in one clock cycle: the signal
    [stop_gen], the values the calls of [rand()] return (the one behind
    [rnd_val_rd], those of the read generator, the one behind [rnd_val_wr],
    those of the write generator), whether each [PushNB] is accepted, and
    what each [PopNB] finds. *)
Record cycle_in : Type := {
  stop_gen : bool;
  rnd_rd : Z;
  draws_rd : Draws;
  rnd_wr : Z;
  draws_wr : Draws;
  ar_ready : bool;
  aw_ready : bool;
  w_ready : bool;
  r_msg : option ReadPayload;
  b_msg : option WRespPayload
}.

(** What the module pushes to AR, AW and W in one clock cycle. *)
Record cycle_out : Type := {
  ar_pushed : option AddrPayload;
  aw_pushed : option AddrPayload;
  w_pushed : option WritePayload
}.

Definition set_core (a : axi_master) (m : master) : axi_master := {|
  core := m;
  GEN_RATE_RD := GEN_RATE_RD a;
  GEN_RATE_WR := GEN_RATE_WR a;
  total_cycles := total_cycles a;
  rd_trans_inj := rd_trans_inj a;
  wr_trans_inj := wr_trans_inj a;
  wr_data_inj := wr_data_inj a;
  resp_val_expect := resp_val_expect a
|}.

(** The head of [do_cycle], up to the loop. *)
Definition do_cycle_init (a : axi_master) : axi_master := {|
  core := do_cycle_reset (core a);
  GEN_RATE_RD := GEN_RATE_RD a;
  GEN_RATE_WR := GEN_RATE_WR a;
  total_cycles := 0;
  rd_trans_inj := 0;
  wr_trans_inj := 0;
  wr_data_inj := 0;
  resp_val_expect := 0
|}.

(** "Transaction Generator": [if (!stop_gen.read()) ...]. *)
Definition cycle_gen (a : axi_master) (sb : scoreboard) (i : cycle_in)
  : result (master * scoreboard) :=
  if negb (stop_gen i) then
    match
      (if u32 (rnd_rd i mod 100) <? GEN_RATE_RD a
       then gen_new_rd_trans (core a) sb (draws_rd i)
       else Ok (core a, sb))
    with
    | Fatal s => Fatal s
    | Ok (m1, sb1) =>
        if u32 (rnd_wr i mod 100) <? GEN_RATE_WR a
        then gen_new_wr_trans m1 sb1 (draws_wr i)
        else Ok (m1, sb1)
    end
  else Ok (core a, sb).

(** An injection counter: [n++] when the block has pushed. *)
Definition count_inj {A : Type} (n : Z) (pushed : option A) : Z :=
  match pushed with Some _ => n + 1 | None => n end.

(** "Read Request Injection", "Write Request Injection" and "Write Data
    Injection". *)
Definition cycle_inject (a : axi_master) (i : cycle_in) : axi_master * cycle_out :=
  let m := core a in
  let ar := inject (stored_rd_trans m) (ar_ready i) in
  let aw := inject (stored_wr_trans m) (aw_ready i) in
  let w := inject (stored_wr_data m) (w_ready i) in
  ({| core := {|
        MASTER_ID := MASTER_ID m;
        gen_rd_addr := gen_rd_addr m;
        gen_wr_addr := gen_wr_addr m;
        stored_rd_trans := snd ar;
        stored_wr_trans := snd aw;
        stored_wr_data := snd w;
        sb_rd_order_q := sb_rd_order_q m;
        sb_wr_order_q := sb_wr_order_q m;
        rd_trans_generated := rd_trans_generated m;
        rd_data_generated := rd_data_generated m;
        wr_trans_generated := wr_trans_generated m;
        wr_data_generated := wr_data_generated m;
        rd_resp_ej := rd_resp_ej m;
        wr_resp_ej := wr_resp_ej m;
        error_sb_rd_resp_not_found := error_sb_rd_resp_not_found m;
        error_sb_wr_resp_not_found := error_sb_wr_resp_not_found m;
        rd_resp_count := rd_resp_count m;
        rd_resp_data_count := rd_resp_data_count m;
        wr_resp_count := wr_resp_count m;
        wr_resp_data_count := wr_resp_data_count m |};
      GEN_RATE_RD := GEN_RATE_RD a;
      GEN_RATE_WR := GEN_RATE_WR a;
      total_cycles := total_cycles a;
      rd_trans_inj := count_inj (rd_trans_inj a) (fst ar);
      wr_trans_inj := count_inj (wr_trans_inj a) (fst aw);
      wr_data_inj := count_inj (wr_data_inj a) (fst w);
      resp_val_expect := resp_val_expect a |},
   {| ar_pushed := fst ar; aw_pushed := fst aw; w_pushed := fst w |}).

(** "Read Response Ejection" and the write response after it. *)
Definition cycle_eject (m : master) (sb : scoreboard) (i : cycle_in)
  : result (master * scoreboard) :=
  match
    (match r_msg i with
     | Some rcv_rd_resp => verify_rd_resp m sb rcv_rd_resp
     | None => Ok (m, sb)
     end)
  with
  | Fatal s => Fatal s
  | Ok (m1, sb1) =>
      match b_msg i with
      | Some rcv_wr_resp => verify_wr_resp m1 sb1 rcv_wr_resp
      | None => Ok (m1, sb1)
      end
  end.

(** One pass through [while(1)], from one [wait()] to the next: the module
    and the scoreboard afterwards, and what was pushed. An assertion that
    fires in a generator stops the pass before anything is pushed. *)
Definition do_cycle_body (a : axi_master) (sb : scoreboard) (i : cycle_in)
  : result (axi_master * scoreboard * cycle_out) :=
  match cycle_gen a sb i with
  | Fatal (m, sb1) =>
      Fatal (set_core a m, sb1,
             {| ar_pushed := None; aw_pushed := None; w_pushed := None |})
  | Ok (m, sb1) =>
      let (a1, out) := cycle_inject (set_core a m) i in
      match cycle_eject (core a1) sb1 i with
      | Fatal (m2, sb2) => Fatal (set_core a1 m2, sb2, out)
      | Ok (m2, sb2) => Ok (set_core a1 m2, sb2, out)
      end
  end.

(** The loop over a sequence of clock cycles. The scoreboard is shared with
    the other modules, so every cycle comes with the scoreboard the module
    finds; the simulation halts at the first assertion that fires. The
    result carries what was pushed in each cycle, oldest first. *)
Fixpoint do_cycle_loop (a : axi_master) (cycles : list (scoreboard * cycle_in))
  : result (axi_master * list cycle_out) :=
  match cycles with
  | [] => Ok (a, [])
  | (sb, i) :: cycles' =>
      match do_cycle_body a sb i with
      | Fatal (a', _, out) => Fatal (a', [out])
      | Ok (a', _, out) =>
          match do_cycle_loop a' cycles' with
          | Fatal (a'', outs) => Fatal (a'', out :: outs)
          | Ok (a'', outs) => Ok (a'', out :: outs)
          end
      end
  end.

(** [do_cycle]: the initialisation, then the loop. *)
Definition do_cycle (a : axi_master) (cycles : list (scoreboard * cycle_in))
  : result (axi_master * list cycle_out) :=
  do_cycle_loop (do_cycle_init a) cycles.

End WithParams.

End Tb.

(** * Reasoning devices for the lane walks *)

(** Lane [l] lies in the window of [j] lanes that starts at [base]. *)
Definition in_window (base j l : Z) : bool := (base <=? l) && (l <? base + j).

(** An open beat, seen through [n] lanes: the strobe marks the first [j]
    lanes from [base], which carry [byte 0 .. byte (j-1)]; every other lane
    is zero. *)
Definition Open (n : Z) (byte : Z -> Z) (base j data strb : Z) : Prop :=
  forall l, 0 <= l < n ->
    Z.testbit strb l = in_window base j l /\
    get_byte data l = if in_window base j l then byte (l - base) else 0.

(** [base] starts a window of [s2] lanes inside [lanes] lanes; a FIXED burst
    never leaves the window at [init]. *)
Definition Window (lanes s2 init : Z) (fixed : bool) (base : Z) : Prop :=
  0 <= base /\ base mod s2 = 0 /\ base + s2 <= lanes /\ (fixed = true -> base = init).

(** One side of a walk: the lane pointer, the open beat and its strobe, and
    the closed beats as (data, strobe) pairs. *)
Record side : Type := {
  sd_ptr : Z;
  sd_data : Z;
  sd_strb : Z;
  sd_out : list (Z * Z)
}.

(** What one pass of a generator loop does to one side: [sor] is the strobe
    update, [byte] the byte placed and [count'] the byte count after it. *)
Definition side_next (dw : Z) (sor : Z -> Z -> Z) (lanes s2 init : Z) (fixed : bool)
  (total byte count' : Z) (sd : side) : side :=
  let data :=
    trunc dw (Z.lor (sd_data sd)
                (trunc dw (Z.shiftl (trunc dw byte) (trunc dw (sd_ptr sd * 8))))) in
  let strb := sor (sd_strb sd) (sd_ptr sd) in
  let ptr :=
    u8 (if fixed then (sd_ptr sd + 1) mod s2 + init else (sd_ptr sd + 1) mod lanes) in
  if (ptr mod s2 =? 0) || (count' =? total) then
    {| sd_ptr := ptr; sd_data := 0; sd_strb := 0;
       sd_out := sd_out sd ++ [(data, strb)] |}
  else
    {| sd_ptr := ptr; sd_data := data; sd_strb := strb; sd_out := sd_out sd |}.

(** The bytes of a list of closed beats, in order. *)
Definition side_bytes (n : Z) (out : list (Z * Z)) : list Z :=
  concat (map (fun b => beat_bytes n (fst b) (snd b)) out).

(** The first lane of beat [i]: a FIXED burst stays in the window at
    [init], the others move on by one window per beat, around the lanes. *)
Definition side_base (lanes s2 init : Z) (fixed : bool) (i : Z) : Z :=
  if fixed then init else (init + i * s2) mod lanes.

(** The invariant of a side after [k] bytes: [q] closed beats of [s2] bytes
    each, beat [i] filled from lane [side_base i] with the bytes
    [bytef (i * s2) ...], which so decode to the first [q * s2] bytes of
    [bytef], and an open beat with the next [j]. *)
Definition SideInv (n lanes s2 init : Z) (fixed : bool) (bytef : Z -> Z)
  (k : Z) (sd : side) : Prop :=
  exists q j base,
    0 <= q /\ 0 <= j < s2 /\ k = q * s2 + j /\
    sd_ptr sd = base + j /\
    Window lanes s2 init fixed base /\
    Open n (fun i => bytef (q * s2 + i)) base j (sd_data sd) (sd_strb sd) /\
    side_bytes n (sd_out sd) = pattern bytef (q * s2) /\
    Z.of_nat (length (sd_out sd)) = q /\
    base = side_base lanes s2 init fixed q /\
    (forall i, 0 <= i < q ->
       Open n (fun t => bytef (i * s2 + t)) (side_base lanes s2 init fixed i) s2
         (fst (nth (Z.to_nat i) (sd_out sd) (0, 0)))
         (snd (nth (Z.to_nat i) (sd_out sd) (0, 0)))).

(** The strobe updates of the two generators behave alike on the lanes
    looked at. *)
Definition strobe_update (n : Z) (sor : Z -> Z -> Z) : Prop :=
  forall strb ptr l, 0 <= l < n -> 0 <= ptr < n ->
    Z.testbit (sor strb ptr) l = Z.testbit strb l || (l =? ptr).

(** The read walk seen as one side. *)
Definition rd_side (w : Tb.rd_walk) : side := {|
  sd_ptr := Tb.rw_ptr w;
  sd_data := Tb.rw_data w;
  sd_strb := Tb.rw_lanes w;
  sd_out := map (fun bg => (Tb.rp_data (fst bg), snd bg)) (Tb.rw_out w)
|}.

(** The master side and the slave side of the write walk. *)
Definition wr_m_side (w : Tb.wr_walk) : side := {|
  sd_ptr := Tb.ww_m_ptr w;
  sd_data := Tb.wp_data (Tb.cur_beat w);
  sd_strb := Tb.wp_wstrb (Tb.cur_beat w);
  sd_out := map (fun b => (Tb.wp_data b, Tb.wp_wstrb b)) (Tb.ww_m_out w)
|}.

Definition wr_s_side (w : Tb.wr_walk) : side := {|
  sd_ptr := Tb.ww_s_ptr w;
  sd_data := Tb.wp_data (Tb.beat_at_slave w);
  sd_strb := Tb.wp_wstrb (Tb.beat_at_slave w);
  sd_out := map (fun b => (Tb.wp_data b, Tb.wp_wstrb b)) (Tb.ww_s_out w)
|}.

(** The strobe updates: the ghost strobe of the read walk and [wstrb]. *)
Definition rd_sor (strb ptr : Z) : Z := Z.lor strb (Z.shiftl 1 ptr).

Definition wr_sor (p : Tb.Params) (strb ptr : Z) : Z :=
  trunc (Tb.WSTRB_WIDTH p) (Z.lor strb (Tb.Data_shl p 1 ptr)).

(** ** Legal parameters *)

(** Lane counts are powers of two, at most 128 (a 3-bit size field), the
    master has at least two lanes, and the master is at most four times as
    wide as the slave (the INCR length cap divides by the ratio). *)
Definition lanes_ok (m_lanes s_lanes : Z) : bool :=
  (m_lanes =? 2 ^ Tb.my_log2c m_lanes) && (1 <=? Tb.my_log2c m_lanes) &&
  (Tb.my_log2c m_lanes <=? 7) &&
  (s_lanes =? 2 ^ Tb.my_log2c s_lanes) && (Tb.my_log2c s_lanes <=? 7) &&
  (m_lanes <=? 4 * s_lanes).

(** The fields are wide enough for what the generators put into them. *)
Definition widths_ok (p : Tb.Params) (m_lanes : Z) : bool :=
  (Tb.my_log2c m_lanes <? 2 ^ Tb.ASIZE_WIDTH p) &&
  (Tb.my_log2c m_lanes <=? Tb.ADDR_WIDTH p) &&
  (4 <=? Tb.ALEN_WIDTH p) && (Tb.ALEN_WIDTH p <=? 32) &&
  (8 * m_lanes <=? Tb.DATA_WIDTH p).

Definition rd_params_ok (p : Tb.Params) : bool :=
  lanes_ok (Tb.RD_M_LANES p) (Tb.RD_S_LANES p) && widths_ok p (Tb.RD_M_LANES p).

Definition wr_params_ok (p : Tb.Params) : bool :=
  lanes_ok (Tb.WR_M_LANES p) (Tb.WR_S_LANES p) && widths_ok p (Tb.WR_M_LANES p) &&
  (Tb.WR_M_LANES p <=? Tb.WSTRB_WIDTH p) && (Tb.WR_S_LANES p <=? Tb.WSTRB_WIDTH p) &&
  (8 * Tb.WSTRB_WIDTH p <=? Tb.DATA_WIDTH p).

(** A lane count that divides the alternate address offset 0x10000 and
    the address space: a power of two, at most 2^16. *)
Definition lanes_divide_offset (p : Tb.Params) (lanes : Z) : bool :=
  (lanes =? 2 ^ Tb.my_log2c lanes) && (Tb.my_log2c lanes <=? 16) &&
  (Tb.my_log2c lanes <=? Tb.ADDR_WIDTH p).

(** The first lane of beat [i] of the expected response of a request whose
    address is a multiple of the lane count. *)
Definition rd_lane (p : Tb.Params) (req : Tb.AddrPayload) (i : Z) : Z :=
  if Tb.ap_burst req =? Tb.FIXED then 0
  else (i * 2 ^ Tb.ap_size req) mod Tb.RD_M_LANES p.

(** Beat [i] of a list of read beats. *)
Definition rd_beat (beats : list (Tb.ReadPayload * Z)) (i : Z) : Tb.ReadPayload :=
  fst (nth (Z.to_nat i) beats
         ({| Tb.rp_id := 0; Tb.rp_data := 0; Tb.rp_resp := 0; Tb.rp_last := 0 |}, 0)).

(** The bytes of the read pattern and of the write pattern. *)
Definition rd_byte (k : Z) : Z := k mod 256.

Definition wr_byte (master_id total k : Z) : Z :=
  if k =? total - 1 then master_id mod 256 else k mod 256.

(** ** The slave-side equivalent, in the words of the specification *)

(** The slave-side (size, len) of a request of [len] and [size] for a slave
    of [s_lanes] lanes: narrowed when a beat is wider than the slave. *)
Definition slave_equiv (s_lanes len size : Z) : Z * Z :=
  if s_lanes <? 2 ^ size
  then (Tb.my_log2c s_lanes, Z.shiftl (len + 1) (size - Tb.my_log2c s_lanes) - 1)
  else (size, len).

(** ** The verdict of the order queue, in the words of the specification *)

(** The oldest recorded request with the identifier [id] resolves to the
    destination the response names in [resp]. *)
Definition in_order (p : Tb.Params) (q : list Tb.AddrPayload) (id resp : Z) : bool :=
  match find (fun e => Tb.ap_id e =? id) q with
  | Some e =>
      match Tb.mem_map_resolve p (Tb.ap_addr e) with
      | Some dst => dst =? resp
      | None => false
      end
  | None => false
  end.

(** Every recorded request has an address the address map resolves. *)
Definition order_resolves (p : Tb.Params) (q : list Tb.AddrPayload) : Prop :=
  Forall (fun e => Tb.mem_map_resolve p (Tb.ap_addr e) <> None) q.

(** ** Concrete configurations *)

(** A 64-bit AXI configuration with write strobes. *)
Definition cfg64 : Ace.Cfg := {|
  Ace.dataWidth := 64; Ace.addrWidth := 32; Ace.idWidth := 4;
  Ace.useWriteResponses := 1; Ace.useBurst := 1; Ace.maxBurstSize := 256;
  Ace.useVariableBeatSize := 1; Ace.useLast := 1; Ace.useCache := 0;
  Ace.useFixedBurst := 1; Ace.useWrapBurst := 1; Ace.useWriteStrobes := 1;
  Ace.useACE := 0; Ace.aUserWidth := 0; Ace.wUserWidth := 0;
  Ace.bUserWidth := 0; Ace.rUserWidth := 0
|}.

(** Four master lanes over two slave lanes, two slaves. *)
Definition p42 : Tb.Params := {|
  Tb.RD_M_LANES := 4; Tb.RD_S_LANES := 2; Tb.WR_M_LANES := 4; Tb.WR_S_LANES := 2;
  Tb.ADDR_WIDTH := 32; Tb.DATA_WIDTH := 32; Tb.ID_WIDTH := 4; Tb.ALEN_WIDTH := 8;
  Tb.ASIZE_WIDTH := 3; Tb.BURST_WIDTH := 2; Tb.RESP_WIDTH := 2; Tb.LAST_WIDTH := 1;
  Tb.WSTRB_WIDTH := 4; Tb.ID_W := 2;
  Tb.addr_map := [(0, 65535); (65536, 131071)]
|}.

(** Eight master lanes over four slave lanes. *)
Definition p84 : Tb.Params := {|
  Tb.RD_M_LANES := 8; Tb.RD_S_LANES := 4; Tb.WR_M_LANES := 8; Tb.WR_S_LANES := 4;
  Tb.ADDR_WIDTH := 32; Tb.DATA_WIDTH := 64; Tb.ID_WIDTH := 4; Tb.ALEN_WIDTH := 8;
  Tb.ASIZE_WIDTH := 3; Tb.BURST_WIDTH := 2; Tb.RESP_WIDTH := 2; Tb.LAST_WIDTH := 1;
  Tb.WSTRB_WIDTH := 8; Tb.ID_W := 2;
  Tb.addr_map := [(0, 65535); (65536, 131071)]
|}.

(** Master 1 after reset, and a scoreboard for two masters and two slaves. *)
Definition m_reset : Tb.master := Tb.do_cycle_reset (Tb.master_new 1).

Definition sb_empty : Tb.scoreboard := {|
  Tb.sb_rd_req_q := [[]; []]; Tb.sb_rd_resp_q := [[]; []];
  Tb.sb_wr_req_q := [[]; []]; Tb.sb_wr_data_q := [[]; []];
  Tb.sb_wr_resp_q := [[]; []]
|}.

(** Draws for an INCR request of the widest size and one beat, and for a
    FIXED request of the narrowest size and four beats. *)
Definition d_wide : Tb.Draws := {|
  Tb.d_id := 3; Tb.d_size := 1; Tb.d_burst := 1; Tb.d_len := 0;
  Tb.d_lane := 0; Tb.d_sel := 0
|}.

Definition d_narrow : Tb.Draws := {|
  Tb.d_id := 2; Tb.d_size := 0; Tb.d_burst := 0; Tb.d_len := 3;
  Tb.d_lane := 0; Tb.d_sel := 1
|}.

(** A master with one read and one write request on record, and a
    scoreboard that holds the predicted responses of master 1. *)
Definition req_a : Tb.AddrPayload := {|
  Tb.ap_id := 3; Tb.ap_addr := 65536; Tb.ap_burst := 1; Tb.ap_len := 0; Tb.ap_size := 2
|}.

Definition m_pending : Tb.master := {|
  Tb.MASTER_ID := 1;
  Tb.gen_rd_addr := 4;
  Tb.gen_wr_addr := 4;
  Tb.stored_rd_trans := [];
  Tb.stored_wr_trans := [];
  Tb.stored_wr_data := [];
  Tb.sb_rd_order_q := [req_a];
  Tb.sb_wr_order_q := [req_a];
  Tb.rd_trans_generated := 1;
  Tb.rd_data_generated := 1;
  Tb.wr_trans_generated := 1;
  Tb.wr_data_generated := 1;
  Tb.rd_resp_ej := 0;
  Tb.wr_resp_ej := 0;
  Tb.error_sb_rd_resp_not_found := 0;
  Tb.error_sb_wr_resp_not_found := 0;
  Tb.rd_resp_count := 0;
  Tb.rd_resp_data_count := 0;
  Tb.wr_resp_count := 0;
  Tb.wr_resp_data_count := 0
|}.

Definition rd_resp_a : Tb.ReadPayload := {|
  Tb.rp_id := 3; Tb.rp_data := 50462976; Tb.rp_resp := 1; Tb.rp_last := 1
|}.

Definition wr_resp_a : Tb.WRespPayload := {| Tb.bp_id := 3; Tb.bp_resp := 1 |}.

Definition sb_pending : Tb.scoreboard := {|
  Tb.sb_rd_req_q := [[]; []]; Tb.sb_rd_resp_q := [[]; [rd_resp_a]];
  Tb.sb_wr_req_q := [[]; []]; Tb.sb_wr_data_q := [[]; []];
  Tb.sb_wr_resp_q := [[]; [wr_resp_a]]
|}.

(** * Reasoning devices for the beat flags and the runs *)

(** The [last] flags of the beats closed after [count] of [total] bytes:
    none is set while bytes are still to come, and once all bytes are placed
    the final beat, and only that one, carries [last]. *)
Definition LastInv {A : Type} (lastf : A -> Z) (lw total count : Z) (out : list A) : Prop :=
  (count < total -> Forall (fun x => lastf x = 0) out) /\
  (count = total -> 0 < total ->
   exists front b,
     out = front ++ [b] /\ Forall (fun x => lastf x = 0) front /\
     lastf b = trunc lw 1).

(** The first lane of beat [i] of the write data at the master, for a
    request whose address is a multiple of the master lane count, and at
    the slave. *)
Definition wr_m_lane (p : Tb.Params) (req : Tb.AddrPayload) (i : Z) : Z :=
  if Tb.ap_burst req =? Tb.FIXED then 0
  else (i * 2 ^ Tb.ap_size req) mod Tb.WR_M_LANES p.

Definition wr_s_lane (p : Tb.Params) (req : Tb.AddrPayload) (i : Z) : Z :=
  if Tb.ap_burst req =? Tb.FIXED then Tb.ap_addr req mod Tb.WR_S_LANES p
  else (Tb.ap_addr req mod Tb.WR_S_LANES p +
        i * 2 ^ Tb.ap_size (Tb.wr_req_s p req)) mod Tb.WR_S_LANES p.

(** Beat [i] of a list of write beats. *)
Definition wr_beat (beats : list Tb.WritePayload) (i : Z) : Tb.WritePayload :=
  nth (Z.to_nat i) beats {| Tb.wp_data := 0; Tb.wp_last := 0; Tb.wp_wstrb := 0 |}.

(** The responses of a burst handed to [verify_rd_resp] one after the
    other, as [do_cycle] does over consecutive cycles; the first assertion
    that fires ends the run. *)
Fixpoint verify_rd_beats (p : Tb.Params) (m : Tb.master) (sb : Tb.scoreboard)
  (beats : list Tb.ReadPayload) : result (Tb.master * Tb.scoreboard) :=
  match beats with
  | [] => Ok (m, sb)
  | b :: beats' =>
      match Tb.verify_rd_resp p m sb b with
      | Ok (m', sb') => verify_rd_beats p m' sb' beats'
      | Fatal s => Fatal s
      end
  end.

(** The number of messages pushed on each port over the cycles of a run,
    and the number of responses received. *)
Definition count_some {A B : Type} (f : A -> option B) (l : list A) : Z :=
  Z.of_nat (length (filter (fun x => match f x with Some _ => true | None => false end) l)).

(** The conservation law of the injection queues: every transaction or
    data beat counted as generated has either been injected or is still
    queued. *)
Definition conserved (a : Tb.axi_master) : Prop :=
  Tb.rd_trans_generated (Tb.core a) =
    Tb.rd_trans_inj a + Z.of_nat (length (Tb.stored_rd_trans (Tb.core a))) /\
  Tb.wr_trans_generated (Tb.core a) =
    Tb.wr_trans_inj a + Z.of_nat (length (Tb.stored_wr_trans (Tb.core a))) /\
  Tb.wr_data_generated (Tb.core a) =
    Tb.wr_data_inj a + Z.of_nat (length (Tb.stored_wr_data (Tb.core a))).

(** A module as its constructor and the testbench leave it. *)
Definition a_new : Tb.axi_master := {|
  Tb.core := Tb.master_new 1;
  Tb.GEN_RATE_RD := 50;
  Tb.GEN_RATE_WR := 50;
  Tb.total_cycles := 0;
  Tb.rd_trans_inj := 0;
  Tb.wr_trans_inj := 0;
  Tb.wr_data_inj := 0;
  Tb.resp_val_expect := 0
|}.

(** A cycle that generates a read and a write, and one that only injects. *)
Definition cyc_gen : Tb.cycle_in := {|
  Tb.stop_gen := false;
  Tb.rnd_rd := 7; Tb.draws_rd := d_wide;
  Tb.rnd_wr := 8; Tb.draws_wr := d_narrow;
  Tb.ar_ready := true; Tb.aw_ready := false; Tb.w_ready := true;
  Tb.r_msg := None; Tb.b_msg := None
|}.

Definition cyc_idle : Tb.cycle_in := {|
  Tb.stop_gen := true;
  Tb.rnd_rd := 0; Tb.draws_rd := d_wide;
  Tb.rnd_wr := 0; Tb.draws_wr := d_wide;
  Tb.ar_ready := true; Tb.aw_ready := true; Tb.w_ready := true;
  Tb.r_msg := None; Tb.b_msg := None
|}.

(** An address beat and a data beat that differ from the default ones in
    the address and in the data. *)
Definition addr_beat (x : Z) : Ace.AddrPayload := {|
  Ace.a_id := Ace.a_id (Ace.AddrPayload_ctor cfg64);
  Ace.a_addr := x;
  Ace.a_burst := Ace.a_burst (Ace.AddrPayload_ctor cfg64);
  Ace.a_len := Ace.a_len (Ace.AddrPayload_ctor cfg64);
  Ace.a_size := Ace.a_size (Ace.AddrPayload_ctor cfg64);
  Ace.a_cache := Ace.a_cache (Ace.AddrPayload_ctor cfg64);
  Ace.a_auser := Ace.a_auser (Ace.AddrPayload_ctor cfg64);
  Ace.a_snoop := Ace.a_snoop (Ace.AddrPayload_ctor cfg64);
  Ace.a_domain := Ace.a_domain (Ace.AddrPayload_ctor cfg64);
  Ace.a_barrier := Ace.a_barrier (Ace.AddrPayload_ctor cfg64);
  Ace.a_unique := Ace.a_unique (Ace.AddrPayload_ctor cfg64)
|}.

Definition data_beat (x : Z) : Ace.WritePayload := {|
  Ace.w_data := x;
  Ace.w_last := Ace.w_last (Ace.WritePayload_ctor cfg64);
  Ace.w_wstrb := Ace.w_wstrb (Ace.WritePayload_ctor cfg64);
  Ace.w_wuser := Ace.w_wuser (Ace.WritePayload_ctor cfg64)
|}.

(** A port that holds address 16 back, with address 32 and two data beats
    waiting. *)
Definition port_holding : Ace.slave := {|
  Ace.aw := [addr_beat 32];
  Ace.w := [data_beat 1; data_beat 2];
  Ace.got_waddr := true;
  Ace.stored_waddr := addr_beat 16
|}.

(** The messages pushed on one port over the cycles of a run, oldest
    first. *)
Definition opt_list {A : Type} (x : option A) : list A :=
  match x with Some y => [y] | None => [] end.

Definition pushed {A : Type} (f : Tb.cycle_out -> option A) (outs : list Tb.cycle_out)
  : list A :=
  flat_map (fun o => opt_list (f o)) outs.

(** Master 1 of [p42] after two clock cycles of [do_cycle]: in the first a
    read and a write are generated, the read request and one data beat are
    injected; in the second the write request and a second data beat are
    injected. Two data beats are still queued. *)
Definition m_injected : Tb.master :=
  Eval vm_compute in
    Tb.core (fst (state_of
      (Tb.do_cycle p42 a_new [(sb_empty, cyc_gen); (sb_empty, cyc_idle)]))).

(** A cycle that generates a read and a write from the same draws, and a
    cycle in which a read response and a write response arrive. *)
Definition cyc_gen_wide : Tb.cycle_in := {|
  Tb.stop_gen := false;
  Tb.rnd_rd := 7; Tb.draws_rd := d_wide;
  Tb.rnd_wr := 8; Tb.draws_wr := d_wide;
  Tb.ar_ready := true; Tb.aw_ready := true; Tb.w_ready := true;
  Tb.r_msg := None; Tb.b_msg := None
|}.

Definition cyc_resp : Tb.cycle_in := {|
  Tb.stop_gen := true;
  Tb.rnd_rd := 0; Tb.draws_rd := d_wide;
  Tb.rnd_wr := 0; Tb.draws_wr := d_wide;
  Tb.ar_ready := true; Tb.aw_ready := true; Tb.w_ready := true;
  Tb.r_msg := Some rd_resp_a; Tb.b_msg := Some wr_resp_a
|}.

(** A master with three requests on each order queue: one with another
    identifier, then two with identifier 3, the older one to destination 1
    and the younger one to destination 0. *)
Definition req_b : Tb.AddrPayload := {|
  Tb.ap_id := 1; Tb.ap_addr := 0; Tb.ap_burst := 1; Tb.ap_len := 0; Tb.ap_size := 2
|}.

Definition req_c : Tb.AddrPayload := {|
  Tb.ap_id := 3; Tb.ap_addr := 8; Tb.ap_burst := 1; Tb.ap_len := 0; Tb.ap_size := 2
|}.

Definition m_queued : Tb.master := {|
  Tb.MASTER_ID := 1;
  Tb.gen_rd_addr := 12;
  Tb.gen_wr_addr := 12;
  Tb.stored_rd_trans := [];
  Tb.stored_wr_trans := [];
  Tb.stored_wr_data := [];
  Tb.sb_rd_order_q := [req_b; req_a; req_c];
  Tb.sb_wr_order_q := [req_b; req_a; req_c];
  Tb.rd_trans_generated := 3;
  Tb.rd_data_generated := 3;
  Tb.wr_trans_generated := 3;
  Tb.wr_data_generated := 3;
  Tb.rd_resp_ej := 0;
  Tb.wr_resp_ej := 0;
  Tb.error_sb_rd_resp_not_found := 0;
  Tb.error_sb_wr_resp_not_found := 0;
  Tb.rd_resp_count := 0;
  Tb.rd_resp_data_count := 0;
  Tb.wr_resp_count := 0;
  Tb.wr_resp_data_count := 0
|}.

(** The address counters follow the transaction counters: each is the
    number of transactions generated times the master lane count, as an
    [unsigned int]. *)
Definition addr_tracks (p : Tb.Params) (m : Tb.master) : Prop :=
  Tb.gen_rd_addr m = u32 (Tb.rd_trans_generated m * Tb.RD_M_LANES p) /\
  Tb.gen_wr_addr m = u32 (Tb.wr_trans_generated m * Tb.WR_M_LANES p).

(** * Machine integers and byte lanes *)

Lemma trunc_small w x : 0 <= x < 2 ^ w -> trunc w x = x.
Proof. intros H. unfold trunc. apply Z.mod_small. exact H. Qed.

Lemma trunc_0 w : trunc w 0 = 0.
Proof. unfold trunc. apply Zmod_0_l. Qed.

Lemma trunc_trunc a b x : 0 <= b <= a -> trunc b (trunc a x) = trunc b x.
Proof.
  intros H. unfold trunc.
  apply Z.mod_mod_divide.
  exists (2 ^ (a - b)). rewrite <- Z.pow_add_r by lia. f_equal. lia.
Qed.

Lemma land_255 x : Z.land x 255 = x mod 256.
Proof. change 255 with (Z.ones 8). rewrite Z.land_ones by lia. reflexivity. Qed.

Lemma shiftl_1 n : 0 <= n -> Z.shiftl 1 n = 2 ^ n.
Proof. intros H. rewrite Z.shiftl_1_l. reflexivity. Qed.

Lemma pow2_lt_self n : 0 <= n -> n < 2 ^ n.
Proof. intros H. apply Z.pow_gt_lin_r; lia. Qed.

Lemma get_byte_lor a b l :
  get_byte (Z.lor a b) l = Z.lor (get_byte a l) (get_byte b l).
Proof. unfold get_byte. rewrite Z.shiftr_lor, Z.land_lor_distr_l. reflexivity. Qed.

Lemma get_byte_trunc w x l :
  0 <= l -> 8 * l + 8 <= w -> get_byte (trunc w x) l = get_byte x l.
Proof.
  intros Hl Hw. unfold get_byte, trunc.
  rewrite <- Z.land_ones by lia. change 255 with (Z.ones 8).
  Z.bitblast.
Qed.

Lemma get_byte_shiftl b q l :
  0 <= b < 256 -> 0 <= q -> 0 <= l ->
  get_byte (Z.shiftl b (8 * q)) l = if l =? q then b else 0.
Proof.
  intros Hb Hq Hl. unfold get_byte. change 255 with (Z.ones 8).
  destruct (Z.eqb_spec l q) as [->|Hne].
  - rewrite Z.shiftr_shiftl_l, Z.sub_diag, Z.shiftl_0_r by lia.
    rewrite Z.land_ones by lia. apply Z.mod_small. lia.
  - Z.bitblast. rewrite andb_true_r. subst.
    destruct (Z.ltb_spec (i + 8 * l - 8 * q) 0).
    + apply Z.testbit_neg_r; lia.
    + destruct (Z.eq_dec b 0) as [->|]; [apply Z.testbit_0_l|].
      apply Z.bits_above_log2; try lia.
      apply Z.lt_le_trans with 8; [|lia].
      apply Z.log2_lt_pow2; lia.
Qed.

Lemma testbit_trunc w x l :
  0 <= l < w -> Z.testbit (trunc w x) l = Z.testbit x l.
Proof. intros H. unfold trunc. apply Z.mod_pow2_bits_low. lia. Qed.

Lemma testbit_shiftl_1 q l :
  0 <= q -> 0 <= l -> Z.testbit (Z.shiftl 1 q) l = (l =? q).
Proof.
  intros Hq Hl. rewrite Z.shiftl_spec by lia.
  destruct (Z.eqb_spec l q) as [->|Hne].
  - rewrite Z.sub_diag. reflexivity.
  - destruct (Z.ltb_spec l q).
    + apply Z.testbit_neg_r. lia.
    + replace (l - q) with (Z.succ (l - q - 1)) by lia.
      change 1 with (2 * 0 + 1) at 1.
      rewrite Z.testbit_odd_succ by lia. apply Z.testbit_0_l.
Qed.

(** * Lists of lanes *)

Lemma in_lanes_upto n l : In l (lanes_upto n) <-> 0 <= l < n.
Proof.
  unfold lanes_upto. rewrite in_map_iff. split.
  - intros [i [<- Hi]]. apply in_seq in Hi. lia.
  - intros H. exists (Z.to_nat l). split; [lia|]. apply in_seq. lia.
Qed.

Lemma seq_from a n : seq a n = map (fun i => (a + i)%nat) (seq 0 n).
Proof.
  revert a. induction n as [|n IH]; intros a; [reflexivity|].
  simpl. f_equal; [lia|].
  rewrite (IH (S a)), <- seq_shift, map_map.
  apply map_ext. intros i. lia.
Qed.

Lemma lanes_upto_add a b :
  0 <= a -> 0 <= b ->
  lanes_upto (a + b) = lanes_upto a ++ map (fun i => a + i) (lanes_upto b).
Proof.
  intros Ha Hb. unfold lanes_upto.
  rewrite Z2Nat.inj_add, seq_app, map_app by lia. f_equal.
  simpl. rewrite (seq_from (Z.to_nat a)), !map_map.
  apply map_ext_in. intros i _. lia.
Qed.

Lemma pattern_add f a b :
  0 <= a -> 0 <= b ->
  pattern f (a + b) = pattern f a ++ pattern (fun i => f (a + i)) b.
Proof.
  intros Ha Hb. unfold pattern.
  rewrite lanes_upto_add, map_app, map_map by lia. reflexivity.
Qed.

Lemma pattern_ext f g n :
  (forall k, 0 <= k < n -> f k = g k) -> pattern f n = pattern g n.
Proof.
  intros H. unfold pattern. apply map_ext_in.
  intros k Hk. apply H. apply in_lanes_upto. exact Hk.
Qed.

Lemma filter_none {A : Type} (f : A -> bool) l :
  (forall x, In x l -> f x = false) -> filter f l = [].
Proof.
  induction l as [|x l IH]; intros H; [reflexivity|].
  simpl. rewrite (H x) by (left; reflexivity).
  apply IH. intros y Hy. apply H. right. exact Hy.
Qed.

Lemma filter_all {A : Type} (f : A -> bool) l :
  (forall x, In x l -> f x = true) -> filter f l = l.
Proof.
  induction l as [|x l IH]; intros H; [reflexivity|].
  simpl. rewrite (H x) by (left; reflexivity). f_equal.
  apply IH. intros y Hy. apply H. right. exact Hy.
Qed.

Lemma filter_window n base j :
  0 <= base -> 0 <= j -> base + j <= n ->
  filter (in_window base j) (lanes_upto n) = map (fun i => base + i) (lanes_upto j).
Proof.
  intros Hb Hj Hn.
  replace n with (base + (j + (n - base - j))) by lia.
  rewrite lanes_upto_add by lia.
  rewrite (lanes_upto_add j) by lia.
  rewrite map_app, !filter_app.
  rewrite filter_none, filter_all, filter_none.
  - rewrite app_nil_r. reflexivity.
  - intros x Hx. apply in_map_iff in Hx. destruct Hx as [y [<- Hy]].
    apply in_map_iff in Hy. destruct Hy as [z [<- Hz]].
    apply in_lanes_upto in Hz. unfold in_window.
    apply andb_false_iff. right. apply Z.ltb_ge. lia.
  - intros x Hx. apply in_map_iff in Hx. destruct Hx as [y [<- Hy]].
    apply in_lanes_upto in Hy. unfold in_window.
    apply andb_true_iff. split; [apply Z.leb_le | apply Z.ltb_lt]; lia.
  - intros x Hx. apply in_lanes_upto in Hx. unfold in_window.
    apply andb_false_iff. left. apply Z.leb_gt. lia.
Qed.

(** * Open beats *)

Lemma Open_empty n byte base : Open n byte base 0 0 0.
Proof.
  intros l Hl. unfold in_window, get_byte.
  rewrite Z.testbit_0_l, Z.shiftr_0_l, Z.land_0_l.
  replace ((base <=? l) && (l <? base + 0)) with false; [split; reflexivity|].
  symmetry. apply andb_false_iff.
  destruct (Z.leb_spec base l); [right; apply Z.ltb_ge; lia | left; reflexivity].
Qed.

Lemma Open_decode n byte base j data strb :
  Open n byte base j data strb ->
  0 <= base -> 0 <= j -> base + j <= n ->
  beat_bytes n data strb = pattern byte j.
Proof.
  intros H Hb Hj Hn. unfold beat_bytes, pattern.
  rewrite (filter_ext_in (Z.testbit strb) (in_window base j)).
  - rewrite filter_window by assumption. rewrite map_map.
    apply map_ext_in. intros i Hi. apply in_lanes_upto in Hi.
    destruct (H (base + i)) as [_ H2]; [lia|].
    rewrite H2. unfold in_window.
    replace (base <=? base + i) with true by (symmetry; apply Z.leb_le; lia).
    replace (base + i <? base + j) with true by (symmetry; apply Z.ltb_lt; lia).
    simpl. f_equal. lia.
  - intros l Hl. apply in_lanes_upto in Hl. apply (H l Hl).
Qed.

Lemma Open_place dw n byte base j data strb b strb' :
  Open n byte base j data strb ->
  0 <= base -> 0 <= j -> base + j < n -> 8 * n <= dw ->
  0 <= b < 256 -> b = byte j ->
  (forall l, 0 <= l < n -> Z.testbit strb' l = Z.testbit strb l || (l =? base + j)) ->
  Open n byte base (j + 1)
    (trunc dw (Z.lor data
       (trunc dw (Z.shiftl (trunc dw b) (trunc dw ((base + j) * 8))))))
    strb'.
Proof.
  intros H Hb Hj Hn Hdw Hbyte Hbj Hs l Hl.
  destruct (H l Hl) as [H1 H2].
  assert (Hdw8 : 8 <= dw) by lia.
  assert (Hp : 256 <= 2 ^ dw).
  { change 256 with (2 ^ 8). apply Z.pow_le_mono_r; lia. }
  assert (Hlin : dw < 2 ^ dw) by (apply pow2_lt_self; lia).
  rewrite (trunc_small dw b) by lia.
  rewrite (trunc_small dw ((base + j) * 8)) by lia.
  rewrite get_byte_trunc, get_byte_lor, get_byte_trunc by lia.
  replace ((base + j) * 8) with (8 * (base + j)) by lia.
  rewrite get_byte_shiftl by lia.
  rewrite Hs, H1, H2 by lia. unfold in_window.
  destruct (Z.eqb_spec l (base + j)) as [->|Hne].
  - replace (base <=? base + j) with true by (symmetry; apply Z.leb_le; lia).
    replace (base + j <? base + j) with false by (symmetry; apply Z.ltb_ge; lia).
    replace (base + j <? base + (j + 1)) with true by (symmetry; apply Z.ltb_lt; lia).
    simpl. split; [reflexivity|]. rewrite Hbj. f_equal. lia.
  - rewrite orb_false_r, Z.lor_0_r.
    replace (l <? base + (j + 1)) with (l <? base + j); [split; reflexivity|].
    destruct (Z.ltb_spec l (base + j)); symmetry; [apply Z.ltb_lt | apply Z.ltb_ge]; lia.
Qed.

(** * The lane pointer *)

Lemma cursor_next lanes s2 init fixed base j :
  0 < s2 -> lanes <= 256 -> lanes mod s2 = 0 ->
  Window lanes s2 init fixed base -> 0 <= j < s2 ->
  let ptr' :=
    u8 (if fixed then (base + j + 1) mod s2 + init else (base + j + 1) mod lanes) in
  (j + 1 < s2 -> ptr' = base + (j + 1) /\ ptr' mod s2 <> 0) /\
  (j + 1 = s2 ->
     Window lanes s2 init fixed ptr' /\ ptr' mod s2 = 0 /\
     ptr' = if fixed then init else (base + s2) mod lanes).
Proof.
  intros Hs2 H256 Hlm (Hb0 & Hbm & Hbl & Hfix) Hj.
  apply Z.mod_divide in Hbm; [|lia]. destruct Hbm as [b Hb].
  apply Z.mod_divide in Hlm; [|lia]. destruct Hlm as [m Hm].
  assert (Hbs : (base + j + 1) mod s2 = (j + 1) mod s2).
  { replace (base + j + 1) with (j + 1 + b * s2) by lia. apply Z.mod_add. lia. }
  assert (Hb1 : 0 <= b) by nia.
  assert (Hbm : b + 1 <= m) by nia.
  cbv zeta. unfold u8. split.
  - intros Hlt.
    assert (Hp : (if fixed then (base + j + 1) mod s2 + init
                  else (base + j + 1) mod lanes) = base + (j + 1)).
    { destruct fixed.
      - rewrite Hbs, Z.mod_small by lia. rewrite (Hfix eq_refl). lia.
      - rewrite Z.mod_small by lia. lia. }
    rewrite Hp, trunc_small by lia. split; [reflexivity|].
    replace (base + (j + 1)) with (base + j + 1) by lia.
    rewrite Hbs, Z.mod_small by lia. lia.
  - intros Heq. destruct fixed.
    + rewrite Hbs, Heq, Z.mod_same by lia.
      rewrite <- (Hfix eq_refl). rewrite Z.add_0_l, trunc_small by lia.
      split; [|split; [rewrite Hb; apply Z.mod_mul; lia | reflexivity]].
      split; [lia|]. split; [rewrite Hb; apply Z.mod_mul; lia|].
      split; [lia | reflexivity].
    + destruct (Z.eq_dec (b + 1) m) as [Hlast|Hmore].
      * replace (base + j + 1) with lanes by nia.
        replace (base + s2) with lanes by nia.
        rewrite Z.mod_same by lia. rewrite trunc_0.
        split; [|split; [apply Zmod_0_l | reflexivity]].
        split; [lia|]. split; [apply Zmod_0_l|]. split; [nia | discriminate].
      * assert (Hin : base + j + 1 < lanes) by nia.
        replace (base + s2) with (base + j + 1) by lia.
        rewrite Z.mod_small, trunc_small by lia.
        replace (base + j + 1) with ((b + 1) * s2) by lia.
        split; [|split; [apply Z.mod_mul; lia | reflexivity]].
        split; [nia|]. split; [apply Z.mod_mul; lia|]. split; [nia | discriminate].
Qed.

(** * One side of a walk *)

Lemma side_bytes_snoc n out data strb :
  side_bytes n (out ++ [(data, strb)]) = side_bytes n out ++ beat_bytes n data strb.
Proof.
  unfold side_bytes. rewrite map_app, concat_app. simpl.
  rewrite app_nil_r. reflexivity.
Qed.

Lemma side_base_next (lanes s2 init : Z) (fixed : bool) (q : Z) :
  lanes <> 0 ->
  (if fixed then init else (side_base lanes s2 init fixed q + s2) mod lanes) =
  side_base lanes s2 init fixed (q + 1).
Proof.
  intros Hl. unfold side_base. destruct fixed; [reflexivity|].
  rewrite Z.add_mod_idemp_l by exact Hl. f_equal. lia.
Qed.

Lemma SideInv_start n lanes s2 init fixed bytef :
  0 < s2 -> 0 <= init -> init mod s2 = 0 -> init + s2 <= lanes ->
  SideInv n lanes s2 init fixed bytef 0
    {| sd_ptr := init; sd_data := 0; sd_strb := 0; sd_out := [] |}.
Proof.
  intros Hs Hi Him Hil. exists 0, 0, init. simpl.
  split; [lia|]. split; [lia|]. split; [reflexivity|]. split; [lia|].
  split; [unfold Window; auto with zarith|].
  split; [apply Open_empty|]. split; [reflexivity|]. split; [reflexivity|].
  split; [|intros i Hlt; lia].
  unfold side_base. destruct fixed; [reflexivity|].
  rewrite Z.add_0_r, Z.mod_small by lia. reflexivity.
Qed.

Lemma side_next_inv dw sor n lanes s2 init fixed bytef total k sd :
  0 < s2 -> lanes <= 256 -> lanes <= n -> 8 * n <= dw ->
  lanes mod s2 = 0 -> total mod s2 = 0 ->
  strobe_update n sor ->
  0 <= bytef k < 256 -> 0 <= k < total ->
  SideInv n lanes s2 init fixed bytef k sd ->
  SideInv n lanes s2 init fixed bytef (k + 1)
    (side_next dw sor lanes s2 init fixed total (bytef k) (k + 1) sd).
Proof.
  intros Hs2 H256 Hln Hdw Hlm Htm Hsor Hbyte Hk
    (q & j & base & Hq & Hj & Hkq & Hptr & Hwin & Hopen & Hout & Hlen & Hbase & Hbeats).
  pose proof (cursor_next lanes s2 init fixed base j Hs2 H256 Hlm Hwin Hj) as Hcur.
  cbv zeta in Hcur.
  destruct Hwin as (Hb0 & Hbm & Hbl & Hfix).
  apply Z.mod_divide in Htm; [|lia]. destruct Htm as [t Ht].
  assert (Hplace :
    Open n (fun i => bytef (q * s2 + i)) base (j + 1)
      (trunc dw (Z.lor (sd_data sd)
         (trunc dw (Z.shiftl (trunc dw (bytef k)) (trunc dw ((base + j) * 8))))))
      (sor (sd_strb sd) (base + j))).
  { apply Open_place with (strb := sd_strb sd); try assumption; try lia.
    - f_equal. lia.
    - intros l Hl. apply Hsor; lia. }
  unfold side_next. rewrite Hptr.
  set (ptr' := u8 (if fixed then (base + j + 1) mod s2 + init
                   else (base + j + 1) mod lanes)) in *.
  destruct Hcur as [Hstay Hwrap].
  destruct (Z_lt_dec (j + 1) s2) as [Hlt|Hge].
  - destruct (Hstay Hlt) as [Hp Hnz].
    apply Z.eqb_neq in Hnz. rewrite Hnz.
    assert (Hkt : k + 1 <> total).
    { intros E.
      assert (Hm : (j + 1 + q * s2) mod s2 = 0).
      { replace (j + 1 + q * s2) with (t * s2) by lia. apply Z.mod_mul. lia. }
      rewrite Z.mod_add, Z.mod_small in Hm by lia. lia. }
    apply Z.eqb_neq in Hkt. rewrite Hkt.
    simpl. exists q, (j + 1), base. simpl.
    split; [lia|]. split; [lia|]. split; [lia|]. split; [exact Hp|].
    split; [unfold Window; auto|].
    split; [exact Hplace|]. split; [assumption|]. split; [assumption|].
    split; assumption.
  - assert (Heq : j + 1 = s2) by lia.
    destruct (Hwrap Heq) as (Hw & Hz & Hnew).
    rewrite Hz. simpl.
    exists (q + 1), 0, ptr'. simpl.
    split; [lia|]. split; [lia|]. split; [nia|].
    split; [rewrite Z.add_0_r; reflexivity|].
    split; [exact Hw|].
    split; [apply Open_empty|].
    split.
    + rewrite side_bytes_snoc, Hout.
      rewrite (Open_decode n _ base (j + 1) _ _ Hplace) by lia.
      replace ((q + 1) * s2) with (q * s2 + s2) by lia.
      rewrite Heq. rewrite (pattern_add bytef (q * s2) s2) by nia. reflexivity.
    + split; [rewrite length_app; simpl; lia|]. split.
      * rewrite Hnew, Hbase. apply side_base_next. lia.
      * intros i Hi. destruct (Z.eq_dec i q) as [->|Hne].
        -- replace (Z.to_nat q) with (length (sd_out sd)) by lia.
           rewrite nth_middle. simpl. rewrite <- Hbase. rewrite Heq in Hplace.
           exact Hplace.
        -- rewrite app_nth1 by lia. apply Hbeats. lia.
Qed.

Lemma SideInv_done n lanes s2 init fixed bytef total sd :
  0 < s2 -> 0 <= total -> total mod s2 = 0 ->
  SideInv n lanes s2 init fixed bytef total sd ->
  side_bytes n (sd_out sd) = pattern bytef total /\
  Z.of_nat (length (sd_out sd)) * s2 = total /\
  forall i, 0 <= i < Z.of_nat (length (sd_out sd)) ->
    Open n (fun t => bytef (i * s2 + t)) (side_base lanes s2 init fixed i) s2
      (fst (nth (Z.to_nat i) (sd_out sd) (0, 0)))
      (snd (nth (Z.to_nat i) (sd_out sd) (0, 0))).
Proof.
  intros Hs2 Ht Htm
    (q & j & base & Hq & Hj & Hkq & _ & _ & _ & Hout & Hlen & _ & Hbeats).
  assert (Hj0 : j = 0).
  { rewrite Hkq in Htm. rewrite Z.add_comm, Z.mod_add, Z.mod_small in Htm by lia. exact Htm. }
  subst j. rewrite Z.add_0_r in Hkq. subst total.
  split; [exact Hout|]. split; [lia|]. rewrite Hlen. exact Hbeats.
Qed.

(** * The read walk *)

Lemma rd_sor_update n : strobe_update n rd_sor.
Proof.
  intros strb ptr l Hl Hp. unfold rd_sor.
  rewrite Z.lor_spec, testbit_shiftl_1 by lia. reflexivity.
Qed.

Lemma rd_body_side p req dst w :
  rd_side (Tb.rd_body p req dst w) =
  side_next (Tb.DATA_WIDTH p) rd_sor (Tb.RD_M_LANES p)
    (Z.shiftl 1 (u8 (Tb.ap_size req))) (Tb.rd_init_ptr p req)
    (Tb.ap_burst req =? Tb.FIXED) (Tb.bytes_total req)
    (Z.land (Tb.rw_count w) 255) (u64 (Tb.rw_count w + 1)) (rd_side w).
Proof.
  unfold Tb.rd_body, side_next, rd_side, Tb.Data_shl, rd_sor. simpl.
  match goal with |- context [if ?c then _ else _] => destruct c end;
    simpl; rewrite ?map_app; reflexivity.
Qed.

Lemma rd_body_count p req dst w :
  Tb.rw_count (Tb.rd_body p req dst w) = u64 (Tb.rw_count w + 1).
Proof.
  unfold Tb.rd_body.
  match goal with |- context [if ?c then _ else _] => destruct c end; reflexivity.
Qed.

Section ReadWalk.
Variable p : Tb.Params.
Variable req : Tb.AddrPayload.
Variable dst : Z.
Let lanes := Tb.RD_M_LANES p.
Let s2 := Z.shiftl 1 (u8 (Tb.ap_size req)).
Let total := Tb.bytes_total req.
Let inv := SideInv lanes lanes s2 (Tb.rd_init_ptr p req)
             (Tb.ap_burst req =? Tb.FIXED) rd_byte.

Hypothesis Hs2 : 0 < s2.
Hypothesis H256 : lanes <= 256.
Hypothesis Hdw : 8 * lanes <= Tb.DATA_WIDTH p.
Hypothesis Hlm : lanes mod s2 = 0.
Hypothesis Htm : total mod s2 = 0.
Hypothesis Ht64 : 0 <= total < 2 ^ 64.

Lemma rd_loop_inv fuel : forall w,
  inv (Tb.rw_count w) (rd_side w) ->
  0 <= Tb.rw_count w <= total ->
  total - Tb.rw_count w <= Z.of_nat fuel ->
  Tb.rw_count (Tb.rd_loop p fuel req dst w) = total /\
  inv total (rd_side (Tb.rd_loop p fuel req dst w)).
Proof.
  induction fuel as [|fuel IH]; intros w Hinv Hc Hf.
  - simpl. assert (Tb.rw_count w = total) by lia.
    split; [assumption|]. rewrite <- H. exact Hinv.
  - simpl. fold total. destruct (Z.ltb_spec (Tb.rw_count w) total) as [Hlt|Hge].
    + assert (Hu : u64 (Tb.rw_count w + 1) = Tb.rw_count w + 1).
      { apply trunc_small. lia. }
      apply IH.
      * rewrite rd_body_count, rd_body_side, Hu, land_255.
        change (Tb.rw_count w mod 256) with (rd_byte (Tb.rw_count w)).
        apply side_next_inv; try assumption; try lia.
        -- apply rd_sor_update.
        -- unfold rd_byte. apply Z.mod_pos_bound. lia.
      * rewrite rd_body_count, Hu. lia.
      * rewrite rd_body_count, Hu. lia.
    + assert (Tb.rw_count w = total) by lia.
      split; [assumption|]. rewrite <- H. exact Hinv.
Qed.

Lemma rd_expected_inv :
  Tb.rd_init_ptr p req mod s2 = 0 ->
  0 <= Tb.rd_init_ptr p req -> Tb.rd_init_ptr p req + s2 <= lanes ->
  side_bytes lanes (sd_out (rd_side (Tb.rd_expected p req dst))) = pattern rd_byte total /\
  Z.of_nat (length (Tb.rw_out (Tb.rd_expected p req dst))) * s2 = total /\
  (forall i, 0 <= i < Z.of_nat (length (Tb.rw_out (Tb.rd_expected p req dst))) ->
     Open lanes (fun t => rd_byte (i * s2 + t))
       (side_base lanes s2 (Tb.rd_init_ptr p req) (Tb.ap_burst req =? Tb.FIXED) i) s2
       (Tb.rp_data (rd_beat (Tb.rw_out (Tb.rd_expected p req dst)) i))
       (snd (nth (Z.to_nat i) (Tb.rw_out (Tb.rd_expected p req dst))
              ({| Tb.rp_id := 0; Tb.rp_data := 0; Tb.rp_resp := 0; Tb.rp_last := 0 |}, 0)))).
Proof.
  intros Him Hi0 Hil.
  destruct (rd_loop_inv (Z.to_nat total)
    {| Tb.rw_count := 0; Tb.rw_ptr := Tb.rd_init_ptr p req; Tb.rw_data := 0;
       Tb.rw_lanes := 0; Tb.rw_out := [] |}) as [_ Hfin].
  - apply SideInv_start; assumption.
  - simpl. lia.
  - simpl. lia.
  - destruct (SideInv_done _ _ _ _ _ _ _ _ Hs2 (proj1 Ht64) Htm Hfin) as (Hb & Hl & Hbeats).
    split; [exact Hb|].
    simpl in Hl, Hbeats. rewrite length_map in Hl, Hbeats.
    split; [exact Hl|].
    intros i Hi. specialize (Hbeats i Hi).
    change (0, 0) with
      ((fun bg : Tb.ReadPayload * Z => (Tb.rp_data (fst bg), snd bg))
         ({| Tb.rp_id := 0; Tb.rp_data := 0; Tb.rp_resp := 0; Tb.rp_last := 0 |}, 0))
      in Hbeats.
    rewrite map_nth in Hbeats. exact Hbeats.
Qed.

End ReadWalk.

(** * The write walk *)

Lemma wr_sor_update p :
  8 * Tb.WSTRB_WIDTH p <= Tb.DATA_WIDTH p ->
  strobe_update (Tb.WSTRB_WIDTH p) (wr_sor p).
Proof.
  intros Hdw strb ptr l Hl Hp. unfold wr_sor, Tb.Data_shl.
  assert (Hlin : Tb.DATA_WIDTH p < 2 ^ Tb.DATA_WIDTH p) by (apply pow2_lt_self; lia).
  rewrite testbit_trunc, Z.lor_spec by lia.
  rewrite (trunc_small _ 1) by lia.
  rewrite (trunc_small _ ptr) by lia.
  rewrite testbit_trunc, testbit_shiftl_1 by lia. reflexivity.
Qed.

Lemma wr_body_m_side p mid req w :
  wr_m_side (Tb.wr_body p mid req w) =
  side_next (Tb.DATA_WIDTH p) (wr_sor p) (Tb.WR_M_LANES p)
    (Z.shiftl 1 (u8 (Tb.ap_size req))) (Tb.wr_m_init_ptr p req)
    (Tb.ap_burst req =? Tb.FIXED) (Tb.bytes_total req)
    (Z.land (Tb.byte_to_write mid (Tb.bytes_total req) (Tb.ww_count w)) 255)
    (u64 (Tb.ww_count w + 1)) (wr_m_side w).
Proof.
  unfold Tb.wr_body, side_next, wr_m_side, Tb.Data_shl, wr_sor. cbv zeta. simpl.
  repeat match goal with |- context [if ?c then _ else _] => destruct c end;
    simpl; rewrite ?map_app, ?trunc_0; reflexivity.
Qed.

Lemma wr_body_s_side p mid req w :
  wr_s_side (Tb.wr_body p mid req w) =
  side_next (Tb.DATA_WIDTH p) (wr_sor p) (Tb.WR_S_LANES p)
    (Z.shiftl 1 (Tb.wr_s_size p (u8 (Tb.ap_size req)))) (Tb.wr_s_init_ptr p req)
    (Tb.ap_burst req =? Tb.FIXED) (Tb.bytes_total req)
    (Z.land (Tb.byte_to_write mid (Tb.bytes_total req) (Tb.ww_count w)) 255)
    (u64 (Tb.ww_count w + 1)) (wr_s_side w).
Proof.
  unfold Tb.wr_body, side_next, wr_s_side, Tb.Data_shl, wr_sor. cbv zeta. simpl.
  repeat match goal with |- context [if ?c then _ else _] => destruct c end;
    simpl; rewrite ?map_app, ?trunc_0; reflexivity.
Qed.

Lemma wr_body_count p mid req w :
  Tb.ww_count (Tb.wr_body p mid req w) = u64 (Tb.ww_count w + 1).
Proof. reflexivity. Qed.

Lemma byte_to_write_value mid total k :
  0 < total < 2 ^ 64 -> 0 <= k < total ->
  Z.land (Tb.byte_to_write mid total k) 255 = wr_byte mid total k.
Proof.
  intros Ht Hk. unfold Tb.byte_to_write, wr_byte, u32, u64.
  rewrite land_255. change 256 with (2 ^ 8).
  rewrite (trunc_small 64 (total - 1)) by lia.
  fold (trunc 8 (trunc 32 (if k =? total - 1 then trunc 64 mid else k))).
  rewrite trunc_trunc by lia.
  destruct (k =? total - 1).
  - rewrite trunc_trunc by lia. reflexivity.
  - reflexivity.
Qed.

Section WriteWalk.
Variable p : Tb.Params.
Variable mid : Z.
Variable req : Tb.AddrPayload.
Let n := Tb.WSTRB_WIDTH p.
Let m_lanes := Tb.WR_M_LANES p.
Let s_lanes := Tb.WR_S_LANES p.
Let m2 := Z.shiftl 1 (u8 (Tb.ap_size req)).
Let s2 := Z.shiftl 1 (Tb.wr_s_size p (u8 (Tb.ap_size req))).
Let total := Tb.bytes_total req.
Let bytef := fun k => Z.land (Tb.byte_to_write mid total k) 255.
Let inv_m := SideInv n m_lanes m2 (Tb.wr_m_init_ptr p req)
               (Tb.ap_burst req =? Tb.FIXED) bytef.
Let inv_s := SideInv n s_lanes s2 (Tb.wr_s_init_ptr p req)
               (Tb.ap_burst req =? Tb.FIXED) bytef.

Hypothesis Hm2 : 0 < m2.
Hypothesis Hs2 : 0 < s2.
Hypothesis Hm256 : m_lanes <= 256.
Hypothesis Hs256 : s_lanes <= 256.
Hypothesis Hmn : m_lanes <= n.
Hypothesis Hsn : s_lanes <= n.
Hypothesis Hdw : 8 * n <= Tb.DATA_WIDTH p.
Hypothesis Hmm : m_lanes mod m2 = 0.
Hypothesis Hsm : s_lanes mod s2 = 0.
Hypothesis Htm : total mod m2 = 0.
Hypothesis Hts : total mod s2 = 0.
Hypothesis Ht64 : 0 <= total < 2 ^ 64.

Lemma wr_loop_inv fuel : forall w,
  inv_m (Tb.ww_count w) (wr_m_side w) ->
  inv_s (Tb.ww_count w) (wr_s_side w) ->
  0 <= Tb.ww_count w <= total ->
  total - Tb.ww_count w <= Z.of_nat fuel ->
  Tb.ww_count (Tb.wr_loop p fuel mid req w) = total /\
  inv_m total (wr_m_side (Tb.wr_loop p fuel mid req w)) /\
  inv_s total (wr_s_side (Tb.wr_loop p fuel mid req w)).
Proof.
  induction fuel as [|fuel IH]; intros w Him His Hc Hf.
  - simpl. assert (Tb.ww_count w = total) by lia.
    split; [assumption|]. rewrite <- H. split; assumption.
  - simpl. fold total. destruct (Z.ltb_spec (Tb.ww_count w) total) as [Hlt|Hge].
    + assert (Hu : u64 (Tb.ww_count w + 1) = Tb.ww_count w + 1).
      { apply trunc_small. lia. }
      assert (Hb : 0 <= bytef (Tb.ww_count w) < 256).
      { unfold bytef. rewrite land_255. apply Z.mod_pos_bound. lia. }
      apply IH.
      * rewrite wr_body_count, wr_body_m_side, Hu.
        change (Z.land (Tb.byte_to_write mid (Tb.bytes_total req) (Tb.ww_count w)) 255)
          with (bytef (Tb.ww_count w)).
        apply side_next_inv; try assumption; try lia.
        apply wr_sor_update. exact Hdw.
      * rewrite wr_body_count, wr_body_s_side, Hu.
        change (Z.land (Tb.byte_to_write mid (Tb.bytes_total req) (Tb.ww_count w)) 255)
          with (bytef (Tb.ww_count w)).
        apply side_next_inv; try assumption; try lia.
        apply wr_sor_update. exact Hdw.
      * rewrite wr_body_count, Hu. lia.
      * rewrite wr_body_count, Hu. lia.
    + assert (Tb.ww_count w = total) by lia.
      split; [assumption|]. rewrite <- H. split; assumption.
Qed.

Lemma wr_expected_inv :
  Tb.wr_m_init_ptr p req mod m2 = 0 ->
  0 <= Tb.wr_m_init_ptr p req -> Tb.wr_m_init_ptr p req + m2 <= m_lanes ->
  Tb.wr_s_init_ptr p req mod s2 = 0 ->
  0 <= Tb.wr_s_init_ptr p req -> Tb.wr_s_init_ptr p req + s2 <= s_lanes ->
  0 < total ->
  let w := Tb.wr_expected p mid req in
  (side_bytes n (sd_out (wr_m_side w)) = pattern (wr_byte mid total) total /\
   Z.of_nat (length (Tb.ww_m_out w)) * m2 = total) /\
  (side_bytes n (sd_out (wr_s_side w)) = pattern (wr_byte mid total) total /\
   Z.of_nat (length (Tb.ww_s_out w)) * s2 = total).
Proof.
  intros Hmi Hmi0 Hmil Hsi Hsi0 Hsil Htpos.
  destruct (wr_loop_inv (Z.to_nat total)
    {| Tb.ww_count := 0; Tb.ww_m_ptr := Tb.wr_m_init_ptr p req;
       Tb.ww_s_ptr := Tb.wr_s_init_ptr p req;
       Tb.cur_beat := {| Tb.wp_data := trunc (Tb.DATA_WIDTH p) 0; Tb.wp_last := 0;
                         Tb.wp_wstrb := trunc (Tb.WSTRB_WIDTH p) 0 |};
       Tb.beat_at_slave := {| Tb.wp_data := trunc (Tb.DATA_WIDTH p) 0; Tb.wp_last := 0;
                              Tb.wp_wstrb := trunc (Tb.WSTRB_WIDTH p) 0 |};
       Tb.ww_m_out := []; Tb.ww_s_out := [] |}) as [_ [Hfm Hfs]].
  - unfold wr_m_side. simpl. rewrite !trunc_0. apply SideInv_start; assumption.
  - unfold wr_s_side. simpl. rewrite !trunc_0. apply SideInv_start; assumption.
  - simpl. lia.
  - simpl. lia.
  - assert (Hpat : pattern bytef total = pattern (wr_byte mid total) total).
    { apply pattern_ext. intros k Hk. apply byte_to_write_value; lia. }
    destruct (SideInv_done _ _ _ _ _ _ _ _ Hm2 (proj1 Ht64) Htm Hfm) as (Hb1 & Hl1 & _).
    destruct (SideInv_done _ _ _ _ _ _ _ _ Hs2 (proj1 Ht64) Hts Hfs) as (Hb2 & Hl2 & _).
    cbv zeta. fold (Tb.wr_expected p mid req) in *.
    rewrite Hpat in Hb1, Hb2.
    simpl in Hl1, Hl2. rewrite length_map in Hl1, Hl2.
    split; split; assumption.
Qed.

End WriteWalk.

(** * The generated requests *)

Lemma pow2_divide a b : 0 <= a <= b -> (2 ^ a | 2 ^ b).
Proof.
  intros H. exists (2 ^ (b - a)). rewrite <- Z.pow_add_r by lia. f_equal. lia.
Qed.

Lemma pow2_mod a b : 0 <= a <= b -> 2 ^ b mod 2 ^ a = 0.
Proof.
  intros H. apply Z.mod_divide; [|apply pow2_divide; exact H].
  apply Z.pow_nonzero; lia.
Qed.

Lemma aligned_fits x s2 lanes :
  0 < s2 -> x mod s2 = 0 -> lanes mod s2 = 0 -> 0 <= x < lanes -> x + s2 <= lanes.
Proof.
  intros Hs Hx Hl Hr.
  apply Z.mod_divide in Hx; [|lia]. destruct Hx as [a Ha].
  apply Z.mod_divide in Hl; [|lia]. destruct Hl as [b Hb].
  subst x lanes.
  assert (Hab : a < b) by (apply Z.mul_lt_mono_pos_r with s2; lia).
  replace (a * s2 + s2) with ((a + 1) * s2) by lia.
  apply Z.mul_le_mono_nonneg_r; lia.
Qed.

Lemma lanes_ok_spec m s :
  lanes_ok m s = true ->
  m = 2 ^ Tb.my_log2c m /\ 1 <= Tb.my_log2c m <= 7 /\
  s = 2 ^ Tb.my_log2c s /\ 0 <= Tb.my_log2c s <= 7 /\ m <= 4 * s.
Proof.
  unfold lanes_ok. rewrite !andb_true_iff, !Z.eqb_eq, !Z.leb_le.
  pose proof (Z.log2_up_nonneg s). unfold Tb.my_log2c in *. tauto.
Qed.

Lemma widths_ok_spec p m :
  widths_ok p m = true ->
  Tb.my_log2c m < 2 ^ Tb.ASIZE_WIDTH p /\ Tb.my_log2c m <= Tb.ADDR_WIDTH p /\
  4 <= Tb.ALEN_WIDTH p <= 32 /\ 8 * m <= Tb.DATA_WIDTH p.
Proof.
  unfold widths_ok. rewrite !andb_true_iff, !Z.leb_le, Z.ltb_lt. tauto.
Qed.

Lemma gen_req_size p m s g d :
  1 <= Tb.my_log2c m -> Tb.my_log2c m < 2 ^ Tb.ASIZE_WIDTH p ->
  1 <= Tb.ap_size (Tb.gen_req p m s g d) <= Tb.my_log2c m.
Proof.
  intros HL HA. unfold Tb.gen_req. simpl.
  set (L := Tb.my_log2c m) in *.
  assert (Hr : 0 <= Tb.d_size d mod L < L) by (apply Z.mod_pos_bound; lia).
  assert (HLp : L < 2 ^ L) by (apply pow2_lt_self; lia).
  rewrite shiftl_1 by lia.
  replace (2 ^ L - 1) with (Z.ones L) by (rewrite Z.ones_equiv; lia).
  rewrite Z.land_ones by lia.
  rewrite (Z.mod_small (Tb.d_size d mod L + 1)) by lia.
  rewrite trunc_small by lia. lia.
Qed.

Lemma gen_len_small m s burst r :
  lanes_ok m s = true -> 0 <= Tb.gen_len m s burst r <= 3.
Proof.
  intros Hok. apply lanes_ok_spec in Hok.
  destruct Hok as (Hm & HL & Hs & HLS & Hms).
  assert (Hspos : 0 < s) by (rewrite Hs; apply Z.pow_pos_nonneg; lia).
  unfold Tb.gen_len.
  change (Tb.my_log2c (Tb.AXI4_MAX_LEN + 1)) with 3.
  change Tb.AXI4_MAX_LEN with 4. change Tb.AXI4_MAX_INCR_LEN with 4.
  destruct (burst =? Tb.WRAP).
  - assert (Hr : 0 <= r mod 3 < 3) by (apply Z.mod_pos_bound; lia).
    rewrite shiftl_1 by lia.
    assert (Hc : r mod 3 = 0 \/ r mod 3 = 1 \/ r mod 3 = 2) by lia.
    destruct Hc as [-> | [-> | ->]]; simpl; lia.
  - destruct (burst =? Tb.FIXED).
    + pose proof (Z.mod_pos_bound r 4). lia.
    + destruct (Z.ltb_spec s m).
      * assert (Hq1 : 1 <= m / s) by (apply Z.div_le_lower_bound; lia).
        assert (Hq4 : m / s <= 4) by (apply Z.div_le_upper_bound; lia).
        assert (Hd1 : 1 <= 4 / (m / s)) by (apply Z.div_le_lower_bound; lia).
        assert (Hd4 : 4 / (m / s) <= 4) by (apply Z.div_le_upper_bound; nia).
        pose proof (Z.mod_pos_bound r (4 / (m / s))). lia.
      * pose proof (Z.mod_pos_bound r 4). lia.
Qed.

Lemma gen_req_len p m s g d :
  lanes_ok m s = true -> 2 <= Tb.ALEN_WIDTH p ->
  0 <= Tb.ap_len (Tb.gen_req p m s g d) <= 3.
Proof.
  intros Hok HA. unfold Tb.gen_req. simpl.
  pose proof (gen_len_small m s
    (trunc (Tb.BURST_WIDTH p) (Tb.d_burst d mod Tb.AXI_BURST_NUM)) (Tb.d_len d) Hok) as Hl.
  assert (4 <= 2 ^ Tb.ALEN_WIDTH p).
  { change 4 with (2 ^ 2). apply Z.pow_le_mono_r; lia. }
  rewrite trunc_small by lia. exact Hl.
Qed.

Lemma gen_req_addr p m s g d :
  m = 2 ^ Tb.my_log2c m -> 0 <= Tb.my_log2c m <= 16 ->
  Tb.my_log2c m <= Tb.ADDR_WIDTH p ->
  g mod m = 0 ->
  Tb.ap_addr (Tb.gen_req p m s g d) mod m = 0.
Proof.
  intros Hm HL HA Hg. unfold Tb.gen_req. simpl. unfold trunc.
  set (L := Tb.my_log2c m) in *.
  assert (Hmpos : 0 < m) by (rewrite Hm; apply Z.pow_pos_nonneg; lia).
  rewrite Z.mod_mod_divide by (rewrite Hm; apply pow2_divide; lia).
  destruct (negb (Tb.d_sel d mod 2 =? 0)); [exact Hg|].
  unfold u32, trunc.
  rewrite Z.mod_mod_divide by (rewrite Hm; apply pow2_divide; lia).
  apply Z.mod_divide; [lia|]. apply Z.divide_add_r.
  - apply Z.mod_divide; [lia | exact Hg].
  - change 65536 with (2 ^ 16). rewrite Hm. apply pow2_divide. lia.
Qed.

Lemma bytes_total_value req :
  0 <= Tb.ap_len req < 2 ^ 32 -> 0 <= Tb.ap_size req <= 7 ->
  Tb.bytes_total req = (Tb.ap_len req + 1) * 2 ^ Tb.ap_size req /\
  0 < Tb.bytes_total req < 2 ^ 64.
Proof.
  intros Hl Hs. unfold Tb.bytes_total, u64.
  rewrite Z.shiftl_mul_pow2 by lia.
  assert (Hp : 0 < 2 ^ Tb.ap_size req <= 2 ^ 7).
  { split; [apply Z.pow_pos_nonneg; lia | apply Z.pow_le_mono_r; lia]. }
  assert (Hb : 0 < (Tb.ap_len req + 1) * 2 ^ Tb.ap_size req < 2 ^ 64).
  { change (2 ^ 64) with (2 ^ 33 * 2 ^ 31). change (2 ^ 7) with 128 in Hp. nia. }
  rewrite trunc_small by lia. split; [reflexivity | exact Hb].
Qed.

(** * States of the master *)

Lemma gen_new_rd_trans_fields p m sb d :
  let m' := fst (state_of (Tb.gen_new_rd_trans p m sb d)) in
  Tb.gen_rd_addr m' = u32 (Tb.gen_rd_addr m + Tb.RD_M_LANES p) /\
  Tb.gen_wr_addr m' = Tb.gen_wr_addr m /\
  Tb.MASTER_ID m' = Tb.MASTER_ID m /\
  Tb.stored_rd_trans m' = Tb.stored_rd_trans m ++ [Tb.rd_req p m d].
Proof.
  unfold Tb.gen_new_rd_trans. cbv zeta.
  destruct (Tb.mem_map_resolve p _); simpl; auto.
Qed.

Lemma gen_new_wr_trans_fields p m sb d :
  let m' := fst (state_of (Tb.gen_new_wr_trans p m sb d)) in
  Tb.gen_wr_addr m' = u32 (Tb.gen_wr_addr m + Tb.WR_M_LANES p) /\
  Tb.gen_rd_addr m' = Tb.gen_rd_addr m /\
  Tb.MASTER_ID m' = Tb.MASTER_ID m /\
  Tb.stored_wr_trans m' = Tb.stored_wr_trans m ++ [Tb.wr_req p m d].
Proof.
  unfold Tb.gen_new_wr_trans. cbv zeta.
  destruct (Tb.mem_map_resolve p _); simpl; auto.
Qed.

Lemma verify_rd_resp_fields p m sb rcv :
  let m' := fst (state_of (Tb.verify_rd_resp p m sb rcv)) in
  Tb.gen_rd_addr m' = Tb.gen_rd_addr m /\ Tb.gen_wr_addr m' = Tb.gen_wr_addr m.
Proof.
  unfold Tb.verify_rd_resp. cbv zeta.
  destruct (Tb.rd_reorder_check p _ _); [simpl; auto|].
  destruct (Tb.content_check _ _ _ _) as [[j e]|]; [|simpl; auto].
  destruct (negb (status =? 2) && negb (status =? 1)); simpl; auto.
Qed.

Lemma verify_wr_resp_fields p m sb rcv :
  let m' := fst (state_of (Tb.verify_wr_resp p m sb rcv)) in
  Tb.gen_rd_addr m' = Tb.gen_rd_addr m /\ Tb.gen_wr_addr m' = Tb.gen_wr_addr m.
Proof.
  unfold Tb.verify_wr_resp. cbv zeta.
  destruct (Tb.wr_reorder_check p _ _); [simpl; auto|].
  destruct (Tb.content_check _ _ _ _) as [[j e]|]; [|simpl; auto].
  destruct (negb (status =? 2) && negb (status =? 1)); simpl; auto.
Qed.

Lemma step_mod_u32 g m :
  m = 2 ^ Tb.my_log2c m -> 0 <= Tb.my_log2c m <= 32 ->
  g mod m = 0 -> u32 (g + m) mod m = 0.
Proof.
  intros Hm HL Hg. unfold u32, trunc.
  assert (Hmpos : 0 < m) by (rewrite Hm; apply Z.pow_pos_nonneg; lia).
  rewrite Z.mod_mod_divide by (rewrite Hm; apply pow2_divide; lia).
  replace (g + m) with (g + 1 * m) by lia. rewrite Z.mod_add by lia. exact Hg.
Qed.

Lemma reachable_gen_addr p m :
  Tb.reachable p m ->
  (Tb.RD_M_LANES p = 2 ^ Tb.my_log2c (Tb.RD_M_LANES p) ->
   0 <= Tb.my_log2c (Tb.RD_M_LANES p) <= 32 ->
   Tb.gen_rd_addr m mod Tb.RD_M_LANES p = 0) /\
  (Tb.WR_M_LANES p = 2 ^ Tb.my_log2c (Tb.WR_M_LANES p) ->
   0 <= Tb.my_log2c (Tb.WR_M_LANES p) <= 32 ->
   Tb.gen_wr_addr m mod Tb.WR_M_LANES p = 0).
Proof.
  induction 1 as [mid | m ar aw w Hr IH
                  | m sb d m' sb' Hr IH Hd Hg | m sb d m' sb' Hr IH Hd Hg
                  | m sb rcv m' sb' Hr IH Hv | m sb rcv m' sb' Hr IH Hv].
  - simpl. split; intros; apply Zmod_0_l.
  - exact IH.
  - pose proof (gen_new_rd_trans_fields p m sb d) as Hf. rewrite Hg in Hf.
    simpl in Hf. destruct Hf as (H1 & H2 & _). rewrite H1, H2.
    destruct IH as [IH1 IH2]. split; [|exact IH2].
    intros Hm HL. apply step_mod_u32; auto.
  - pose proof (gen_new_wr_trans_fields p m sb d) as Hf. rewrite Hg in Hf.
    simpl in Hf. destruct Hf as (H1 & H2 & _). rewrite H1, H2.
    destruct IH as [IH1 IH2]. split; [exact IH1|].
    intros Hm HL. apply step_mod_u32; auto.
  - pose proof (verify_rd_resp_fields p m sb rcv) as Hf. rewrite Hv in Hf.
    simpl in Hf. destruct Hf as (H1 & H2). rewrite H1, H2. exact IH.
  - pose proof (verify_wr_resp_fields p m sb rcv) as Hf. rewrite Hv in Hf.
    simpl in Hf. destruct Hf as (H1 & H2). rewrite H1, H2. exact IH.
Qed.

(** * The predicted beats of legal requests *)

Lemma rd_expected_legal p req dst :
  Tb.RD_M_LANES p = 2 ^ Tb.my_log2c (Tb.RD_M_LANES p) ->
  Tb.my_log2c (Tb.RD_M_LANES p) <= 7 ->
  8 * Tb.RD_M_LANES p <= Tb.DATA_WIDTH p ->
  0 <= Tb.ap_size req <= Tb.my_log2c (Tb.RD_M_LANES p) ->
  0 <= Tb.ap_len req < 2 ^ 32 ->
  Tb.ap_addr req mod Tb.RD_M_LANES p = 0 ->
  Tb.rd_bytes p (Tb.rw_out (Tb.rd_expected p req dst)) =
    pattern rd_byte ((Tb.ap_len req + 1) * 2 ^ Tb.ap_size req) /\
  Z.of_nat (length (Tb.rw_out (Tb.rd_expected p req dst))) = Tb.ap_len req + 1 /\
  (forall i j, 0 <= i <= Tb.ap_len req -> 0 <= j < 2 ^ Tb.ap_size req ->
     get_byte (Tb.rp_data (rd_beat (Tb.rw_out (Tb.rd_expected p req dst)) i))
       (rd_lane p req i + j) = (i * 2 ^ Tb.ap_size req + j) mod 256).
Proof.
  intros Hm HL Hdw Hsz Hlen Haddr.
  set (L := Tb.my_log2c (Tb.RD_M_LANES p)) in *.
  destruct (bytes_total_value req Hlen) as [Htot Htr]; [lia|].
  assert (Hu8 : u8 (Tb.ap_size req) = Tb.ap_size req).
  { apply trunc_small. lia. }
  assert (Hsh : Z.shiftl 1 (u8 (Tb.ap_size req)) = 2 ^ Tb.ap_size req).
  { rewrite Hu8. apply shiftl_1. lia. }
  assert (Hs2 : 0 < 2 ^ Tb.ap_size req) by (apply Z.pow_pos_nonneg; lia).
  assert (H128 : Tb.RD_M_LANES p <= 128).
  { rewrite Hm. change 128 with (2 ^ 7). apply Z.pow_le_mono_r; lia. }
  assert (Hinit : Tb.rd_init_ptr p req = 0).
  { unfold Tb.rd_init_ptr. rewrite Haddr. apply trunc_0. }
  assert (Hlm : Tb.RD_M_LANES p mod 2 ^ Tb.ap_size req = 0).
  { rewrite Hm. apply pow2_mod. lia. }
  destruct (rd_expected_inv p req dst) as (Hb & Hn & Hbeats).
  - rewrite Hsh. exact Hs2.
  - lia.
  - exact Hdw.
  - rewrite Hsh. exact Hlm.
  - rewrite Hsh, Htot. apply Z.mod_mul. lia.
  - lia.
  - rewrite Hinit. apply Zmod_0_l.
  - rewrite Hinit. lia.
  - rewrite Hinit, Hsh.
    assert (0 < Tb.RD_M_LANES p).
    { rewrite Hm. apply Z.pow_pos_nonneg; lia. }
    apply aligned_fits; try assumption; try lia. apply Zmod_0_l.
  - rewrite Htot in Hb, Hn. rewrite Hsh in Hn.
    assert (Hcount : Z.of_nat (length (Tb.rw_out (Tb.rd_expected p req dst))) =
                     Tb.ap_len req + 1) by nia.
    split; [|split; [exact Hcount|]].
    + rewrite <- Hb. unfold Tb.rd_bytes, side_bytes, rd_side. simpl.
      rewrite map_map. reflexivity.
    + intros i j Hi Hj.
      assert (Hbase : side_base (Tb.RD_M_LANES p) (Z.shiftl 1 (u8 (Tb.ap_size req)))
                        (Tb.rd_init_ptr p req) (Tb.ap_burst req =? Tb.FIXED) i =
                      rd_lane p req i).
      { unfold side_base, rd_lane. rewrite Hinit, Hsh. reflexivity. }
      assert (Hwin : 0 <= rd_lane p req i /\
                     rd_lane p req i + 2 ^ Tb.ap_size req <= Tb.RD_M_LANES p).
      { assert (0 < Tb.RD_M_LANES p).
        { rewrite Hm. apply Z.pow_pos_nonneg; lia. }
        unfold rd_lane. destruct (Tb.ap_burst req =? Tb.FIXED).
        - split; [lia|]. apply aligned_fits; try assumption; try lia. apply Zmod_0_l.
        - pose proof (Z.mod_pos_bound (i * 2 ^ Tb.ap_size req) (Tb.RD_M_LANES p)).
          split; [lia|]. apply aligned_fits; try assumption; try lia.
          rewrite Z.mod_mod_divide.
          + apply Z.mod_mul. lia.
          + rewrite Hm. apply pow2_divide. lia. }
      assert (Ho := Hbeats i). unfold Open in Ho.
      destruct (Ho ltac:(lia) (rd_lane p req i + j)) as [_ Hg]; [lia|].
      rewrite Hg, Hbase, Hsh. unfold in_window.
      replace (rd_lane p req i <=? rd_lane p req i + j) with true
        by (symmetry; apply Z.leb_le; lia).
      replace (rd_lane p req i + j <? rd_lane p req i + 2 ^ Tb.ap_size req) with true
        by (symmetry; apply Z.ltb_lt; lia).
      simpl. unfold rd_byte. f_equal. lia.
Qed.

Lemma wr_s_size_bounds p size :
  Tb.WR_S_LANES p = 2 ^ Tb.my_log2c (Tb.WR_S_LANES p) ->
  Tb.my_log2c (Tb.WR_S_LANES p) <= 7 ->
  0 <= size <= 7 ->
  0 <= Tb.wr_s_size p size <= size /\
  Tb.wr_s_size p size <= Tb.my_log2c (Tb.WR_S_LANES p) /\
  Tb.wr_s_size p size =
    (if Tb.WR_S_LANES p <? 2 ^ size then Tb.my_log2c (Tb.WR_S_LANES p) else size).
Proof.
  intros Hs HLS Hsz. unfold Tb.wr_s_size.
  pose proof (Z.log2_up_nonneg (Tb.WR_S_LANES p)) as H0.
  fold (Tb.my_log2c (Tb.WR_S_LANES p)) in H0.
  set (LS := Tb.my_log2c (Tb.WR_S_LANES p)) in *.
  rewrite shiftl_1 by lia.
  destruct (Z.ltb_spec (Tb.WR_S_LANES p) (2 ^ size)) as [Hlt|Hge].
  - rewrite Hs in Hlt. apply Z.pow_lt_mono_r_iff in Hlt; [|lia|lia].
    unfold u8. rewrite trunc_small by lia. lia.
  - rewrite Hs in Hge. apply Z.pow_le_mono_r_iff in Hge; [|lia|lia].
    unfold u8. rewrite trunc_small by lia. lia.
Qed.

Lemma wr_expected_legal p mid req :
  wr_params_ok p = true ->
  0 <= Tb.ap_size req <= Tb.my_log2c (Tb.WR_M_LANES p) ->
  0 <= Tb.ap_len req < 2 ^ 32 ->
  Tb.ap_addr req mod Tb.WR_M_LANES p = 0 ->
  let total := (Tb.ap_len req + 1) * 2 ^ Tb.ap_size req in
  let w := Tb.wr_expected p mid req in
  Tb.wr_bytes p (Tb.ww_m_out w) = pattern (wr_byte mid total) total /\
  Tb.wr_bytes p (Tb.ww_s_out w) = pattern (wr_byte mid total) total /\
  Z.of_nat (length (Tb.ww_m_out w)) = Tb.ap_len req + 1.
Proof.
  intros Hok Hsz Hlen Haddr.
  unfold wr_params_ok in Hok. rewrite !andb_true_iff, !Z.leb_le in Hok.
  destruct Hok as ((((Hlanes & Hwidths) & Hmn) & Hsn) & Hdw).
  apply lanes_ok_spec in Hlanes. destruct Hlanes as (Hm & HL & Hs & HLS & Hms).
  set (L := Tb.my_log2c (Tb.WR_M_LANES p)) in *.
  set (LS := Tb.my_log2c (Tb.WR_S_LANES p)) in *.
  destruct (bytes_total_value req Hlen) as [Htot Htr]; [lia|].
  assert (Hu8 : u8 (Tb.ap_size req) = Tb.ap_size req).
  { apply trunc_small. lia. }
  assert (Hsh : Z.shiftl 1 (u8 (Tb.ap_size req)) = 2 ^ Tb.ap_size req).
  { rewrite Hu8. apply shiftl_1. lia. }
  destruct (wr_s_size_bounds p (Tb.ap_size req) Hs) as (Hss & HssL & _); [lia|lia|].
  set (ssz := Tb.wr_s_size p (Tb.ap_size req)) in *.
  assert (Hshs : Z.shiftl 1 (Tb.wr_s_size p (u8 (Tb.ap_size req))) = 2 ^ ssz).
  { rewrite Hu8. apply shiftl_1. lia. }
  assert (Hm2 : 0 < 2 ^ Tb.ap_size req) by (apply Z.pow_pos_nonneg; lia).
  assert (Hs2 : 0 < 2 ^ ssz) by (apply Z.pow_pos_nonneg; lia).
  assert (Hm128 : 0 < Tb.WR_M_LANES p <= 128).
  { rewrite Hm. split; [apply Z.pow_pos_nonneg; lia|].
    change 128 with (2 ^ 7). apply Z.pow_le_mono_r; lia. }
  assert (Hs128 : 0 < Tb.WR_S_LANES p <= 128).
  { rewrite Hs. split; [apply Z.pow_pos_nonneg; lia|].
    change 128 with (2 ^ 7). apply Z.pow_le_mono_r; lia. }
  assert (Hminit : Tb.wr_m_init_ptr p req = 0).
  { unfold Tb.wr_m_init_ptr. rewrite Haddr. apply trunc_0. }
  assert (Hsr : 0 <= Tb.ap_addr req mod Tb.WR_S_LANES p < Tb.WR_S_LANES p).
  { apply Z.mod_pos_bound. lia. }
  assert (Hsinit : Tb.wr_s_init_ptr p req = Tb.ap_addr req mod Tb.WR_S_LANES p).
  { unfold Tb.wr_s_init_ptr. apply trunc_small. lia. }
  assert (Hsal : Tb.wr_s_init_ptr p req mod 2 ^ ssz = 0).
  { rewrite Hsinit.
    rewrite Z.mod_mod_divide by (rewrite Hs; apply pow2_divide; lia).
    apply Z.mod_divide; [lia|].
    apply Z.divide_trans with (Tb.WR_M_LANES p).
    - rewrite Hm. apply pow2_divide. lia.
    - apply Z.mod_divide; [lia | exact Haddr]. }
  assert (Hslm : Tb.WR_S_LANES p mod 2 ^ ssz = 0).
  { rewrite Hs. apply pow2_mod. lia. }
  destruct (wr_expected_inv p mid req) as [[Hb1 Hn1] [Hb2 Hn2]].
  - rewrite Hsh. exact Hm2.
  - rewrite Hshs. exact Hs2.
  - lia.
  - lia.
  - exact Hmn.
  - exact Hsn.
  - exact Hdw.
  - rewrite Hsh, Hm. apply pow2_mod. lia.
  - rewrite Hshs. exact Hslm.
  - rewrite Hsh, Htot. apply Z.mod_mul. lia.
  - rewrite Hshs, Htot.
    replace (2 ^ Tb.ap_size req) with (2 ^ (Tb.ap_size req - ssz) * 2 ^ ssz)
      by (rewrite <- Z.pow_add_r by lia; f_equal; lia).
    rewrite Z.mul_assoc. apply Z.mod_mul. lia.
  - lia.
  - rewrite Hminit. apply Zmod_0_l.
  - rewrite Hminit. lia.
  - rewrite Hminit, Hsh.
    apply aligned_fits; try lia; [apply Zmod_0_l | rewrite Hm; apply pow2_mod; lia].
  - rewrite Hshs. exact Hsal.
  - rewrite Hsinit. lia.
  - rewrite Hshs. apply aligned_fits; try assumption. rewrite Hsinit. lia.
  - lia.
  - cbv zeta. rewrite Htot in Hb1, Hb2, Hn1. rewrite Hsh in Hn1.
    split; [|split].
    + rewrite <- Hb1. unfold Tb.wr_bytes, side_bytes, wr_m_side. simpl.
      rewrite map_map. reflexivity.
    + rewrite <- Hb2. unfold Tb.wr_bytes, side_bytes, wr_s_side. simpl.
      rewrite map_map. reflexivity.
    + nia.
Qed.

(** * The clocked thread stays within the reachable states *)

Lemma cycle_inject_core a i :
  Tb.core (fst (Tb.cycle_inject a i)) =
  Tb.inject_queues (Tb.core a) (Tb.ar_ready i) (Tb.aw_ready i) (Tb.w_ready i).
Proof. reflexivity. Qed.

Lemma do_cycle_body_reachable p a sb i a' sb' out :
  Tb.do_cycle_body p a sb i = Ok (a', sb', out) ->
  Tb.rand_ok (Tb.draws_rd i) -> Tb.rand_ok (Tb.draws_wr i) ->
  Tb.reachable p (Tb.core a) -> Tb.reachable p (Tb.core a').
Proof.
  unfold Tb.do_cycle_body. intros H Hdr Hdw R0.
  destruct (Tb.cycle_gen p a sb i) as [[m1 sb1]|[m1 sb1]] eqn:Hg; [|discriminate H].
  assert (R1 : Tb.reachable p m1).
  { unfold Tb.cycle_gen in Hg. destruct (negb (Tb.stop_gen i)).
    - destruct (if u32 (Tb.rnd_rd i mod 100) <? Tb.GEN_RATE_RD a
                then Tb.gen_new_rd_trans p (Tb.core a) sb (Tb.draws_rd i)
                else Ok (Tb.core a, sb)) as [[m0 sb0]|s] eqn:Hr; [|discriminate Hg].
      assert (Rr : Tb.reachable p m0).
      { destruct (u32 (Tb.rnd_rd i mod 100) <? Tb.GEN_RATE_RD a).
        - exact (Tb.reach_gen_rd p _ _ _ _ _ R0 Hdr Hr).
        - injection Hr as <- _. exact R0. }
      destruct (u32 (Tb.rnd_wr i mod 100) <? Tb.GEN_RATE_WR a).
      + exact (Tb.reach_gen_wr p _ _ _ _ _ Rr Hdw Hg).
      + injection Hg as <- _. exact Rr.
    - injection Hg as <- _. exact R0. }
  pose proof (cycle_inject_core (Tb.set_core a m1) i) as Hc.
  destruct (Tb.cycle_inject (Tb.set_core a m1) i) as [a1 out1].
  cbn [fst Tb.core Tb.set_core] in Hc.
  assert (R2 : Tb.reachable p (Tb.core a1)).
  { rewrite Hc. apply Tb.reach_inject. exact R1. }
  destruct (Tb.cycle_eject p (Tb.core a1) sb1 i) as [[m2 sb2]|[m2 sb2]] eqn:He;
    [|discriminate H].
  injection H as <- _ _. cbn [Tb.core Tb.set_core].
  unfold Tb.cycle_eject in He.
  destruct (match Tb.r_msg i with
            | Some rcv => Tb.verify_rd_resp p (Tb.core a1) sb1 rcv
            | None => Ok (Tb.core a1, sb1)
            end) as [[m3 sb3]|s] eqn:Hr; [|discriminate He].
  assert (R3 : Tb.reachable p m3).
  { destruct (Tb.r_msg i) as [rcv|].
    - exact (Tb.reach_verify_rd p _ _ _ _ _ R2 Hr).
    - injection Hr as <- _. exact R2. }
  destruct (Tb.b_msg i) as [rcv|].
  - exact (Tb.reach_verify_wr p _ _ _ _ _ R3 He).
  - injection He as <- _. exact R3.
Qed.

Lemma do_cycle_loop_reachable p : forall cycles a a' outs,
  Tb.do_cycle_loop p a cycles = Ok (a', outs) ->
  Forall (fun c => Tb.rand_ok (Tb.draws_rd (snd c)) /\ Tb.rand_ok (Tb.draws_wr (snd c)))
    cycles ->
  Tb.reachable p (Tb.core a) -> Tb.reachable p (Tb.core a').
Proof.
  induction cycles as [|[sb i] cycles IH]; intros a a' outs H Hd R.
  - simpl in H. injection H as <- _. exact R.
  - cbn [Tb.do_cycle_loop] in H.
    destruct (Tb.do_cycle_body p a sb i) as [[[a1 sb1] out]|[[a1 sb1] out]] eqn:Hb;
      [|discriminate].
    destruct (Tb.do_cycle_loop p a1 cycles) as [[a2 outs2]|[a2 outs2]] eqn:Hl;
      [|discriminate].
    injection H as <- _.
    inversion Hd as [|c cs [Hr Hw] Hrest]. subst c cs. cbn [snd] in Hr, Hw.
    apply (IH a1 a2 outs2 Hl Hrest).
    exact (do_cycle_body_reachable p _ _ _ _ _ _ Hb Hr Hw R).
Qed.

(** Every state the clocked thread of a freshly constructed module passes
    through, after any number of cycles, is a reachable state of the
    master. *)
Lemma do_cycle_reachable p a0 cycles a outs master_id :
  Tb.core a0 = Tb.master_new master_id ->
  Tb.do_cycle p a0 cycles = Ok (a, outs) ->
  Forall (fun c => Tb.rand_ok (Tb.draws_rd (snd c)) /\ Tb.rand_ok (Tb.draws_wr (snd c)))
    cycles ->
  Tb.reachable p (Tb.core a).
Proof.
  intros Hnew H Hd. unfold Tb.do_cycle in H.
  apply (do_cycle_loop_reachable p _ _ _ _ H Hd).
  cbn [Tb.do_cycle_init Tb.core]. rewrite Hnew. apply Tb.reach_reset.
Qed.

Lemma m_injected_reachable : Tb.reachable p42 m_injected.
Proof.
  change m_injected with
    (Tb.core (fst (state_of
       (Tb.do_cycle p42 a_new [(sb_empty, cyc_gen); (sb_empty, cyc_idle)])))).
  destruct (Tb.do_cycle p42 a_new [(sb_empty, cyc_gen); (sb_empty, cyc_idle)])
    as [[a outs]|[a outs]] eqn:H.
  - cbn [state_of fst].
    apply (do_cycle_reachable p42 a_new _ a outs 1 eq_refl H).
    repeat constructor; simpl; lia.
  - vm_compute in H. discriminate H.
Qed.

(** * The claims on the generators and the predictor *)

(** C1: for every read transaction that [gen_new_rd_trans] produces (from
    any reachable state of the master, with any draws, under legal
    parameters, once its address resolves to a destination), the call runs
    to its end and pushes the predicted beats to the response queue of the
    master; the bytes the beats carry, concatenated in generation order, are
    [k mod 256] at every offset [k] below [(len + 1) * 2 ^ size], FIXED
    bursts included; there are [len + 1] beats, and byte [j] of beat [i]
    sits in the data word on lane [j] of the window of the beat: the window
    at lane 0 for a FIXED burst, the window at [i * 2 ^ size] modulo the
    lane count otherwise. *)
Theorem rd_predicted_bytes p m sb d dst :
  rd_params_ok p = true -> Tb.reachable p m -> Tb.rand_ok d ->
  Tb.mem_map_resolve p (Tb.ap_addr (Tb.rd_req p m d)) = Some dst ->
  let req := Tb.rd_req p m d in
  let w := Tb.rd_expected p req dst in
  (exists m' sb',
     Tb.gen_new_rd_trans p m sb d = Ok (m', sb') /\
     Tb.sb_rd_resp_q sb' =
       upd_at (Z.to_nat (Tb.MASTER_ID m)) (fun q => q ++ map fst (Tb.rw_out w))
         (Tb.sb_rd_resp_q sb)) /\
  Tb.rd_bytes p (Tb.rw_out w) =
    pattern (fun k => k mod 256) ((Tb.ap_len req + 1) * 2 ^ Tb.ap_size req) /\
  Z.of_nat (length (Tb.rw_out w)) = Tb.ap_len req + 1 /\
  (forall i j, 0 <= i <= Tb.ap_len req -> 0 <= j < 2 ^ Tb.ap_size req ->
     get_byte (Tb.rp_data (rd_beat (Tb.rw_out w) i)) (rd_lane p req i + j) =
     (i * 2 ^ Tb.ap_size req + j) mod 256).
Proof.
  intros Hok Hreach Hd Hres. cbv zeta.
  unfold rd_params_ok in Hok. apply andb_true_iff in Hok. destruct Hok as [Hlanes Hwidths].
  pose proof Hlanes as Hlanes'.
  apply lanes_ok_spec in Hlanes. destruct Hlanes as (Hm & HL & Hs & HLS & Hms).
  apply widths_ok_spec in Hwidths. destruct Hwidths as (HA & HAd & HAl & Hdw).
  split.
  - unfold Tb.gen_new_rd_trans. cbv zeta.
    change (Tb.ap_addr (Tb.rd_req_s p (Tb.rd_req p m d)))
      with (Tb.ap_addr (Tb.rd_req p m d)).
    rewrite Hres. eexists. eexists. split; reflexivity.
  - apply rd_expected_legal; try assumption; try lia.
    + pose proof (gen_req_size p (Tb.RD_M_LANES p) (Tb.RD_S_LANES p)
                    (Tb.gen_rd_addr m) d) as Hsz.
      unfold Tb.rd_req. lia.
    + pose proof (gen_req_len p (Tb.RD_M_LANES p) (Tb.RD_S_LANES p)
                    (Tb.gen_rd_addr m) d Hlanes') as Hl.
      unfold Tb.rd_req. lia.
    + apply gen_req_addr; try assumption; try lia.
      apply (proj1 (reachable_gen_addr p m Hreach)); [assumption | lia].
Qed.

Lemma rd_predicted_bytes_witness :
  let req := Tb.rd_req p42 m_injected d_narrow in
  let w := Tb.rd_expected p42 req 0 in
  (exists m' sb',
     Tb.gen_new_rd_trans p42 m_injected sb_empty d_narrow = Ok (m', sb') /\
     Tb.sb_rd_resp_q sb' =
       upd_at (Z.to_nat (Tb.MASTER_ID m_injected)) (fun q => q ++ map fst (Tb.rw_out w))
         (Tb.sb_rd_resp_q sb_empty)) /\
  Tb.rd_bytes p42 (Tb.rw_out w) =
    pattern (fun k => k mod 256) ((Tb.ap_len req + 1) * 2 ^ Tb.ap_size req) /\
  Z.of_nat (length (Tb.rw_out w)) = Tb.ap_len req + 1 /\
  (forall i j, 0 <= i <= Tb.ap_len req -> 0 <= j < 2 ^ Tb.ap_size req ->
     get_byte (Tb.rp_data (rd_beat (Tb.rw_out w) i)) (rd_lane p42 req i + j) =
     (i * 2 ^ Tb.ap_size req + j) mod 256).
Proof.
  apply (rd_predicted_bytes p42 m_injected sb_empty d_narrow 0).
  - reflexivity.
  - exact m_injected_reachable.
  - unfold Tb.rand_ok. simpl. lia.
  - reflexivity.
Defined.

(** C3: for every write transaction that [gen_new_wr_trans] produces, the
    call runs to its end, pushes the master-side beats to the injection
    queue and the slave-side beats to the write-data queue of the
    destination, and both sequences of beats carry the same bytes: byte [k]
    is [k mod 256], except the final byte of the transaction, which is
    [MASTER_ID & 0xFF]. *)
Theorem wr_predicted_bytes p m sb d dst :
  wr_params_ok p = true -> Tb.reachable p m -> Tb.rand_ok d ->
  Tb.mem_map_resolve p (Tb.ap_addr (Tb.wr_req p m d)) = Some dst ->
  let req := Tb.wr_req p m d in
  let w := Tb.wr_expected p (Tb.MASTER_ID m) req in
  let total := (Tb.ap_len req + 1) * 2 ^ Tb.ap_size req in
  (exists m' sb',
     Tb.gen_new_wr_trans p m sb d = Ok (m', sb') /\
     Tb.stored_wr_data m' = Tb.stored_wr_data m ++ Tb.ww_m_out w /\
     Tb.sb_wr_data_q sb' =
       upd_at (Z.to_nat dst) (fun q => q ++ Tb.ww_s_out w) (Tb.sb_wr_data_q sb)) /\
  Tb.wr_bytes p (Tb.ww_s_out w) = Tb.wr_bytes p (Tb.ww_m_out w) /\
  Tb.wr_bytes p (Tb.ww_m_out w) =
    pattern (fun k => if k =? total - 1 then Tb.MASTER_ID m mod 256 else k mod 256) total.
Proof.
  intros Hok Hreach Hd Hres. cbv zeta.
  pose proof Hok as Hok'.
  unfold wr_params_ok in Hok. rewrite !andb_true_iff in Hok.
  destruct Hok as ((((Hlanes & Hwidths) & _) & _) & _).
  pose proof Hlanes as Hlanes'.
  apply lanes_ok_spec in Hlanes. destruct Hlanes as (Hm & HL & Hs & HLS & Hms).
  apply widths_ok_spec in Hwidths. destruct Hwidths as (HA & HAd & HAl & Hdw).
  split.
  - unfold Tb.gen_new_wr_trans. cbv zeta.
    change (Tb.ap_addr (Tb.wr_req_s p (Tb.wr_req p m d)))
      with (Tb.ap_addr (Tb.wr_req p m d)).
    rewrite Hres. eexists. eexists. split; [reflexivity|]. split; reflexivity.
  - destruct (wr_expected_legal p (Tb.MASTER_ID m) (Tb.wr_req p m d) Hok')
      as (Hbm & Hbs & _).
    + pose proof (gen_req_size p (Tb.WR_M_LANES p) (Tb.WR_S_LANES p)
                    (Tb.gen_wr_addr m) d) as Hsz.
      unfold Tb.wr_req. lia.
    + pose proof (gen_req_len p (Tb.WR_M_LANES p) (Tb.WR_S_LANES p)
                    (Tb.gen_wr_addr m) d Hlanes') as Hl.
      unfold Tb.wr_req. lia.
    + apply gen_req_addr; try assumption; try lia.
      apply (proj2 (reachable_gen_addr p m Hreach)); [assumption | lia].
    + rewrite Hbs, Hbm. split; reflexivity.
Qed.

Lemma wr_predicted_bytes_witness :
  let req := Tb.wr_req p42 m_injected d_narrow in
  let w := Tb.wr_expected p42 (Tb.MASTER_ID m_injected) req in
  let total := (Tb.ap_len req + 1) * 2 ^ Tb.ap_size req in
  (exists m' sb',
     Tb.gen_new_wr_trans p42 m_injected sb_empty d_narrow = Ok (m', sb') /\
     Tb.stored_wr_data m' = Tb.stored_wr_data m_injected ++ Tb.ww_m_out w /\
     Tb.sb_wr_data_q sb' =
       upd_at (Z.to_nat 0) (fun q => q ++ Tb.ww_s_out w) (Tb.sb_wr_data_q sb_empty)) /\
  Tb.wr_bytes p42 (Tb.ww_s_out w) = Tb.wr_bytes p42 (Tb.ww_m_out w) /\
  Tb.wr_bytes p42 (Tb.ww_m_out w) =
    pattern (fun k => if k =? total - 1 then Tb.MASTER_ID m_injected mod 256 else k mod 256)
      total.
Proof.
  apply (wr_predicted_bytes p42 m_injected sb_empty d_narrow 0).
  - reflexivity.
  - exact m_injected_reachable.
  - unfold Tb.rand_ok. simpl. lia.
  - reflexivity.
Defined.

(** C8: whatever the draws, the size field of a generated request lies
    between 1 and log2 of the master lane count (the master has at least two
    lanes and the size field holds that value); size 0 is never generated.
    The request is the one pushed to the injection queue. *)
Theorem gen_size_in_range p m sb d :
  2 <= Tb.RD_M_LANES p -> 2 <= Tb.WR_M_LANES p ->
  Tb.my_log2c (Tb.RD_M_LANES p) < 2 ^ Tb.ASIZE_WIDTH p ->
  Tb.my_log2c (Tb.WR_M_LANES p) < 2 ^ Tb.ASIZE_WIDTH p ->
  (Tb.stored_rd_trans (fst (state_of (Tb.gen_new_rd_trans p m sb d))) =
     Tb.stored_rd_trans m ++ [Tb.rd_req p m d] /\
   1 <= Tb.ap_size (Tb.rd_req p m d) <= Tb.my_log2c (Tb.RD_M_LANES p)) /\
  (Tb.stored_wr_trans (fst (state_of (Tb.gen_new_wr_trans p m sb d))) =
     Tb.stored_wr_trans m ++ [Tb.wr_req p m d] /\
   1 <= Tb.ap_size (Tb.wr_req p m d) <= Tb.my_log2c (Tb.WR_M_LANES p)).
Proof.
  intros Hr Hw HAr HAw. split; split.
  - apply gen_new_rd_trans_fields.
  - apply gen_req_size; [|exact HAr].
    pose proof (Z.log2_up_pos (Tb.RD_M_LANES p)). unfold Tb.my_log2c. lia.
  - apply gen_new_wr_trans_fields.
  - apply gen_req_size; [|exact HAw].
    pose proof (Z.log2_up_pos (Tb.WR_M_LANES p)). unfold Tb.my_log2c. lia.
Qed.

Lemma gen_size_in_range_witness :
  (Tb.stored_rd_trans (fst (state_of (Tb.gen_new_rd_trans p84 m_reset sb_empty d_wide))) =
     Tb.stored_rd_trans m_reset ++ [Tb.rd_req p84 m_reset d_wide] /\
   1 <= Tb.ap_size (Tb.rd_req p84 m_reset d_wide) <= Tb.my_log2c (Tb.RD_M_LANES p84)) /\
  (Tb.stored_wr_trans (fst (state_of (Tb.gen_new_wr_trans p84 m_reset sb_empty d_wide))) =
     Tb.stored_wr_trans m_reset ++ [Tb.wr_req p84 m_reset d_wide] /\
   1 <= Tb.ap_size (Tb.wr_req p84 m_reset d_wide) <= Tb.my_log2c (Tb.WR_M_LANES p84)).
Proof.
  apply (gen_size_in_range p84 m_reset sb_empty d_wide).
  - simpl. lia.
  - simpl. lia.
  - vm_compute. reflexivity.
  - vm_compute. reflexivity.
Defined.

(** C10: from every reachable state of the master, the request either
    generator pushes to its injection queue has an address that is a
    multiple of the master lane count (a power of two that divides 0x10000
    and the address space), so the initial lane pointer of the predictor
    is 0. *)
Theorem gen_addr_lane_aligned p m sb d :
  lanes_divide_offset p (Tb.RD_M_LANES p) = true ->
  lanes_divide_offset p (Tb.WR_M_LANES p) = true ->
  Tb.reachable p m ->
  (Tb.stored_rd_trans (fst (state_of (Tb.gen_new_rd_trans p m sb d))) =
     Tb.stored_rd_trans m ++ [Tb.rd_req p m d] /\
   Tb.ap_addr (Tb.rd_req p m d) mod Tb.RD_M_LANES p = 0 /\
   Tb.rd_init_ptr p (Tb.rd_req p m d) = 0) /\
  (Tb.stored_wr_trans (fst (state_of (Tb.gen_new_wr_trans p m sb d))) =
     Tb.stored_wr_trans m ++ [Tb.wr_req p m d] /\
   Tb.ap_addr (Tb.wr_req p m d) mod Tb.WR_M_LANES p = 0 /\
   Tb.wr_m_init_ptr p (Tb.wr_req p m d) = 0).
Proof.
  unfold lanes_divide_offset. rewrite !andb_true_iff, !Z.eqb_eq, !Z.leb_le.
  intros [[Hr Hr16] HrA] [[Hw Hw16] HwA] Hreach.
  pose proof (Z.log2_up_nonneg (Tb.RD_M_LANES p)) as Hr0.
  pose proof (Z.log2_up_nonneg (Tb.WR_M_LANES p)) as Hw0.
  unfold Tb.my_log2c in *.
  destruct (reachable_gen_addr p m Hreach) as [Hgr Hgw].
  assert (Har : Tb.ap_addr (Tb.rd_req p m d) mod Tb.RD_M_LANES p = 0).
  { apply gen_req_addr; unfold Tb.my_log2c; try assumption; try lia.
    apply Hgr; unfold Tb.my_log2c; [assumption | lia]. }
  assert (Haw : Tb.ap_addr (Tb.wr_req p m d) mod Tb.WR_M_LANES p = 0).
  { apply gen_req_addr; unfold Tb.my_log2c; try assumption; try lia.
    apply Hgw; unfold Tb.my_log2c; [assumption | lia]. }
  split; (split; [|split]).
  - apply gen_new_rd_trans_fields.
  - exact Har.
  - unfold Tb.rd_init_ptr. rewrite Har. apply trunc_0.
  - apply gen_new_wr_trans_fields.
  - exact Haw.
  - unfold Tb.wr_m_init_ptr. rewrite Haw. apply trunc_0.
Qed.

Lemma gen_addr_lane_aligned_witness :
  (Tb.stored_rd_trans (fst (state_of (Tb.gen_new_rd_trans p42 m_injected sb_empty d_wide))) =
     Tb.stored_rd_trans m_injected ++ [Tb.rd_req p42 m_injected d_wide] /\
   Tb.ap_addr (Tb.rd_req p42 m_injected d_wide) mod Tb.RD_M_LANES p42 = 0 /\
   Tb.rd_init_ptr p42 (Tb.rd_req p42 m_injected d_wide) = 0) /\
  (Tb.stored_wr_trans (fst (state_of (Tb.gen_new_wr_trans p42 m_injected sb_empty d_wide))) =
     Tb.stored_wr_trans m_injected ++ [Tb.wr_req p42 m_injected d_wide] /\
   Tb.ap_addr (Tb.wr_req p42 m_injected d_wide) mod Tb.WR_M_LANES p42 = 0 /\
   Tb.wr_m_init_ptr p42 (Tb.wr_req p42 m_injected d_wide) = 0).
Proof.
  apply (gen_addr_lane_aligned p42 m_injected sb_empty d_wide).
  - reflexivity.
  - reflexivity.
  - exact m_injected_reachable.
Defined.

(** C2, as stated, fails: with eight master lanes over four slave lanes, a
    generated read request of size 1 keeps size 1 at the slave, which is not
    log2 of the slave lane count. *)
Lemma slave_size_kept_when_narrow :
  Tb.RD_S_LANES p84 < Tb.RD_M_LANES p84 /\
  Tb.ap_size (Tb.rd_req p84 m_reset d_narrow) = 1 /\
  Tb.ap_size (Tb.rd_req_s p84 (Tb.rd_req p84 m_reset d_narrow)) <>
    Tb.my_log2c (Tb.RD_S_LANES p84).
Proof.
  split; [reflexivity|]. split; [reflexivity|]. vm_compute. discriminate.
Qed.

Lemma shifted_len_range len k :
  0 <= len <= 3 -> 1 <= k <= 2 -> 0 <= Z.shiftl (len + 1) k - 1 <= 15.
Proof.
  intros Hl Hk. rewrite Z.shiftl_mul_pow2 by lia.
  assert (Hc : k = 1 \/ k = 2) by lia.
  destruct Hc as [-> | ->]; simpl; lia.
Qed.

Lemma rd_req_s_equiv p req :
  lanes_ok (Tb.RD_M_LANES p) (Tb.RD_S_LANES p) = true ->
  widths_ok p (Tb.RD_M_LANES p) = true ->
  1 <= Tb.ap_size req <= Tb.my_log2c (Tb.RD_M_LANES p) ->
  0 <= Tb.ap_len req <= 3 ->
  (Tb.ap_size (Tb.rd_req_s p req), Tb.ap_len (Tb.rd_req_s p req)) =
    slave_equiv (Tb.RD_S_LANES p) (Tb.ap_len req) (Tb.ap_size req).
Proof.
  intros Hlanes Hwidths Hsz Hlen.
  apply lanes_ok_spec in Hlanes. destruct Hlanes as (Hm & HL & Hs & HLS & Hms).
  apply widths_ok_spec in Hwidths. destruct Hwidths as (HA & HAd & HAl & Hdw).
  set (L := Tb.my_log2c (Tb.RD_M_LANES p)) in *.
  set (LS := Tb.my_log2c (Tb.RD_S_LANES p)) in *.
  assert (HLLS : L <= LS + 2).
  { apply (Z.pow_le_mono_r_iff 2); [lia|lia|].
    rewrite <- Hm. rewrite Z.pow_add_r by lia. rewrite <- Hs. lia. }
  assert (H16 : 16 <= 2 ^ Tb.ALEN_WIDTH p).
  { change 16 with (2 ^ 4). apply Z.pow_le_mono_r; lia. }
  unfold slave_equiv, Tb.rd_req_s. simpl. fold LS.
  rewrite shiftl_1 by lia.
  destruct (Z.ltb_spec (Tb.RD_S_LANES p) (2 ^ Tb.ap_size req)) as [Hlt|Hge].
  - rewrite Hs in Hlt. apply Z.pow_lt_mono_r_iff in Hlt; [|lia|lia].
    pose proof (shifted_len_range (Tb.ap_len req) (Tb.ap_size req - LS) Hlen) as Hx.
    unfold u32. rewrite (trunc_small 32) by lia.
    rewrite !trunc_small by lia. reflexivity.
  - unfold u32. rewrite !(trunc_small 32) by lia.
    rewrite !trunc_small by lia. reflexivity.
Qed.

Lemma wr_req_s_equiv p req :
  lanes_ok (Tb.WR_M_LANES p) (Tb.WR_S_LANES p) = true ->
  widths_ok p (Tb.WR_M_LANES p) = true ->
  1 <= Tb.ap_size req <= Tb.my_log2c (Tb.WR_M_LANES p) ->
  0 <= Tb.ap_len req <= 3 ->
  (Tb.ap_size (Tb.wr_req_s p req), Tb.ap_len (Tb.wr_req_s p req)) =
    slave_equiv (Tb.WR_S_LANES p) (Tb.ap_len req) (Tb.ap_size req).
Proof.
  intros Hlanes Hwidths Hsz Hlen.
  apply lanes_ok_spec in Hlanes. destruct Hlanes as (Hm & HL & Hs & HLS & Hms).
  apply widths_ok_spec in Hwidths. destruct Hwidths as (HA & HAd & HAl & Hdw).
  destruct (wr_s_size_bounds p (Tb.ap_size req) Hs) as (Hss & HssL & Hsv); [lia|lia|].
  set (L := Tb.my_log2c (Tb.WR_M_LANES p)) in *.
  set (LS := Tb.my_log2c (Tb.WR_S_LANES p)) in *.
  assert (HLLS : L <= LS + 2).
  { apply (Z.pow_le_mono_r_iff 2); [lia|lia|].
    rewrite <- Hm. rewrite Z.pow_add_r by lia. rewrite <- Hs. lia. }
  assert (H16 : 16 <= 2 ^ Tb.ALEN_WIDTH p).
  { change 16 with (2 ^ 4). apply Z.pow_le_mono_r; lia. }
  unfold slave_equiv, Tb.wr_req_s, Tb.wr_s_len. simpl. fold LS.
  assert (Hus : u8 (Tb.ap_size req) = Tb.ap_size req) by (apply trunc_small; lia).
  assert (Hul : u8 (Tb.ap_len req) = Tb.ap_len req) by (apply trunc_small; lia).
  rewrite !Hus, !Hul, Hsv. rewrite shiftl_1 by lia.
  destruct (Z.ltb_spec (Tb.WR_S_LANES p) (2 ^ Tb.ap_size req)) as [Hlt|Hge].
  - rewrite Hs in Hlt. apply Z.pow_lt_mono_r_iff in Hlt; [|lia|lia].
    pose proof (shifted_len_range (Tb.ap_len req) (Tb.ap_size req - LS) Hlen) as Hx.
    unfold u8. rewrite (trunc_small 8) by lia.
    rewrite !trunc_small by lia. reflexivity.
  - unfold u8. rewrite (trunc_small 8) by lia.
    rewrite !trunc_small by lia. reflexivity.
Qed.

(** C2, amended: for every generated transaction, read or write, the
    slave-side size and len are [slave_equiv] of the master's len and size
    and the slave lane count: narrowed to size log2(slave lanes) and to
    len ((len+1) << (size - log2(slave lanes))) - 1 when one master beat
    is wider than the slave, and the master's own size and len otherwise.
    Both generators compute this same function. *)
Theorem slave_equiv_request p m d :
  rd_params_ok p = true -> wr_params_ok p = true -> Tb.rand_ok d ->
  (Tb.ap_size (Tb.rd_req_s p (Tb.rd_req p m d)),
   Tb.ap_len (Tb.rd_req_s p (Tb.rd_req p m d))) =
    slave_equiv (Tb.RD_S_LANES p)
      (Tb.ap_len (Tb.rd_req p m d)) (Tb.ap_size (Tb.rd_req p m d)) /\
  (Tb.ap_size (Tb.wr_req_s p (Tb.wr_req p m d)),
   Tb.ap_len (Tb.wr_req_s p (Tb.wr_req p m d))) =
    slave_equiv (Tb.WR_S_LANES p)
      (Tb.ap_len (Tb.wr_req p m d)) (Tb.ap_size (Tb.wr_req p m d)).
Proof.
  intros Hr Hw Hd.
  unfold rd_params_ok in Hr. apply andb_true_iff in Hr. destruct Hr as [Hrl Hrw].
  unfold wr_params_ok in Hw. rewrite !andb_true_iff in Hw.
  destruct Hw as ((((Hwl & Hww) & _) & _) & _).
  split.
  - apply rd_req_s_equiv; try assumption.
    + apply gen_req_size.
      * apply lanes_ok_spec in Hrl. lia.
      * apply widths_ok_spec in Hrw. lia.
    + apply gen_req_len; [assumption|]. apply widths_ok_spec in Hrw. lia.
  - apply wr_req_s_equiv; try assumption.
    + apply gen_req_size.
      * apply lanes_ok_spec in Hwl. lia.
      * apply widths_ok_spec in Hww. lia.
    + apply gen_req_len; [assumption|]. apply widths_ok_spec in Hww. lia.
Qed.

Lemma slave_equiv_request_witness :
  (Tb.ap_size (Tb.rd_req_s p84 (Tb.rd_req p84 m_reset d_wide)),
   Tb.ap_len (Tb.rd_req_s p84 (Tb.rd_req p84 m_reset d_wide))) =
    slave_equiv (Tb.RD_S_LANES p84)
      (Tb.ap_len (Tb.rd_req p84 m_reset d_wide)) (Tb.ap_size (Tb.rd_req p84 m_reset d_wide)) /\
  (Tb.ap_size (Tb.wr_req_s p84 (Tb.wr_req p84 m_reset d_wide)),
   Tb.ap_len (Tb.wr_req_s p84 (Tb.wr_req p84 m_reset d_wide))) =
    slave_equiv (Tb.WR_S_LANES p84)
      (Tb.ap_len (Tb.wr_req p84 m_reset d_wide)) (Tb.ap_size (Tb.wr_req p84 m_reset d_wide)).
Proof.
  apply (slave_equiv_request p84 m_reset d_wide).
  - reflexivity.
  - reflexivity.
  - unfold Tb.rand_ok. simpl. lia.
Defined.

(** C4, as stated, fails: with four master lanes over two slave lanes, the
    generated read of size 2, len 0 at an address that is a multiple of 4
    gets one predicted beat, not two. *)
Lemma rd_predictor_one_beat :
  Tb.RD_M_LANES p42 = 4 /\ Tb.RD_S_LANES p42 = 2 /\
  Tb.ap_size (Tb.rd_req p42 m_reset d_wide) = 2 /\
  Tb.ap_len (Tb.rd_req p42 m_reset d_wide) = 0 /\
  Tb.ap_addr (Tb.rd_req p42 m_reset d_wide) mod 4 = 0 /\
  length (Tb.rw_out (Tb.rd_expected p42 (Tb.rd_req p42 m_reset d_wide) 1)) <> 2%nat.
Proof.
  repeat (split; [reflexivity|]). vm_compute. discriminate.
Qed.

Lemma rd_downsize_beats p req dst :
  Tb.RD_M_LANES p = 4 -> Tb.RD_S_LANES p = 2 ->
  32 <= Tb.DATA_WIDTH p -> 2 <= Tb.ASIZE_WIDTH p -> 1 <= Tb.ALEN_WIDTH p ->
  Tb.ap_size req = 2 -> Tb.ap_len req = 0 -> Tb.ap_addr req mod 4 = 0 ->
  Z.of_nat (length (Tb.rw_out (Tb.rd_expected p req dst))) = 1 /\
  Tb.rd_bytes p (Tb.rw_out (Tb.rd_expected p req dst)) = [0; 1; 2; 3] /\
  (forall j, 0 <= j < 4 ->
     get_byte (Tb.rp_data (rd_beat (Tb.rw_out (Tb.rd_expected p req dst)) 0)) j = j) /\
  Tb.ap_size (Tb.rd_req_s p req) = 1 /\
  Tb.ap_len (Tb.rd_req_s p req) = 1.
Proof.
  intros HM HS Hdw HA HL Hsz Hlen Haddr.
  assert (H4 : 4 <= 2 ^ Tb.ASIZE_WIDTH p).
  { change 4 with (2 ^ 2). apply Z.pow_le_mono_r; lia. }
  assert (H2 : 2 <= 2 ^ Tb.ALEN_WIDTH p).
  { change 2 with (2 ^ 1) at 1. apply Z.pow_le_mono_r; lia. }
  destruct (rd_expected_legal p req dst) as (Hb & Hn & Hlane).
  - rewrite HM. reflexivity.
  - rewrite HM. vm_compute. discriminate.
  - rewrite HM. lia.
  - rewrite HM, Hsz. vm_compute. split; discriminate.
  - rewrite Hlen. lia.
  - rewrite HM. exact Haddr.
  - rewrite Hsz, Hlen in Hb. rewrite Hlen in Hn.
    split; [exact Hn|]. split; [exact Hb|]. split.
    { intros j Hj. specialize (Hlane 0 j). rewrite Hsz, Hlen in Hlane.
      assert (Hl0 : rd_lane p req 0 = 0).
      { unfold rd_lane. destruct (Tb.ap_burst req =? Tb.FIXED); [reflexivity|].
        apply Zmod_0_l. }
      rewrite Hl0 in Hlane. simpl in Hlane.
      rewrite Hlane by lia. apply Z.mod_small. lia. }
    unfold Tb.rd_req_s. simpl. rewrite HS, Hsz, Hlen.
    change (2 <? Z.shiftl 1 2) with true. cbv iota.
    change (Tb.my_log2c 2) with 1.
    change (u32 (Z.shiftl (0 + 1) (2 - 1) - 1)) with 1.
    rewrite !trunc_small by lia. split; reflexivity.
Qed.

(** C4, amended: with four master lanes over two slave lanes, when the
    read request [gen_new_rd_trans] builds has size 2, len 0 and an address
    that is a multiple of 4 (and resolves to a destination), the call runs
    to its end; the predictor produces exactly one beat, of the master's
    width, whose bytes in lane order are 0, 1, 2, 3 (lane [j] of its data
    word holds [j]), and that one beat is what the call appends to the
    response queue of the master; the size 1, len 1 equivalent is the
    slave-side request, and that request is what the call appends to the
    request queue of the destination. *)
Theorem rd_downsize_scenario p m sb d dst :
  Tb.RD_M_LANES p = 4 -> Tb.RD_S_LANES p = 2 ->
  32 <= Tb.DATA_WIDTH p -> 2 <= Tb.ASIZE_WIDTH p -> 1 <= Tb.ALEN_WIDTH p ->
  Tb.ap_size (Tb.rd_req p m d) = 2 -> Tb.ap_len (Tb.rd_req p m d) = 0 ->
  Tb.ap_addr (Tb.rd_req p m d) mod 4 = 0 ->
  Tb.mem_map_resolve p (Tb.ap_addr (Tb.rd_req p m d)) = Some dst ->
  let req := Tb.rd_req p m d in
  let beats := Tb.rw_out (Tb.rd_expected p req dst) in
  (exists m' sb' b,
     Tb.gen_new_rd_trans p m sb d = Ok (m', sb') /\
     beats = [b] /\
     Tb.sb_rd_resp_q sb' =
       upd_at (Z.to_nat (Tb.MASTER_ID m)) (fun q => q ++ [fst b]) (Tb.sb_rd_resp_q sb) /\
     Tb.sb_rd_req_q sb' =
       upd_at (Z.to_nat dst) (fun q => q ++ [Tb.rd_req_s p req]) (Tb.sb_rd_req_q sb) /\
     Tb.stored_rd_trans m' = Tb.stored_rd_trans m ++ [req]) /\
  Z.of_nat (length beats) = 1 /\
  Tb.rd_bytes p beats = [0; 1; 2; 3] /\
  (forall j, 0 <= j < 4 -> get_byte (Tb.rp_data (rd_beat beats 0)) j = j) /\
  Tb.ap_size (Tb.rd_req_s p req) = 1 /\
  Tb.ap_len (Tb.rd_req_s p req) = 1.
Proof.
  intros HM HS Hdw HA HL Hsz Hlen Haddr Hres. cbv zeta.
  pose proof (rd_downsize_beats p (Tb.rd_req p m d) dst HM HS Hdw HA HL Hsz Hlen Haddr)
    as (Hn & Hrest).
  split; [|split; [exact Hn | exact Hrest]].
  destruct (Tb.rw_out (Tb.rd_expected p (Tb.rd_req p m d) dst)) as [|b [|b' l]] eqn:Hb;
    cbn [length] in Hn; try lia.
  unfold Tb.gen_new_rd_trans. cbv zeta.
  change (Tb.ap_addr (Tb.rd_req_s p (Tb.rd_req p m d)))
    with (Tb.ap_addr (Tb.rd_req p m d)).
  rewrite Hres, Hb.
  eexists. eexists. exists b. split; [reflexivity|].
  split; [reflexivity|]. split; [reflexivity|]. split; reflexivity.
Qed.

Lemma rd_downsize_scenario_witness :
  let req := Tb.rd_req p42 m_injected d_wide in
  let beats := Tb.rw_out (Tb.rd_expected p42 req 1) in
  (exists m' sb' b,
     Tb.gen_new_rd_trans p42 m_injected sb_pending d_wide = Ok (m', sb') /\
     beats = [b] /\
     Tb.sb_rd_resp_q sb' =
       upd_at (Z.to_nat (Tb.MASTER_ID m_injected)) (fun q => q ++ [fst b])
         (Tb.sb_rd_resp_q sb_pending) /\
     Tb.sb_rd_req_q sb' =
       upd_at (Z.to_nat 1) (fun q => q ++ [Tb.rd_req_s p42 req]) (Tb.sb_rd_req_q sb_pending) /\
     Tb.stored_rd_trans m' = Tb.stored_rd_trans m_injected ++ [req]) /\
  Z.of_nat (length beats) = 1 /\
  Tb.rd_bytes p42 beats = [0; 1; 2; 3] /\
  (forall j, 0 <= j < 4 -> get_byte (Tb.rp_data (rd_beat beats 0)) j = j) /\
  Tb.ap_size (Tb.rd_req_s p42 req) = 1 /\
  Tb.ap_len (Tb.rd_req_s p42 req) = 1.
Proof.
  apply (rd_downsize_scenario p42 m_injected sb_pending d_wide 1);
    try reflexivity; simpl; lia.
Defined.

(** * The payload constructors *)

Lemma guarded_store_zero g w :
  (0 < w -> 0 < g) ->
  0 < w -> (if 0 <? g then Ace.store w 0 else None) = Some 0.
Proof.
  intros Hg Hw. unfold Ace.store.
  destruct (Z.ltb_spec 0 g); [|lia].
  destruct (Z.ltb_spec 0 w); [|lia].
  rewrite trunc_0. reflexivity.
Qed.

Lemma BID_needs_ID c : 0 < Ace.BID_WIDTH c -> 0 < Ace.ID_WIDTH c.
Proof.
  unfold Ace.BID_WIDTH, Ace.ID_WIDTH.
  destruct (Ace.useWriteResponses c =? 0); lia.
Qed.

(** C5, as stated, fails: in a configuration with write strobes, the
    default-constructed [WritePayload] has a present field that is not
    zero, its [wstrb]. *)
Lemma WritePayload_ctor_strobes_set :
  0 < Ace.WSTRB_WIDTH cfg64 /\
  Ace.w_wstrb (Ace.WritePayload_ctor cfg64) = Some 255 /\
  ~ Ace.zero_valued (Ace.WritePayload_fields cfg64 (Ace.WritePayload_ctor cfg64)).
Proof.
  split; [reflexivity|]. split; [reflexivity|].
  intros H. unfold Ace.zero_valued in H.
  rewrite Forall_forall in H.
  specialize (H (Ace.WSTRB_WIDTH cfg64, Ace.w_wstrb (Ace.WritePayload_ctor cfg64))).
  assert (Hin : In (Ace.WSTRB_WIDTH cfg64, Ace.w_wstrb (Ace.WritePayload_ctor cfg64))
                  (Ace.WritePayload_fields cfg64 (Ace.WritePayload_ctor cfg64))).
  { simpl. right. right. left. reflexivity. }
  specialize (H Hin eq_refl). vm_compute in H. discriminate H.
Qed.

(** C5, amended: default construction of every payload type is a total
    function of the configuration; every present field of [AddrPayload],
    [ReadPayload] and [WRespPayload] is zero, and so are the present fields
    of [WritePayload] other than [wstrb], which, when present, has every
    strobe bit set. *)
Theorem payload_ctor_values c :
  Ace.zero_valued (Ace.AddrPayload_fields c (Ace.AddrPayload_ctor c)) /\
  Ace.zero_valued (Ace.ReadPayload_fields c (Ace.ReadPayload_ctor c)) /\
  Ace.zero_valued (Ace.WRespPayload_fields c (Ace.WRespPayload_ctor c)) /\
  Ace.zero_valued
    [ (Ace.DATA_WIDTH c, Some (Ace.w_data (Ace.WritePayload_ctor c)));
      (Ace.LAST_WIDTH c, Ace.w_last (Ace.WritePayload_ctor c));
      (Ace.WUSER_WIDTH c, Ace.w_wuser (Ace.WritePayload_ctor c)) ] /\
  (if 0 <? Ace.WSTRB_WIDTH c
   then Ace.w_wstrb (Ace.WritePayload_ctor c) = Some (2 ^ Ace.WSTRB_WIDTH c - 1)
   else Ace.w_wstrb (Ace.WritePayload_ctor c) = None).
Proof.
  unfold Ace.zero_valued.
  split; [|split; [|split; [|split]]].
  - repeat (apply Forall_cons || apply Forall_nil); cbn [fst snd]; intros Hw;
      first [ apply guarded_store_zero; [auto | exact Hw]
            | cbn [Ace.AddrPayload_ctor Ace.a_addr]; rewrite trunc_0; reflexivity ].
  - repeat (apply Forall_cons || apply Forall_nil); cbn [fst snd]; intros Hw;
      first [ apply guarded_store_zero; [auto | exact Hw]
            | cbn [Ace.ReadPayload_ctor Ace.r_data Ace.r_resp]; rewrite trunc_0;
              reflexivity ].
  - repeat (apply Forall_cons || apply Forall_nil); cbn [fst snd]; intros Hw;
      first [ apply guarded_store_zero; [apply BID_needs_ID | exact Hw]
            | apply guarded_store_zero; [auto | exact Hw]
            | cbn [Ace.WRespPayload_ctor Ace.b_resp]; rewrite trunc_0; reflexivity ].
  - repeat (apply Forall_cons || apply Forall_nil); cbn [fst snd]; intros Hw;
      first [ apply guarded_store_zero; [auto | exact Hw]
            | cbn [Ace.WritePayload_ctor Ace.w_data]; rewrite trunc_0; reflexivity ].
  - simpl. destruct (Z.ltb_spec 0 (Ace.WSTRB_WIDTH c)) as [Hw|Hw]; [|reflexivity].
    unfold Ace.store. destruct (Z.ltb_spec 0 (Ace.WSTRB_WIDTH c)); [|lia].
    f_equal. unfold trunc. change (Z.lnot 0) with (-1).
    assert (Hp : 0 < 2 ^ Ace.WSTRB_WIDTH c) by (apply Z.pow_pos_nonneg; lia).
    replace (-1) with (2 ^ Ace.WSTRB_WIDTH c - 1 + -1 * 2 ^ Ace.WSTRB_WIDTH c) by lia.
    rewrite Z.mod_add by lia. apply Z.mod_small. lia.
Qed.

(** * The write slave port *)

Lemma list_not_own_tail {A : Type} (x : A) l : l <> x :: l.
Proof.
  intros H. apply (f_equal (@length A)) in H. simpl in H. lia.
Qed.

Lemma taken_none {A : Type} (l : list A) : Ace.taken l l = [].
Proof. unfold Ace.taken. rewrite Nat.sub_diag. reflexivity. Qed.

Lemma taken_front {A : Type} (x : A) l : Ace.taken (x :: l) l = [x].
Proof.
  unfold Ace.taken. cbn [length].
  replace (S (length l) - length l)%nat with 1%nat by lia. reflexivity.
Qed.

(** The address on hold is the last one consumed: along every history of
    the port, with [got_waddr] set the consumed addresses are one more than
    the consumed data beats and end with [stored_waddr]; with [got_waddr]
    clear there are as many of the one as of the other. *)
Lemma port_run_holds c s la lw :
  Ace.port_run c s la lw ->
  if Ace.got_waddr s
  then exists front, la = front ++ [Ace.stored_waddr s] /\ length front = length lw
  else length la = length lw.
Proof.
  induction 1 as [| s la lw a Hr IH | s la lw d Hr IH | s la lw Hr IH].
  - reflexivity.
  - exact IH.
  - exact IH.
  - destruct s as [aw0 w0 got st]. unfold Ace.nb_wread, Ace.nb_wread_data.
    cbn [Ace.got_waddr Ace.stored_waddr Ace.aw Ace.w] in *.
    destruct got; cbn [negb].
    + destruct IH as (front & Hla & Hlen).
      destruct w0 as [|d w1]; cbn [Ace.PopNB snd Ace.got_waddr Ace.stored_waddr Ace.aw Ace.w].
      * rewrite !taken_none, !app_nil_r. exists front. split; assumption.
      * rewrite taken_none, taken_front, app_nil_r.
        rewrite Hla, !length_app. cbn [length]. lia.
    + destruct aw0 as [|a aw1]; cbn [Ace.PopNB snd Ace.got_waddr Ace.stored_waddr Ace.aw Ace.w].
      * rewrite !taken_none, !app_nil_r. exact IH.
      * destruct w0 as [|d w1];
          cbn [Ace.PopNB snd Ace.got_waddr Ace.stored_waddr Ace.aw Ace.w].
        -- rewrite taken_front, taken_none, app_nil_r. exists la. split; [reflexivity|exact IH].
        -- rewrite !taken_front, !length_app. cbn [length]. lia.
Qed.

(** C9: along every history of the port, [got_waddr] is true exactly when
    one more address beat than data beats has been consumed, and false
    exactly when as many; while it is true the address consumed last, the
    one without a data beat, is [stored_waddr]. A call of [nb_wread] that
    finds [got_waddr] true leaves the AW channel alone and hands back the
    stored address; one that finds it false and an address waiting pops
    that address, hands it back and stores it. The call returns true if and
    only if it consumed a data beat, which it hands back; and it leaves
    [got_waddr] true exactly when it holds an address (kept, or popped in
    this call) and consumed no data beat. *)
Theorem nb_wread_pairs_address_and_data c s la lw :
  Ace.port_run c s la lw ->
  let out := fst (Ace.nb_wread s) in
  let s' := snd (Ace.nb_wread s) in
  (Ace.got_waddr s = true <-> length la = S (length lw)) /\
  (Ace.got_waddr s = false <-> length la = length lw) /\
  (Ace.got_waddr s = true ->
     exists front, la = front ++ [Ace.stored_waddr s] /\ length front = length lw) /\
  (Ace.got_waddr s = true ->
     Ace.aw s' = Ace.aw s /\ Ace.addr_out out = Some (Ace.stored_waddr s) /\
     Ace.stored_waddr s' = Ace.stored_waddr s) /\
  (Ace.got_waddr s = false ->
     forall a rest, Ace.aw s = a :: rest ->
       Ace.aw s' = rest /\ Ace.addr_out out = Some a /\ Ace.stored_waddr s' = a) /\
  (Ace.got_waddr s = false -> Ace.aw s = [] ->
     s' = s /\ Ace.ret out = false /\ Ace.addr_out out = None) /\
  (Ace.ret out = true <-> exists d, Ace.w s = d :: Ace.w s') /\
  (Ace.ret out = true -> exists d, Ace.w s = d :: Ace.w s' /\ Ace.data_out out = Some d) /\
  (Ace.ret out = false -> Ace.w s' = Ace.w s) /\
  (Ace.got_waddr s' = true <->
     Ace.ret out = false /\
     (Ace.got_waddr s = true \/ exists a, Ace.aw s = a :: Ace.aw s')).
Proof.
  intros Hrun. cbv zeta.
  pose proof (port_run_holds c s la lw Hrun) as Hinv.
  split; [|split; [|split]].
  - destruct (Ace.got_waddr s).
    + destruct Hinv as (front & -> & Hlen). rewrite length_app. cbn [length].
      split; intros; [lia | reflexivity].
    + split; intros; [discriminate | lia].
  - destruct (Ace.got_waddr s).
    + destruct Hinv as (front & -> & Hlen). rewrite length_app. cbn [length].
      split; intros; [discriminate | lia].
    + split; intros; [exact Hinv | reflexivity].
  - intros Hg. rewrite Hg in Hinv. exact Hinv.
  - clear Hinv Hrun.
    destruct s as [aw0 w0 got st]. unfold Ace.nb_wread, Ace.nb_wread_data.
    cbn [Ace.got_waddr Ace.stored_waddr Ace.aw Ace.w].
    destruct got; cbn [negb].
    + destruct w0 as [|d w1];
        cbn [Ace.PopNB fst snd Ace.got_waddr Ace.stored_waddr Ace.aw Ace.w
             Ace.ret Ace.addr_out Ace.data_out].
      * split; [intros _; repeat split|]. split; [discriminate|]. split; [discriminate|].
        split; [split; [discriminate | intros [d H]; discriminate H]|].
        split; [discriminate|]. split; [reflexivity|].
        split; [intros _; split; [reflexivity | left; reflexivity] | reflexivity].
      * split; [intros _; repeat split|]. split; [discriminate|]. split; [discriminate|].
        split; [split; [intros _; exists d; reflexivity | reflexivity]|].
        split; [intros _; exists d; split; reflexivity|].
        split; [discriminate|].
        split; [discriminate | intros [H _]; discriminate H].
    + split; [discriminate|].
      destruct aw0 as [|a aw1];
        cbn [Ace.PopNB fst snd Ace.got_waddr Ace.stored_waddr Ace.aw Ace.w
             Ace.ret Ace.addr_out Ace.data_out].
      * split; [intros _ a rest H; discriminate H|].
        split; [intros _ _; repeat split|].
        split; [split; [discriminate | intros [d H]; exfalso;
                        exact (list_not_own_tail d _ H)]|].
        split; [discriminate|]. split; [reflexivity|].
        split; [discriminate|]. intros [_ [H | [a H]]]; discriminate H.
      * destruct w0 as [|d w1];
          cbn [Ace.PopNB fst snd Ace.got_waddr Ace.stored_waddr Ace.aw Ace.w
               Ace.ret Ace.addr_out Ace.data_out].
        -- split; [intros _ a' rest H; injection H as <- <-; repeat split|].
           split; [intros _ H; discriminate H|].
           split; [split; [discriminate | intros [d H]; discriminate H]|].
           split; [discriminate|]. split; [reflexivity|].
           split; [intros _; split; [reflexivity | right; exists a; reflexivity]
                  | reflexivity].
        -- split; [intros _ a' rest H; injection H as <- <-; repeat split|].
           split; [intros _ H; discriminate H|].
           split; [split; [intros _; exists d; reflexivity | reflexivity]|].
           split; [intros _; exists d; split; reflexivity|].
           split; [discriminate|].
           split; [discriminate | intros [H _]; discriminate H].
Qed.

Lemma port_holding_run : Ace.port_run cfg64 port_holding [addr_beat 16] [].
Proof.
  exact (Ace.run_w cfg64 _ _ _ (data_beat 2)
          (Ace.run_w cfg64 _ _ _ (data_beat 1)
            (Ace.run_aw cfg64 _ _ _ (addr_beat 32)
              (Ace.run_nb_wread cfg64 _ _ _
                (Ace.run_aw cfg64 _ _ _ (addr_beat 16) (Ace.run_ctor cfg64)))))).
Qed.

Lemma nb_wread_pairs_address_and_data_witness :
  let s := port_holding in
  let la := [addr_beat 16] in
  let lw := @nil Ace.WritePayload in
  let out := fst (Ace.nb_wread s) in
  let s' := snd (Ace.nb_wread s) in
  (Ace.got_waddr s = true <-> length la = S (length lw)) /\
  (Ace.got_waddr s = false <-> length la = length lw) /\
  (Ace.got_waddr s = true ->
     exists front, la = front ++ [Ace.stored_waddr s] /\ length front = length lw) /\
  (Ace.got_waddr s = true ->
     Ace.aw s' = Ace.aw s /\ Ace.addr_out out = Some (Ace.stored_waddr s) /\
     Ace.stored_waddr s' = Ace.stored_waddr s) /\
  (Ace.got_waddr s = false ->
     forall a rest, Ace.aw s = a :: rest ->
       Ace.aw s' = rest /\ Ace.addr_out out = Some a /\ Ace.stored_waddr s' = a) /\
  (Ace.got_waddr s = false -> Ace.aw s = [] ->
     s' = s /\ Ace.ret out = false /\ Ace.addr_out out = None) /\
  (Ace.ret out = true <-> exists d, Ace.w s = d :: Ace.w s') /\
  (Ace.ret out = true -> exists d, Ace.w s = d :: Ace.w s' /\ Ace.data_out out = Some d) /\
  (Ace.ret out = false -> Ace.w s' = Ace.w s) /\
  (Ace.got_waddr s' = true <->
     Ace.ret out = false /\
     (Ace.got_waddr s = true \/ exists a, Ace.aw s = a :: Ace.aw s')).
Proof.
  apply (nb_wread_pairs_address_and_data cfg64 port_holding [addr_beat 16] []).
  exact port_holding_run.
Defined.

(** * The verifiers *)

Lemma nth_error_mid {A : Type} (done : list A) x rest :
  nth_error (done ++ x :: rest) (length done) = Some x.
Proof.
  rewrite nth_error_app2 by lia. rewrite Nat.sub_diag. reflexivity.
Qed.

Lemma erase_mid {A : Type} (pre : list A) e post :
  erase (length pre) (pre ++ e :: post) = pre ++ post.
Proof.
  unfold erase. rewrite firstn_app, skipn_app.
  rewrite firstn_all, Nat.sub_diag.
  rewrite skipn_all2 by lia.
  replace (S (length pre) - length pre)%nat with 1%nat by lia.
  simpl. rewrite app_nil_r. reflexivity.
Qed.

Lemma find_split {A : Type} (f : A -> bool) l :
  match find f l with
  | Some e =>
      exists pre post,
        l = pre ++ e :: post /\ (forall x, In x pre -> f x = false) /\ f e = true
  | None => forall x, In x l -> f x = false
  end.
Proof.
  induction l as [|a l IH]; simpl.
  - intros x [].
  - destruct (f a) eqn:Hfa.
    + exists [], l. split; [reflexivity|]. split; [intros x []|exact Hfa].
    + destruct (find f l) as [e|].
      * destruct IH as (pre & post & Hl & Hpre & He).
        exists (a :: pre), post. split; [rewrite Hl; reflexivity|].
        split; [|exact He]. intros x [<-|Hx]; [exact Hfa | apply Hpre; exact Hx].
      * intros x [<-|Hx]; [exact Hfa | apply IH; exact Hx].
Qed.

Lemma existsb_find {A : Type} (f : A -> bool) l :
  existsb f l = match find f l with Some _ => true | None => false end.
Proof.
  induction l as [|a l IH]; simpl; [reflexivity|].
  destruct (f a); [reflexivity | exact IH].
Qed.

Section OrderQueue.
Variable p : Tb.Params.
Variables id resp : Z.
Variable terminal : bool.

Lemma reorder_check_skip pre : forall done rest fuel,
  (forall x, In x pre -> (Tb.ap_id x =? id) = false) ->
  (length pre <= fuel)%nat ->
  Tb.reorder_check p fuel (length done) (done ++ pre ++ rest) id resp terminal =
  Tb.reorder_check p (fuel - length pre) (length done + length pre)
    (done ++ pre ++ rest) id resp terminal.
Proof.
  induction pre as [|x pre IH]; intros done rest fuel Hpre Hfuel.
  - simpl. rewrite Nat.sub_0_r, Nat.add_0_r. reflexivity.
  - destruct fuel as [|fuel]; [simpl in Hfuel; lia|].
    cbn [Tb.reorder_check].
    change ((x :: pre) ++ rest) with (x :: pre ++ rest).
    rewrite nth_error_mid.
    rewrite (Hpre x) by (left; reflexivity).
    replace (done ++ x :: pre ++ rest) with ((done ++ [x]) ++ pre ++ rest)
      by (rewrite <- app_assoc; reflexivity).
    replace (S (length done)) with (length (done ++ [x]))
      by (rewrite length_app; simpl; lia).
    rewrite IH.
    + f_equal; rewrite ?length_app; simpl; lia.
    + intros y Hy. apply Hpre. right. exact Hy.
    + simpl in Hfuel. lia.
Qed.

Lemma reorder_check_found pre e post dst :
  (forall x, In x pre -> (Tb.ap_id x =? id) = false) ->
  (Tb.ap_id e =? id) = true ->
  Tb.mem_map_resolve p (Tb.ap_addr e) = Some dst ->
  Tb.reorder_check p (length (pre ++ e :: post)) 0 (pre ++ e :: post) id resp terminal =
  Tb.Reorder (if dst =? resp then 0 else 1)
    (if terminal then pre ++ post else pre ++ e :: post).
Proof.
  intros Hpre He Hres.
  pose proof (reorder_check_skip pre [] (e :: post)
                (length (pre ++ e :: post)) Hpre) as Hskip.
  simpl in Hskip. rewrite Hskip by (rewrite length_app; lia).
  rewrite length_app. simpl.
  replace (length pre + S (length post) - length pre)%nat with (S (length post)) by lia.
  cbn [Tb.reorder_check]. rewrite nth_error_mid, He, Hres, erase_mid. reflexivity.
Qed.

Lemma reorder_check_none q :
  (forall x, In x q -> (Tb.ap_id x =? id) = false) ->
  Tb.reorder_check p (length q) 0 q id resp terminal = Tb.Reorder 2 q.
Proof.
  intros Hq.
  pose proof (reorder_check_skip q [] [] (length q)) as Hskip.
  simpl in Hskip. rewrite app_nil_r in Hskip.
  rewrite Hskip by (auto; lia).
  rewrite Nat.sub_diag. reflexivity.
Qed.

End OrderQueue.

Section ContentCheck.
Context {A : Type}.
Variable eq : A -> bool.

Lemma content_check_skip pre : forall done rest fuel,
  (forall x, In x pre -> eq x = false) ->
  (length pre <= fuel)%nat ->
  Tb.content_check eq fuel (length done) (done ++ pre ++ rest) =
  Tb.content_check eq (fuel - length pre) (length done + length pre)
    (done ++ pre ++ rest).
Proof.
  induction pre as [|x pre IH]; intros done rest fuel Hpre Hfuel.
  - simpl. rewrite Nat.sub_0_r, Nat.add_0_r. reflexivity.
  - destruct fuel as [|fuel]; [simpl in Hfuel; lia|].
    cbn [Tb.content_check].
    change ((x :: pre) ++ rest) with (x :: pre ++ rest).
    rewrite nth_error_mid.
    rewrite (Hpre x) by (left; reflexivity).
    replace (done ++ x :: pre ++ rest) with ((done ++ [x]) ++ pre ++ rest)
      by (rewrite <- app_assoc; reflexivity).
    replace (S (length done)) with (length (done ++ [x]))
      by (rewrite length_app; simpl; lia).
    rewrite IH.
    + f_equal; rewrite ?length_app; simpl; lia.
    + intros y Hy. apply Hpre. right. exact Hy.
    + simpl in Hfuel. lia.
Qed.

Lemma content_check_found pre e post :
  (forall x, In x pre -> eq x = false) -> eq e = true ->
  Tb.content_check eq (length (pre ++ e :: post)) 0 (pre ++ e :: post) =
  Some (length pre, e).
Proof.
  intros Hpre He.
  pose proof (content_check_skip pre [] (e :: post)
                (length (pre ++ e :: post)) Hpre) as Hskip.
  simpl in Hskip. rewrite Hskip by (rewrite length_app; lia).
  rewrite length_app. simpl.
  replace (length pre + S (length post) - length pre)%nat with (S (length post)) by lia.
  cbn [Tb.content_check]. rewrite nth_error_mid, He. reflexivity.
Qed.

Lemma content_check_none q :
  (forall x, In x q -> eq x = false) ->
  Tb.content_check eq (length q) 0 q = None.
Proof.
  intros Hq.
  pose proof (content_check_skip q [] [] (length q)) as Hskip.
  simpl in Hskip. rewrite app_nil_r in Hskip.
  rewrite Hskip by (auto; lia).
  rewrite Nat.sub_diag. reflexivity.
Qed.

Lemma content_check_exists q :
  match Tb.content_check eq (length q) 0 q with
  | Some _ => existsb eq q = true
  | None => existsb eq q = false
  end.
Proof.
  rewrite existsb_find.
  pose proof (find_split eq q) as Hf.
  destruct (find eq q) as [e|].
  - destruct Hf as (pre & post & Hq & Hpre & He).
    rewrite Hq, content_check_found by assumption. reflexivity.
  - rewrite content_check_none by assumption. reflexivity.
Qed.

End ContentCheck.

Lemma rd_reorder_check_found p q rcv pre e post dst :
  q = pre ++ e :: post ->
  (forall x, In x pre -> Tb.ap_id x <> Tb.rp_id rcv) ->
  Tb.ap_id e = Tb.rp_id rcv ->
  Tb.mem_map_resolve p (Tb.ap_addr e) = Some dst ->
  Tb.rd_reorder_check p q rcv =
    Tb.Reorder (if dst =? Tb.rp_resp rcv then 0 else 1)
      (if Tb.rp_last rcv =? 0 then q else pre ++ post).
Proof.
  intros Hq Hpre He Hres. subst q. unfold Tb.rd_reorder_check.
  rewrite (reorder_check_found p _ _ _ pre e post dst); try assumption.
  - destruct (Tb.rp_last rcv =? 0); reflexivity.
  - intros x Hx. apply Z.eqb_neq. apply Hpre. exact Hx.
  - apply Z.eqb_eq. exact He.
Qed.

Lemma wr_reorder_check_found p q brcv pre e post dst :
  q = pre ++ e :: post ->
  (forall x, In x pre -> Tb.ap_id x <> Tb.bp_id brcv) ->
  Tb.ap_id e = Tb.bp_id brcv ->
  Tb.mem_map_resolve p (Tb.ap_addr e) = Some dst ->
  Tb.wr_reorder_check p q brcv =
    Tb.Reorder (if dst =? Tb.bp_resp brcv then 0 else 1) (pre ++ post).
Proof.
  intros Hq Hpre He Hres. subst q. unfold Tb.wr_reorder_check.
  rewrite (reorder_check_found p _ _ _ pre e post dst); try assumption.
  - reflexivity.
  - intros x Hx. apply Z.eqb_neq. apply Hpre. exact Hx.
  - apply Z.eqb_eq. exact He.
Qed.

Lemma rd_reorder_check_missing p q rcv :
  (forall e, In e q -> Tb.ap_id e <> Tb.rp_id rcv) ->
  Tb.rd_reorder_check p q rcv = Tb.Reorder 2 q.
Proof.
  intros Hq. unfold Tb.rd_reorder_check. apply reorder_check_none.
  intros x Hx. apply Z.eqb_neq. apply Hq. exact Hx.
Qed.

Lemma wr_reorder_check_missing p q brcv :
  (forall e, In e q -> Tb.ap_id e <> Tb.bp_id brcv) ->
  Tb.wr_reorder_check p q brcv = Tb.Reorder 2 q.
Proof.
  intros Hq. unfold Tb.wr_reorder_check. apply reorder_check_none.
  intros x Hx. apply Z.eqb_neq. apply Hq. exact Hx.
Qed.

(** What a verifier does with the verdict of its reorder check: the order
    queue the check leaves is the one of the state the verifier returns,
    the other order queue is untouched, and the call ends without an
    assertion only for verdict 0 with a matching prediction. *)
Lemma verify_rd_resp_order_q p m sb rcv status q' :
  Tb.rd_reorder_check p (Tb.sb_rd_order_q m) rcv = Tb.Reorder status q' ->
  let r := Tb.verify_rd_resp p m sb rcv in
  Tb.sb_rd_order_q (fst (state_of r)) = q' /\
  Tb.sb_wr_order_q (fst (state_of r)) = Tb.sb_wr_order_q m /\
  is_fatal r =
    negb (negb (status =? 2) && negb (status =? 1) &&
          existsb (Tb.eq_rd_data p rcv)
            (nth (Z.to_nat (Tb.MASTER_ID m)) (Tb.sb_rd_resp_q sb) [])).
Proof.
  intros Hc. cbv zeta. unfold Tb.verify_rd_resp. rewrite Hc. cbv zeta.
  pose proof (content_check_exists (Tb.eq_rd_data p rcv)
                (nth (Z.to_nat (Tb.MASTER_ID m)) (Tb.sb_rd_resp_q sb) [])) as Hx.
  destruct (Tb.content_check _ _ _ _) as [[j e]|]; rewrite Hx.
  - destruct (negb (status =? 2) && negb (status =? 1)); simpl; repeat split.
  - rewrite andb_false_r. simpl. repeat split.
Qed.

Lemma verify_wr_resp_order_q p m sb brcv status q' :
  Tb.wr_reorder_check p (Tb.sb_wr_order_q m) brcv = Tb.Reorder status q' ->
  let r := Tb.verify_wr_resp p m sb brcv in
  Tb.sb_wr_order_q (fst (state_of r)) = q' /\
  Tb.sb_rd_order_q (fst (state_of r)) = Tb.sb_rd_order_q m /\
  is_fatal r =
    negb (negb (status =? 2) && negb (status =? 1) &&
          existsb (fun x => Tb.eq_wr_resp p x brcv)
            (nth (Z.to_nat (Tb.MASTER_ID m)) (Tb.sb_wr_resp_q sb) [])).
Proof.
  intros Hc. cbv zeta. unfold Tb.verify_wr_resp. rewrite Hc. cbv zeta.
  pose proof (content_check_exists (fun x => Tb.eq_wr_resp p x brcv)
                (nth (Z.to_nat (Tb.MASTER_ID m)) (Tb.sb_wr_resp_q sb) [])) as Hx.
  destruct (Tb.content_check _ _ _ _) as [[j e]|]; rewrite Hx.
  - destruct (negb (status =? 2) && negb (status =? 1)); simpl; repeat split.
  - rewrite andb_false_r. simpl. repeat split.
Qed.

(** C6: for every response [verify_rd_resp] or [verify_wr_resp] processes,
    the reorder check takes the oldest entry of the order queue of the
    master with the identifier of the response. Without such an entry the
    verdict is 2, the order queue of the returned state is the one before
    the call, and the call ends in an assertion. With one, the verdict is 0
    when the destination its address resolves to equals the [resp] of the
    response and 1 otherwise; the order queue of the returned state has
    that entry, and no other, erased when the terminal beat is seen (for a
    read only when [last] is set, for a write always) and is unchanged
    otherwise; the call ends without an assertion exactly when the verdict
    is 0 and a prediction of this master matches the response. *)
Theorem reorder_check_oldest_entry p m sb
  (rcv : Tb.ReadPayload) (brcv : Tb.WRespPayload) :
  let rd := Tb.verify_rd_resp p m sb rcv in
  let wr := Tb.verify_wr_resp p m sb brcv in
  let rq := Tb.sb_rd_order_q m in
  let wq := Tb.sb_wr_order_q m in
  ((forall e, In e rq -> Tb.ap_id e <> Tb.rp_id rcv) ->
   Tb.rd_reorder_check p rq rcv = Tb.Reorder 2 rq /\
   Tb.sb_rd_order_q (fst (state_of rd)) = rq /\
   is_fatal rd = true) /\
  ((forall e, In e wq -> Tb.ap_id e <> Tb.bp_id brcv) ->
   Tb.wr_reorder_check p wq brcv = Tb.Reorder 2 wq /\
   Tb.sb_wr_order_q (fst (state_of wr)) = wq /\
   is_fatal wr = true) /\
  (forall pre e post dst,
     rq = pre ++ e :: post ->
     (forall x, In x pre -> Tb.ap_id x <> Tb.rp_id rcv) ->
     Tb.ap_id e = Tb.rp_id rcv ->
     Tb.mem_map_resolve p (Tb.ap_addr e) = Some dst ->
     Tb.rd_reorder_check p rq rcv =
       Tb.Reorder (if dst =? Tb.rp_resp rcv then 0 else 1)
         (if Tb.rp_last rcv =? 0 then rq else pre ++ post) /\
     Tb.sb_rd_order_q (fst (state_of rd)) =
       (if Tb.rp_last rcv =? 0 then rq else pre ++ post) /\
     Tb.sb_wr_order_q (fst (state_of rd)) = wq /\
     is_fatal rd =
       negb ((dst =? Tb.rp_resp rcv) &&
             existsb (Tb.eq_rd_data p rcv)
               (nth (Z.to_nat (Tb.MASTER_ID m)) (Tb.sb_rd_resp_q sb) []))) /\
  (forall pre e post dst,
     wq = pre ++ e :: post ->
     (forall x, In x pre -> Tb.ap_id x <> Tb.bp_id brcv) ->
     Tb.ap_id e = Tb.bp_id brcv ->
     Tb.mem_map_resolve p (Tb.ap_addr e) = Some dst ->
     Tb.wr_reorder_check p wq brcv =
       Tb.Reorder (if dst =? Tb.bp_resp brcv then 0 else 1) (pre ++ post) /\
     Tb.sb_wr_order_q (fst (state_of wr)) = pre ++ post /\
     Tb.sb_rd_order_q (fst (state_of wr)) = rq /\
     is_fatal wr =
       negb ((dst =? Tb.bp_resp brcv) &&
             existsb (fun x => Tb.eq_wr_resp p x brcv)
               (nth (Z.to_nat (Tb.MASTER_ID m)) (Tb.sb_wr_resp_q sb) []))).
Proof.
  cbv zeta. split; [|split; [|split]].
  - intros Hq. pose proof (rd_reorder_check_missing p _ rcv Hq) as Hc.
    destruct (verify_rd_resp_order_q p m sb rcv _ _ Hc) as (H1 & _ & H3).
    split; [exact Hc|]. split; [exact H1|]. rewrite H3. reflexivity.
  - intros Hq. pose proof (wr_reorder_check_missing p _ brcv Hq) as Hc.
    destruct (verify_wr_resp_order_q p m sb brcv _ _ Hc) as (H1 & _ & H3).
    split; [exact Hc|]. split; [exact H1|]. rewrite H3. reflexivity.
  - intros pre e post dst Hq Hpre He Hres.
    pose proof (rd_reorder_check_found p _ rcv pre e post dst Hq Hpre He Hres) as Hc.
    destruct (verify_rd_resp_order_q p m sb rcv _ _ Hc) as (H1 & H2 & H3).
    split; [exact Hc|]. split; [exact H1|]. split; [exact H2|].
    rewrite H3. destruct (dst =? Tb.rp_resp rcv); reflexivity.
  - intros pre e post dst Hq Hpre He Hres.
    pose proof (wr_reorder_check_found p _ brcv pre e post dst Hq Hpre He Hres) as Hc.
    destruct (verify_wr_resp_order_q p m sb brcv _ _ Hc) as (H1 & H2 & H3).
    split; [exact Hc|]. split; [exact H1|]. split; [exact H2|].
    rewrite H3. destruct (dst =? Tb.bp_resp brcv); reflexivity.
Qed.

Lemma reorder_check_oldest_entry_witness :
  (Tb.rd_reorder_check p42 (Tb.sb_rd_order_q m_queued) rd_resp_a =
     Tb.Reorder 0 [req_b; req_c] /\
   Tb.sb_rd_order_q (fst (state_of (Tb.verify_rd_resp p42 m_queued sb_pending rd_resp_a))) =
     [req_b; req_c] /\
   is_fatal (Tb.verify_rd_resp p42 m_queued sb_pending rd_resp_a) = false) /\
  (Tb.wr_reorder_check p42 (Tb.sb_wr_order_q m_queued) wr_resp_a =
     Tb.Reorder 0 [req_b; req_c] /\
   Tb.sb_wr_order_q (fst (state_of (Tb.verify_wr_resp p42 m_queued sb_pending wr_resp_a))) =
     [req_b; req_c] /\
   is_fatal (Tb.verify_wr_resp p42 m_queued sb_pending wr_resp_a) = false).
Proof.
  destruct (reorder_check_oldest_entry p42 m_queued sb_pending rd_resp_a wr_resp_a)
    as (_ & _ & Hrd & Hwr).
  split.
  - destruct (Hrd [req_b] req_a [req_c] 1) as (H1 & H2 & _ & H4).
    + reflexivity.
    + intros x [<-|[]]. vm_compute. discriminate.
    + reflexivity.
    + reflexivity.
    + split; [exact H1|]. split; [exact H2 | exact H4].
  - destruct (Hwr [req_b] req_a [req_c] 1) as (H1 & H2 & _ & H4).
    + reflexivity.
    + intros x [<-|[]]. vm_compute. discriminate.
    + reflexivity.
    + reflexivity.
    + split; [exact H1|]. split; [exact H2 | exact H4].
Defined.

Lemma reorder_check_status p q id resp terminal :
  order_resolves p q ->
  exists q',
    Tb.reorder_check p (length q) 0 q id resp terminal =
    Tb.Reorder
      (match find (fun e => Tb.ap_id e =? id) q with
       | Some e =>
           match Tb.mem_map_resolve p (Tb.ap_addr e) with
           | Some dst => if dst =? resp then 0 else 1
           | None => 2
           end
       | None => 2
       end) q'.
Proof.
  intros Hres.
  pose proof (find_split (fun e => Tb.ap_id e =? id) q) as Hf.
  destruct (find (fun e => Tb.ap_id e =? id) q) as [e|].
  - destruct Hf as (pre & post & Hq & Hpre & He).
    unfold order_resolves in Hres. rewrite Forall_forall in Hres.
    assert (Hin : In e q) by (rewrite Hq; apply in_elt).
    specialize (Hres e Hin).
    destruct (Tb.mem_map_resolve p (Tb.ap_addr e)) as [dst|] eqn:Hd; [|congruence].
    rewrite Hq. rewrite (reorder_check_found p _ _ _ pre e post dst) by assumption.
    eexists. reflexivity.
  - rewrite reorder_check_none by assumption. eexists. reflexivity.
Qed.

(** * The requests on record resolve *)

Lemma erase_incl {A : Type} (j : nat) : forall (q : list A) x,
  In x (erase j q) -> In x q.
Proof.
  induction j as [|j IH]; intros [|a q] x Hx.
  - exact Hx.
  - right. exact Hx.
  - destruct Hx.
  - unfold erase in Hx. simpl in Hx. destruct Hx as [<-|Hx].
    + left. reflexivity.
    + right. apply IH. exact Hx.
Qed.

Lemma reorder_check_keeps p id resp terminal (P : Tb.AddrPayload -> Prop) q :
  Forall P q ->
  forall fuel j status q',
    Tb.reorder_check p fuel j q id resp terminal = Tb.Reorder status q' ->
    Forall P q'.
Proof.
  intros HP. induction fuel as [|fuel IH]; intros j status q' H.
  - simpl in H. injection H as _ <-. exact HP.
  - simpl in H. destruct (nth_error q j) as [e|].
    + destruct (Tb.ap_id e =? id).
      * destruct (Tb.mem_map_resolve p (Tb.ap_addr e)); [|discriminate H].
        injection H as _ <-. destruct terminal; [|exact HP].
        rewrite Forall_forall in *. intros x Hx. apply HP.
        apply erase_incl with j. exact Hx.
      * apply IH with (S j) status. exact H.
    + injection H as _ <-. exact HP.
Qed.

Lemma reachable_order_resolves p m :
  Tb.reachable p m ->
  order_resolves p (Tb.sb_rd_order_q m) /\ order_resolves p (Tb.sb_wr_order_q m).
Proof.
  unfold order_resolves.
  induction 1 as [mid | m ar aw w Hr IH
                  | m sb d m' sb' Hr IH Hd Hg | m sb d m' sb' Hr IH Hd Hg
                  | m sb rcv m' sb' Hr IH Hv | m sb rcv m' sb' Hr IH Hv];
    try destruct IH as [IHr IHw].
  - simpl. split; constructor.
  - simpl. split; assumption.
  - unfold Tb.gen_new_rd_trans in Hg. cbv zeta in Hg.
    destruct (Tb.mem_map_resolve p _) as [dst|] eqn:Hres; [|discriminate Hg].
    injection Hg as <- _. simpl. split; [|exact IHw].
    apply Forall_app. split; [exact IHr|].
    constructor; [|constructor].
    change (Tb.ap_addr (Tb.rd_req_s p (Tb.rd_req p m d)))
      with (Tb.ap_addr (Tb.rd_req p m d)) in Hres.
    rewrite Hres. discriminate.
  - unfold Tb.gen_new_wr_trans in Hg. cbv zeta in Hg.
    destruct (Tb.mem_map_resolve p _) as [dst|] eqn:Hres; [|discriminate Hg].
    injection Hg as <- _. simpl. split; [exact IHr|].
    apply Forall_app. split; [exact IHw|].
    constructor; [|constructor].
    change (Tb.ap_addr (Tb.wr_req_s p (Tb.wr_req p m d)))
      with (Tb.ap_addr (Tb.wr_req p m d)) in Hres.
    rewrite Hres. discriminate.
  - unfold Tb.verify_rd_resp, Tb.rd_reorder_check in Hv. cbv zeta in Hv.
    destruct (Tb.reorder_check _ _ _ _ _ _ _) as [|status q'] eqn:Hq; [discriminate Hv|].
    pose proof (reorder_check_keeps p _ _ _ _ _ IHr _ _ _ _ Hq) as Hk.
    destruct (Tb.content_check _ _ _ _) as [[j e]|]; [|discriminate Hv].
    destruct (negb (status =? 2) && negb (status =? 1)); [|discriminate Hv].
    injection Hv as <- _. simpl. split; assumption.
  - unfold Tb.verify_wr_resp, Tb.wr_reorder_check in Hv. cbv zeta in Hv.
    destruct (Tb.reorder_check _ _ _ _ _ _ _) as [|status q'] eqn:Hq; [discriminate Hv|].
    pose proof (reorder_check_keeps p _ _ _ _ _ IHw _ _ _ _ Hq) as Hk.
    destruct (Tb.content_check _ _ _ _) as [[j e]|]; [|discriminate Hv].
    destruct (negb (status =? 2) && negb (status =? 1)); [|discriminate Hv].
    injection Hv as <- _. simpl. split; assumption.
Qed.

Lemma verify_rd_resp_outcome p m sb rcv :
  order_resolves p (Tb.sb_rd_order_q m) ->
  let r := Tb.verify_rd_resp p m sb rcv in
  let found :=
    existsb (Tb.eq_rd_data p rcv)
      (nth (Z.to_nat (Tb.MASTER_ID m)) (Tb.sb_rd_resp_q sb) []) in
  let ok := found && in_order p (Tb.sb_rd_order_q m) (Tb.rp_id rcv) (Tb.rp_resp rcv) in
  is_fatal r = negb ok /\
  Tb.error_sb_rd_resp_not_found (fst (state_of r)) =
    Tb.error_sb_rd_resp_not_found m + (if found then 0 else 1) /\
  Tb.rd_resp_ej (fst (state_of r)) = Tb.rd_resp_ej m + (if ok then 1 else 0).
Proof.
  intros Hres. cbv zeta.
  unfold Tb.verify_rd_resp, Tb.rd_reorder_check, in_order.
  destruct (reorder_check_status p (Tb.sb_rd_order_q m) (Tb.rp_id rcv) (Tb.rp_resp rcv)
              (negb (Tb.rp_last rcv =? 0)) Hres) as [q' Hq'].
  rewrite Hq'. clear Hq'.
  pose proof (content_check_exists (Tb.eq_rd_data p rcv)
                (nth (Z.to_nat (Tb.MASTER_ID m)) (Tb.sb_rd_resp_q sb) [])) as Hc.
  destruct (Tb.content_check _ _ _ _) as [[j e]|]; rewrite Hc.
  - destruct (find _ (Tb.sb_rd_order_q m)) as [o|]; [|simpl; repeat split; lia].
    destruct (Tb.mem_map_resolve p (Tb.ap_addr o)) as [dst|]; [|simpl; repeat split; lia].
    destruct (dst =? Tb.rp_resp rcv); simpl; repeat split; lia.
  - simpl. repeat split; lia.
Qed.

Lemma verify_wr_resp_outcome p m sb rcv :
  order_resolves p (Tb.sb_wr_order_q m) ->
  let r := Tb.verify_wr_resp p m sb rcv in
  let found :=
    existsb (fun sb_resp => Tb.eq_wr_resp p sb_resp rcv)
      (nth (Z.to_nat (Tb.MASTER_ID m)) (Tb.sb_wr_resp_q sb) []) in
  let ok := found && in_order p (Tb.sb_wr_order_q m) (Tb.bp_id rcv) (Tb.bp_resp rcv) in
  is_fatal r = negb ok /\
  Tb.error_sb_wr_resp_not_found (fst (state_of r)) =
    Tb.error_sb_wr_resp_not_found m + (if found then 0 else 1) /\
  Tb.wr_resp_ej (fst (state_of r)) = Tb.wr_resp_ej m + (if ok then 1 else 0).
Proof.
  intros Hres. cbv zeta.
  unfold Tb.verify_wr_resp, Tb.wr_reorder_check, in_order.
  destruct (reorder_check_status p (Tb.sb_wr_order_q m) (Tb.bp_id rcv) (Tb.bp_resp rcv)
              true Hres) as [q' Hq'].
  rewrite Hq'. clear Hq'.
  pose proof (content_check_exists (fun sb_resp => Tb.eq_wr_resp p sb_resp rcv)
                (nth (Z.to_nat (Tb.MASTER_ID m)) (Tb.sb_wr_resp_q sb) [])) as Hc.
  destruct (Tb.content_check _ _ _ _) as [[j e]|]; rewrite Hc.
  - destruct (find _ (Tb.sb_wr_order_q m)) as [o|]; [|simpl; repeat split; lia].
    destruct (Tb.mem_map_resolve p (Tb.ap_addr o)) as [dst|]; [|simpl; repeat split; lia].
    destruct (dst =? Tb.bp_resp rcv); simpl; repeat split; lia.
  - simpl. repeat split; lia.
Qed.

(** C7: when every request on record resolves, a verifier ends in a fatal
    assertion exactly when no prediction matches the received response, or
    no request with its identifier is on record, or the oldest such request
    went to another destination than the response names; the not-found
    counter is incremented, before the assertion, exactly when no
    prediction matches; and the ejected-response counter is incremented
    exactly when the verifier runs to its end. *)
Theorem verify_outcomes p m sb (rcv : Tb.ReadPayload) (brcv : Tb.WRespPayload) :
  order_resolves p (Tb.sb_rd_order_q m) ->
  order_resolves p (Tb.sb_wr_order_q m) ->
  let rd := Tb.verify_rd_resp p m sb rcv in
  let rd_found :=
    existsb (Tb.eq_rd_data p rcv)
      (nth (Z.to_nat (Tb.MASTER_ID m)) (Tb.sb_rd_resp_q sb) []) in
  let rd_ok :=
    rd_found && in_order p (Tb.sb_rd_order_q m) (Tb.rp_id rcv) (Tb.rp_resp rcv) in
  let wr := Tb.verify_wr_resp p m sb brcv in
  let wr_found :=
    existsb (fun sb_resp => Tb.eq_wr_resp p sb_resp brcv)
      (nth (Z.to_nat (Tb.MASTER_ID m)) (Tb.sb_wr_resp_q sb) []) in
  let wr_ok :=
    wr_found && in_order p (Tb.sb_wr_order_q m) (Tb.bp_id brcv) (Tb.bp_resp brcv) in
  (is_fatal rd = negb rd_ok /\
   Tb.error_sb_rd_resp_not_found (fst (state_of rd)) =
     Tb.error_sb_rd_resp_not_found m + (if rd_found then 0 else 1) /\
   Tb.rd_resp_ej (fst (state_of rd)) = Tb.rd_resp_ej m + (if rd_ok then 1 else 0)) /\
  (is_fatal wr = negb wr_ok /\
   Tb.error_sb_wr_resp_not_found (fst (state_of wr)) =
     Tb.error_sb_wr_resp_not_found m + (if wr_found then 0 else 1) /\
   Tb.wr_resp_ej (fst (state_of wr)) = Tb.wr_resp_ej m + (if wr_ok then 1 else 0)).
Proof.
  intros Hrd Hwr. cbv zeta. split.
  - apply verify_rd_resp_outcome. exact Hrd.
  - apply verify_wr_resp_outcome. exact Hwr.
Qed.

Lemma verify_outcomes_witness :
  let rd := Tb.verify_rd_resp p42 m_pending sb_pending rd_resp_a in
  let wr := Tb.verify_wr_resp p42 m_pending sb_pending wr_resp_a in
  (is_fatal rd = false /\
   Tb.error_sb_rd_resp_not_found (fst (state_of rd)) = 0 /\
   Tb.rd_resp_ej (fst (state_of rd)) = 1) /\
  (is_fatal wr = false /\
   Tb.error_sb_wr_resp_not_found (fst (state_of wr)) = 0 /\
   Tb.wr_resp_ej (fst (state_of wr)) = 1).
Proof.
  apply (verify_outcomes p42 m_pending sb_pending rd_resp_a wr_resp_a).
  - repeat constructor. simpl. discriminate.
  - repeat constructor. simpl. discriminate.
Defined.

(** * The address map *)

Lemma resolve_from_spec addr : forall rows i0,
  match Tb.resolve_from i0 rows addr with
  | Some i =>
      exists lo hi,
        i0 <= i /\ nth_error rows (Z.to_nat (i - i0)) = Some (lo, hi) /\
        lo <= addr <= hi /\
        (forall j lo' hi', (j < Z.to_nat (i - i0))%nat ->
           nth_error rows j = Some (lo', hi') -> ~ (lo' <= addr <= hi'))
  | None => forall lo hi, In (lo, hi) rows -> ~ (lo <= addr <= hi)
  end.
Proof.
  induction rows as [|[lo hi] rows IH]; intros i0; simpl.
  - intros lo hi [].
  - destruct ((lo <=? addr) && (addr <=? hi)) eqn:E.
    + exists lo, hi. rewrite Z.sub_diag. simpl.
      apply andb_true_iff in E. rewrite !Z.leb_le in E.
      split; [lia|]. split; [reflexivity|]. split; [lia|].
      intros j lo' hi' Hj. lia.
    + assert (Hout : ~ (lo <= addr <= hi)).
      { intros [H1 H2]. apply Z.leb_le in H1, H2. rewrite H1, H2 in E. discriminate E. }
      specialize (IH (i0 + 1)).
      destruct (Tb.resolve_from (i0 + 1) rows addr) as [i|].
      * destruct IH as (lo1 & hi1 & Hi & Hn & Hr & Hfirst).
        exists lo1, hi1. split; [lia|].
        replace (Z.to_nat (i - i0)) with (S (Z.to_nat (i - (i0 + 1)))) by lia.
        simpl. split; [exact Hn|]. split; [exact Hr|].
        intros j lo2 hi2 Hj Hnth. destruct j as [|j]; simpl in Hnth.
        -- injection Hnth as <- <-. exact Hout.
        -- apply (Hfirst j lo2 hi2); [lia | exact Hnth].
      * intros lo2 hi2 [Heq|Hin].
        -- injection Heq as <- <-. exact Hout.
        -- apply IH. exact Hin.
Qed.

(** X1: [mem_map_resolve] answers with the index of the first row of the
    address map whose range [low, high] holds the address, both ends
    included: no earlier row holds it; and it reaches its assertion exactly
    when no row at all holds the address. *)
Theorem mem_map_resolve_first_row p addr :
  match Tb.mem_map_resolve p addr with
  | Some i =>
      exists lo hi,
        0 <= i /\ nth_error (Tb.addr_map p) (Z.to_nat i) = Some (lo, hi) /\
        lo <= addr <= hi /\
        (forall j lo' hi', (j < Z.to_nat i)%nat ->
           nth_error (Tb.addr_map p) j = Some (lo', hi') -> ~ (lo' <= addr <= hi'))
  | None => forall lo hi, In (lo, hi) (Tb.addr_map p) -> ~ (lo <= addr <= hi)
  end.
Proof.
  unfold Tb.mem_map_resolve.
  pose proof (resolve_from_spec addr (Tb.addr_map p) 0) as H.
  destruct (Tb.resolve_from 0 (Tb.addr_map p) addr) as [i|]; [|exact H].
  rewrite Z.sub_0_r in H. exact H.
Qed.

(** * The comparisons of the verifiers *)

Lemma tid_mask_value p :
  0 <= Tb.ID_W p <= 30 -> Tb.tid_mask p = Z.ones (Tb.ID_W p).
Proof.
  intros H. unfold Tb.tid_mask, u32. rewrite shiftl_1 by lia.
  assert (Hp : 0 < 2 ^ Tb.ID_W p <= 2 ^ 30).
  { split; [apply Z.pow_pos_nonneg; lia | apply Z.pow_le_mono_r; lia]. }
  rewrite trunc_small by lia. rewrite Z.ones_equiv. lia.
Qed.

(** X2: [eq_rd_data] and [eq_wr_resp] compare the identifiers only in
    their low [dnp::ID_W] bits (for a tag width the mask expression can
    hold): two read beats are equal exactly when their identifiers agree
    modulo [2 ^ ID_W] and their data, resp and last fields are the same,
    two write responses exactly when their identifiers agree modulo
    [2 ^ ID_W] and their resp fields are the same. *)
Theorem eq_checks_mask_id p (a b : Tb.ReadPayload) (x y : Tb.WRespPayload) :
  0 <= Tb.ID_W p <= 30 ->
  (Tb.eq_rd_data p a b = true <->
     Tb.rp_id a mod 2 ^ Tb.ID_W p = Tb.rp_id b mod 2 ^ Tb.ID_W p /\
     Tb.rp_data a = Tb.rp_data b /\ Tb.rp_resp a = Tb.rp_resp b /\
     Tb.rp_last a = Tb.rp_last b) /\
  (Tb.eq_wr_resp p x y = true <->
     Tb.bp_id x mod 2 ^ Tb.ID_W p = Tb.bp_id y mod 2 ^ Tb.ID_W p /\
     Tb.bp_resp x = Tb.bp_resp y).
Proof.
  intros H. unfold Tb.eq_rd_data, Tb.eq_wr_resp.
  rewrite tid_mask_value by exact H. rewrite !Z.land_ones by lia.
  rewrite !andb_true_iff, !Z.eqb_eq. tauto.
Qed.

Lemma eq_checks_mask_id_witness :
  (Tb.eq_rd_data p42 rd_resp_a rd_resp_a = true <->
     Tb.rp_id rd_resp_a mod 2 ^ Tb.ID_W p42 = Tb.rp_id rd_resp_a mod 2 ^ Tb.ID_W p42 /\
     Tb.rp_data rd_resp_a = Tb.rp_data rd_resp_a /\
     Tb.rp_resp rd_resp_a = Tb.rp_resp rd_resp_a /\
     Tb.rp_last rd_resp_a = Tb.rp_last rd_resp_a) /\
  (Tb.eq_wr_resp p42 wr_resp_a wr_resp_a = true <->
     Tb.bp_id wr_resp_a mod 2 ^ Tb.ID_W p42 = Tb.bp_id wr_resp_a mod 2 ^ Tb.ID_W p42 /\
     Tb.bp_resp wr_resp_a = Tb.bp_resp wr_resp_a).
Proof.
  apply (eq_checks_mask_id p42 rd_resp_a rd_resp_a wr_resp_a wr_resp_a).
  simpl. lia.
Defined.

(** * The flags of the predicted beats *)

Lemma LastInv_start {A : Type} (lastf : A -> Z) lw total :
  0 <= total -> LastInv lastf lw total 0 [].
Proof.
  intros H. split.
  - intros _. constructor.
  - intros H0 H1. lia.
Qed.

Lemma LastInv_keep {A : Type} (lastf : A -> Z) lw total count out :
  count + 1 <> total -> count < total ->
  LastInv lastf lw total count out -> LastInv lastf lw total (count + 1) out.
Proof.
  intros Hne Hlt [H1 _]. split.
  - intros _. apply H1. exact Hlt.
  - intros Heq. contradiction.
Qed.

Lemma LastInv_close {A : Type} (lastf : A -> Z) lw total count out b :
  count < total -> lastf b = trunc lw (b2z (count + 1 =? total)) ->
  LastInv lastf lw total count out ->
  LastInv lastf lw total (count + 1) (out ++ [b]).
Proof.
  intros Hlt Hb [H1 _]. split.
  - intros Hlt'. apply Forall_app. split; [apply H1; exact Hlt|].
    constructor; [|constructor]. rewrite Hb.
    replace (count + 1 =? total) with false by (symmetry; apply Z.eqb_neq; lia).
    apply trunc_0.
  - intros Heq Hpos. exists out, b. split; [reflexivity|].
    split; [apply H1; exact Hlt|]. rewrite Hb.
    replace (count + 1 =? total) with true by (symmetry; apply Z.eqb_eq; exact Heq).
    reflexivity.
Qed.

Lemma LastInv_done {A : Type} (lastf : A -> Z) lw total out :
  1 <= lw -> 0 < total -> LastInv lastf lw total total out ->
  exists front b,
    out = front ++ [b] /\ Forall (fun x => lastf x = 0) front /\ lastf b = 1.
Proof.
  intros Hlw Hpos [_ H2]. destruct (H2 eq_refl Hpos) as (front & b & Ho & Hf & Hb).
  exists front, b. split; [exact Ho|]. split; [exact Hf|].
  rewrite Hb. apply trunc_small.
  assert (2 ^ 1 <= 2 ^ lw) by (apply Z.pow_le_mono_r; lia).
  change (2 ^ 1) with 2 in *. lia.
Qed.

Lemma rd_loop_flags p req dst fuel : forall w,
  0 <= Tb.rw_count w <= Tb.bytes_total req ->
  Tb.bytes_total req < 2 ^ 64 ->
  Tb.bytes_total req - Tb.rw_count w <= Z.of_nat fuel ->
  Forall (fun b => Tb.rp_id b = Tb.ap_id req /\
                   Tb.rp_resp b = trunc (Tb.RESP_WIDTH p) dst)
    (map fst (Tb.rw_out w)) ->
  LastInv Tb.rp_last (Tb.LAST_WIDTH p) (Tb.bytes_total req) (Tb.rw_count w)
    (map fst (Tb.rw_out w)) ->
  Forall (fun b => Tb.rp_id b = Tb.ap_id req /\
                   Tb.rp_resp b = trunc (Tb.RESP_WIDTH p) dst)
    (map fst (Tb.rw_out (Tb.rd_loop p fuel req dst w))) /\
  LastInv Tb.rp_last (Tb.LAST_WIDTH p) (Tb.bytes_total req) (Tb.bytes_total req)
    (map fst (Tb.rw_out (Tb.rd_loop p fuel req dst w))).
Proof.
  induction fuel as [|fuel IH]; intros w Hc Ht Hf Hmeta Hlast.
  - simpl. assert (E : Tb.rw_count w = Tb.bytes_total req) by lia.
    rewrite E in Hlast. split; assumption.
  - simpl. destruct (Z.ltb_spec (Tb.rw_count w) (Tb.bytes_total req)) as [Hlt|Hge].
    + assert (Hu : u64 (Tb.rw_count w + 1) = Tb.rw_count w + 1).
      { apply trunc_small. lia. }
      apply IH.
      * rewrite rd_body_count, Hu. lia.
      * exact Ht.
      * rewrite rd_body_count, Hu. lia.
      * unfold Tb.rd_body. cbv zeta.
        destruct ((_ =? 0) || (_ =? Tb.bytes_total req)); simpl; [|exact Hmeta].
        rewrite map_app. apply Forall_app. split; [exact Hmeta|].
        constructor; [|constructor]. simpl. split; reflexivity.
      * rewrite rd_body_count, Hu. unfold Tb.rd_body. cbv zeta. rewrite Hu.
        destruct ((_ =? 0) || (Tb.rw_count w + 1 =? Tb.bytes_total req)) eqn:E; simpl.
        -- rewrite map_app. simpl. apply LastInv_close; [exact Hlt | reflexivity | exact Hlast].
        -- apply orb_false_iff in E. destruct E as [_ E]. apply Z.eqb_neq in E.
           apply LastInv_keep; assumption.
    + assert (E : Tb.rw_count w = Tb.bytes_total req) by lia.
      rewrite E in Hlast. split; assumption.
Qed.

Lemma rd_expected_flags p req dst :
  Forall (fun b => Tb.rp_id b = Tb.ap_id req /\
                   Tb.rp_resp b = trunc (Tb.RESP_WIDTH p) dst)
    (map fst (Tb.rw_out (Tb.rd_expected p req dst))) /\
  LastInv Tb.rp_last (Tb.LAST_WIDTH p) (Tb.bytes_total req) (Tb.bytes_total req)
    (map fst (Tb.rw_out (Tb.rd_expected p req dst))).
Proof.
  assert (Hr : 0 <= Tb.bytes_total req < 2 ^ 64).
  { unfold Tb.bytes_total, u64, trunc. apply Z.mod_pos_bound. lia. }
  unfold Tb.rd_expected. apply rd_loop_flags; simpl; try lia.
  - constructor.
  - apply LastInv_start. lia.
Qed.

(** X3: every beat the read predictor produces carries the identifier of
    the request and, in [resp], the destination the address resolves to (in
    the width of the field); the beats end with exactly one beat whose
    [last] is 1, and [last] is 0 in every beat before it. This holds for
    every request whose len and size are in range, whatever its address and
    burst type. *)
Theorem rd_beats_flags p req dst :
  1 <= Tb.LAST_WIDTH p -> 0 <= Tb.ap_len req < 2 ^ 32 -> 0 <= Tb.ap_size req <= 7 ->
  let beats := map fst (Tb.rw_out (Tb.rd_expected p req dst)) in
  Forall (fun b => Tb.rp_id b = Tb.ap_id req /\
                   Tb.rp_resp b = trunc (Tb.RESP_WIDTH p) dst) beats /\
  exists front b,
    beats = front ++ [b] /\ Forall (fun x => Tb.rp_last x = 0) front /\
    Tb.rp_last b = 1.
Proof.
  intros Hlw Hlen Hsz. cbv zeta.
  destruct (rd_expected_flags p req dst) as [Hmeta Hlast].
  destruct (bytes_total_value req Hlen Hsz) as [_ Hpos].
  split; [exact Hmeta|].
  apply (LastInv_done Tb.rp_last (Tb.LAST_WIDTH p) (Tb.bytes_total req)); [exact Hlw | lia | exact Hlast].
Qed.

Lemma rd_beats_flags_witness :
  let beats := map fst (Tb.rw_out (Tb.rd_expected p42 req_a 1)) in
  Forall (fun b => Tb.rp_id b = Tb.ap_id req_a /\
                   Tb.rp_resp b = trunc (Tb.RESP_WIDTH p42) 1) beats /\
  exists front b,
    beats = front ++ [b] /\ Forall (fun x => Tb.rp_last x = 0) front /\
    Tb.rp_last b = 1.
Proof.
  apply (rd_beats_flags p42 req_a 1); simpl; lia.
Defined.

Lemma wr_loop_flags p mid req fuel : forall w,
  0 <= Tb.ww_count w <= Tb.bytes_total req ->
  Tb.bytes_total req < 2 ^ 64 ->
  Tb.bytes_total req - Tb.ww_count w <= Z.of_nat fuel ->
  LastInv Tb.wp_last (Tb.LAST_WIDTH p) (Tb.bytes_total req) (Tb.ww_count w)
    (Tb.ww_m_out w) ->
  LastInv Tb.wp_last (Tb.LAST_WIDTH p) (Tb.bytes_total req) (Tb.ww_count w)
    (Tb.ww_s_out w) ->
  LastInv Tb.wp_last (Tb.LAST_WIDTH p) (Tb.bytes_total req) (Tb.bytes_total req)
    (Tb.ww_m_out (Tb.wr_loop p fuel mid req w)) /\
  LastInv Tb.wp_last (Tb.LAST_WIDTH p) (Tb.bytes_total req) (Tb.bytes_total req)
    (Tb.ww_s_out (Tb.wr_loop p fuel mid req w)).
Proof.
  induction fuel as [|fuel IH]; intros w Hc Ht Hf Hm Hs.
  - simpl. assert (E : Tb.ww_count w = Tb.bytes_total req) by lia.
    rewrite E in Hm, Hs. split; assumption.
  - simpl. destruct (Z.ltb_spec (Tb.ww_count w) (Tb.bytes_total req)) as [Hlt|Hge].
    + assert (Hu : u64 (Tb.ww_count w + 1) = Tb.ww_count w + 1).
      { apply trunc_small. lia. }
      apply IH.
      * rewrite wr_body_count, Hu. lia.
      * exact Ht.
      * rewrite wr_body_count, Hu. lia.
      * rewrite wr_body_count, Hu. unfold Tb.wr_body. cbv zeta. simpl. rewrite Hu.
        destruct ((_ =? 0) || (Tb.ww_count w + 1 =? Tb.bytes_total req)) eqn:E.
        -- apply LastInv_close; [exact Hlt | reflexivity | exact Hm].
        -- apply orb_false_iff in E. destruct E as [_ E]. apply Z.eqb_neq in E.
           apply LastInv_keep; assumption.
      * rewrite wr_body_count, Hu. unfold Tb.wr_body. cbv zeta. simpl. rewrite Hu.
        destruct ((_ mod Z.shiftl 1 (Tb.wr_s_size p _) =? 0) ||
                  (Tb.ww_count w + 1 =? Tb.bytes_total req)) eqn:E.
        -- apply LastInv_close; [exact Hlt | reflexivity | exact Hs].
        -- apply orb_false_iff in E. destruct E as [_ E]. apply Z.eqb_neq in E.
           apply LastInv_keep; assumption.
    + assert (E : Tb.ww_count w = Tb.bytes_total req) by lia.
      rewrite E in Hm, Hs. split; assumption.
Qed.

(** X4: the write generator closes both sequences of data beats, the one
    it injects and the one it expects at the slave, with exactly one beat
    whose [last] is 1; every beat before it has [last] 0. This holds for
    every request whose len and size are in range, whatever its address and
    burst type. *)
Theorem wr_beats_last p mid req :
  1 <= Tb.LAST_WIDTH p -> 0 <= Tb.ap_len req < 2 ^ 32 -> 0 <= Tb.ap_size req <= 7 ->
  let w := Tb.wr_expected p mid req in
  (exists front b,
     Tb.ww_m_out w = front ++ [b] /\ Forall (fun x => Tb.wp_last x = 0) front /\
     Tb.wp_last b = 1) /\
  (exists front b,
     Tb.ww_s_out w = front ++ [b] /\ Forall (fun x => Tb.wp_last x = 0) front /\
     Tb.wp_last b = 1).
Proof.
  intros Hlw Hlen Hsz. cbv zeta.
  destruct (bytes_total_value req Hlen Hsz) as [_ Hpos].
  destruct (wr_loop_flags p mid req (Z.to_nat (Tb.bytes_total req))
    {| Tb.ww_count := 0; Tb.ww_m_ptr := Tb.wr_m_init_ptr p req;
       Tb.ww_s_ptr := Tb.wr_s_init_ptr p req;
       Tb.cur_beat := {| Tb.wp_data := trunc (Tb.DATA_WIDTH p) 0; Tb.wp_last := 0;
                         Tb.wp_wstrb := trunc (Tb.WSTRB_WIDTH p) 0 |};
       Tb.beat_at_slave := {| Tb.wp_data := trunc (Tb.DATA_WIDTH p) 0; Tb.wp_last := 0;
                              Tb.wp_wstrb := trunc (Tb.WSTRB_WIDTH p) 0 |};
       Tb.ww_m_out := []; Tb.ww_s_out := [] |}) as [Hm Hs]; simpl; try lia.
  - apply LastInv_start. lia.
  - apply LastInv_start. lia.
  - split.
    + apply (LastInv_done Tb.wp_last (Tb.LAST_WIDTH p) (Tb.bytes_total req));
        [exact Hlw | lia | exact Hm].
    + apply (LastInv_done Tb.wp_last (Tb.LAST_WIDTH p) (Tb.bytes_total req));
        [exact Hlw | lia | exact Hs].
Qed.

Lemma wr_beats_last_witness :
  let w := Tb.wr_expected p42 1 req_a in
  (exists front b,
     Tb.ww_m_out w = front ++ [b] /\ Forall (fun x => Tb.wp_last x = 0) front /\
     Tb.wp_last b = 1) /\
  (exists front b,
     Tb.ww_s_out w = front ++ [b] /\ Forall (fun x => Tb.wp_last x = 0) front /\
     Tb.wp_last b = 1).
Proof.
  apply (wr_beats_last p42 1 req_a); simpl; lia.
Defined.

(** * The beats of the write data, one by one *)

Lemma in_window_range base j l :
  in_window base j l = true <-> base <= l < base + j.
Proof.
  unfold in_window. rewrite andb_true_iff, Z.leb_le, Z.ltb_lt. tauto.
Qed.

Lemma Open_ext n byte byte' base j data strb :
  (forall t, 0 <= t < j -> byte t = byte' t) ->
  Open n byte base j data strb -> Open n byte' base j data strb.
Proof.
  intros He Ho l Hl. destruct (Ho l Hl) as [Hs Hd]. split; [exact Hs|].
  rewrite Hd. destruct (in_window base j l) eqn:E; [|reflexivity].
  apply in_window_range in E. apply He. lia.
Qed.

Lemma wr_expected_beats p mid req :
  wr_params_ok p = true ->
  0 <= Tb.ap_size req <= Tb.my_log2c (Tb.WR_M_LANES p) ->
  0 <= Tb.ap_len req < 2 ^ 32 ->
  Tb.ap_addr req mod Tb.WR_M_LANES p = 0 ->
  let total := (Tb.ap_len req + 1) * 2 ^ Tb.ap_size req in
  let m2 := 2 ^ Tb.ap_size req in
  let s2 := 2 ^ Tb.wr_s_size p (Tb.ap_size req) in
  let fixed := Tb.ap_burst req =? Tb.FIXED in
  let w := Tb.wr_expected p mid req in
  Z.of_nat (length (Tb.ww_m_out w)) * m2 = total /\
  Z.of_nat (length (Tb.ww_s_out w)) * s2 = total /\
  (forall i, 0 <= i < Z.of_nat (length (Tb.ww_m_out w)) ->
     Open (Tb.WSTRB_WIDTH p) (fun t => wr_byte mid total (i * m2 + t))
       (side_base (Tb.WR_M_LANES p) m2 0 fixed i) m2
       (Tb.wp_data (wr_beat (Tb.ww_m_out w) i))
       (Tb.wp_wstrb (wr_beat (Tb.ww_m_out w) i))) /\
  (forall i, 0 <= i < Z.of_nat (length (Tb.ww_s_out w)) ->
     Open (Tb.WSTRB_WIDTH p) (fun t => wr_byte mid total (i * s2 + t))
       (side_base (Tb.WR_S_LANES p) s2 (Tb.ap_addr req mod Tb.WR_S_LANES p) fixed i) s2
       (Tb.wp_data (wr_beat (Tb.ww_s_out w) i))
       (Tb.wp_wstrb (wr_beat (Tb.ww_s_out w) i))).
Proof.
  intros Hok Hsz Hlen Haddr.
  unfold wr_params_ok in Hok. rewrite !andb_true_iff, !Z.leb_le in Hok.
  destruct Hok as ((((Hlanes & Hwidths) & Hmn) & Hsn) & Hdw).
  apply lanes_ok_spec in Hlanes. destruct Hlanes as (Hm & HL & Hs & HLS & Hms).
  set (L := Tb.my_log2c (Tb.WR_M_LANES p)) in *.
  set (LS := Tb.my_log2c (Tb.WR_S_LANES p)) in *.
  destruct (bytes_total_value req Hlen) as [Htot Htr]; [lia|].
  assert (Hu8 : u8 (Tb.ap_size req) = Tb.ap_size req).
  { apply trunc_small. lia. }
  assert (Hsh : Z.shiftl 1 (u8 (Tb.ap_size req)) = 2 ^ Tb.ap_size req).
  { rewrite Hu8. apply shiftl_1. lia. }
  destruct (wr_s_size_bounds p (Tb.ap_size req) Hs) as (Hss & HssL & _); [lia|lia|].
  set (ssz := Tb.wr_s_size p (Tb.ap_size req)) in *.
  assert (Hshs : Z.shiftl 1 (Tb.wr_s_size p (u8 (Tb.ap_size req))) = 2 ^ ssz).
  { rewrite Hu8. apply shiftl_1. lia. }
  assert (Hm2 : 0 < 2 ^ Tb.ap_size req) by (apply Z.pow_pos_nonneg; lia).
  assert (Hs2 : 0 < 2 ^ ssz) by (apply Z.pow_pos_nonneg; lia).
  assert (Hm128 : 0 < Tb.WR_M_LANES p <= 128).
  { rewrite Hm. split; [apply Z.pow_pos_nonneg; lia|].
    change 128 with (2 ^ 7). apply Z.pow_le_mono_r; lia. }
  assert (Hs128 : 0 < Tb.WR_S_LANES p <= 128).
  { rewrite Hs. split; [apply Z.pow_pos_nonneg; lia|].
    change 128 with (2 ^ 7). apply Z.pow_le_mono_r; lia. }
  assert (Hminit : Tb.wr_m_init_ptr p req = 0).
  { unfold Tb.wr_m_init_ptr. rewrite Haddr. apply trunc_0. }
  assert (Hsr : 0 <= Tb.ap_addr req mod Tb.WR_S_LANES p < Tb.WR_S_LANES p).
  { apply Z.mod_pos_bound. lia. }
  assert (Hsinit : Tb.wr_s_init_ptr p req = Tb.ap_addr req mod Tb.WR_S_LANES p).
  { unfold Tb.wr_s_init_ptr. apply trunc_small. lia. }
  assert (Hsal : Tb.wr_s_init_ptr p req mod 2 ^ ssz = 0).
  { rewrite Hsinit.
    rewrite Z.mod_mod_divide by (rewrite Hs; apply pow2_divide; lia).
    apply Z.mod_divide; [lia|].
    apply Z.divide_trans with (Tb.WR_M_LANES p).
    - rewrite Hm. apply pow2_divide. lia.
    - apply Z.mod_divide; [lia | exact Haddr]. }
  assert (Hslm : Tb.WR_S_LANES p mod 2 ^ ssz = 0).
  { rewrite Hs. apply pow2_mod. lia. }
  assert (Htm : Tb.bytes_total req mod 2 ^ Tb.ap_size req = 0).
  { rewrite Htot. apply Z.mod_mul. lia. }
  assert (Hts : Tb.bytes_total req mod 2 ^ ssz = 0).
  { rewrite Htot.
    replace (2 ^ Tb.ap_size req) with (2 ^ (Tb.ap_size req - ssz) * 2 ^ ssz)
      by (rewrite <- Z.pow_add_r by lia; f_equal; lia).
    rewrite Z.mul_assoc. apply Z.mod_mul. lia. }
  destruct (wr_loop_inv p mid req) with
    (fuel := Z.to_nat (Tb.bytes_total req))
    (w := {| Tb.ww_count := 0; Tb.ww_m_ptr := Tb.wr_m_init_ptr p req;
             Tb.ww_s_ptr := Tb.wr_s_init_ptr p req;
             Tb.cur_beat := {| Tb.wp_data := trunc (Tb.DATA_WIDTH p) 0; Tb.wp_last := 0;
                               Tb.wp_wstrb := trunc (Tb.WSTRB_WIDTH p) 0 |};
             Tb.beat_at_slave := {| Tb.wp_data := trunc (Tb.DATA_WIDTH p) 0;
                                    Tb.wp_last := 0;
                                    Tb.wp_wstrb := trunc (Tb.WSTRB_WIDTH p) 0 |};
             Tb.ww_m_out := []; Tb.ww_s_out := [] |}) as [_ [Hfm Hfs]].
  - rewrite Hsh. exact Hm2.
  - rewrite Hshs. exact Hs2.
  - lia.
  - lia.
  - exact Hmn.
  - exact Hsn.
  - exact Hdw.
  - rewrite Hsh, Hm. apply pow2_mod. lia.
  - rewrite Hshs. exact Hslm.
  - rewrite Hsh. exact Htm.
  - rewrite Hshs. exact Hts.
  - lia.
  - unfold wr_m_side. simpl. rewrite !trunc_0. apply SideInv_start.
    + rewrite Hsh. exact Hm2.
    + rewrite Hminit. lia.
    + rewrite Hminit. apply Zmod_0_l.
    + rewrite Hminit, Hsh.
      apply aligned_fits; try lia; [apply Zmod_0_l | rewrite Hm; apply pow2_mod; lia].
  - unfold wr_s_side. simpl. rewrite !trunc_0. apply SideInv_start.
    + rewrite Hshs. exact Hs2.
    + rewrite Hsinit. lia.
    + rewrite Hshs. exact Hsal.
    + rewrite Hshs. apply aligned_fits; try assumption. rewrite Hsinit. lia.
  - simpl. lia.
  - simpl. lia.
  - fold (Tb.wr_expected p mid req) in Hfm, Hfs.
    rewrite Hsh, Hminit in Hfm. rewrite Hshs, Hsinit in Hfs.
    apply SideInv_done in Hfm; [|exact Hm2|lia|exact Htm].
    apply SideInv_done in Hfs; [|exact Hs2|lia|exact Hts].
    destruct Hfm as (_ & Hl1 & Hb1). destruct Hfs as (_ & Hl2 & Hb2).
    cbv zeta. fold ssz.
    unfold wr_m_side in Hl1, Hb1. unfold wr_s_side in Hl2, Hb2.
    simpl in Hl1, Hb1, Hl2, Hb2. rewrite length_map in Hl1, Hb1, Hl2, Hb2.
    rewrite Htot in Hl1, Hl2.
    split; [exact Hl1|]. split; [exact Hl2|].
    assert (Hbyte : forall s2 i t, 0 < s2 -> 0 <= i ->
              (i + 1) * s2 <= Tb.bytes_total req -> 0 <= t < s2 ->
              Z.land (Tb.byte_to_write mid (Tb.bytes_total req) (i * s2 + t)) 255 =
              wr_byte mid ((Tb.ap_len req + 1) * 2 ^ Tb.ap_size req) (i * s2 + t)).
    { intros s2 i t Hs2' Hi Hle Ht. rewrite <- Htot.
      apply byte_to_write_value; [lia | nia]. }
    split.
    + intros i Hi. specialize (Hb1 i Hi).
      change (0, 0) with
        ((fun b => (Tb.wp_data b, Tb.wp_wstrb b))
           {| Tb.wp_data := 0; Tb.wp_last := 0; Tb.wp_wstrb := 0 |}) in Hb1.
      rewrite map_nth in Hb1. simpl in Hb1. unfold wr_beat.
      revert Hb1. apply Open_ext. intros t Ht.
      apply Hbyte; [exact Hm2 | lia | rewrite Htot; nia | exact Ht].
    + intros i Hi. specialize (Hb2 i Hi).
      change (0, 0) with
        ((fun b => (Tb.wp_data b, Tb.wp_wstrb b))
           {| Tb.wp_data := 0; Tb.wp_last := 0; Tb.wp_wstrb := 0 |}) in Hb2.
      rewrite map_nth in Hb2. simpl in Hb2. unfold wr_beat.
      revert Hb2. apply Open_ext. intros t Ht.
      apply Hbyte; [exact Hs2 | lia | rewrite Htot; nia | exact Ht].
Qed.

Lemma wr_req_legal p m d :
  wr_params_ok p = true -> Tb.reachable p m ->
  1 <= Tb.ap_size (Tb.wr_req p m d) <= Tb.my_log2c (Tb.WR_M_LANES p) /\
  0 <= Tb.ap_len (Tb.wr_req p m d) <= 3 /\
  Tb.ap_addr (Tb.wr_req p m d) mod Tb.WR_M_LANES p = 0.
Proof.
  intros Hok Hreach.
  unfold wr_params_ok in Hok. rewrite !andb_true_iff in Hok.
  destruct Hok as ((((Hlanes & Hwidths) & _) & _) & _).
  pose proof Hlanes as Hlanes'.
  apply lanes_ok_spec in Hlanes. destruct Hlanes as (Hm & HL & Hs & HLS & Hms).
  apply widths_ok_spec in Hwidths. destruct Hwidths as (HA & HAd & HAl & Hdw).
  split; [|split].
  - apply gen_req_size; lia.
  - apply gen_req_len; [exact Hlanes' | lia].
  - apply gen_req_addr; try assumption; try lia.
    apply (proj2 (reachable_gen_addr p m Hreach)); [assumption | lia].
Qed.

Lemma rd_req_legal p m d :
  rd_params_ok p = true -> Tb.reachable p m ->
  1 <= Tb.ap_size (Tb.rd_req p m d) <= Tb.my_log2c (Tb.RD_M_LANES p) /\
  0 <= Tb.ap_len (Tb.rd_req p m d) <= 3 /\
  Tb.ap_addr (Tb.rd_req p m d) mod Tb.RD_M_LANES p = 0.
Proof.
  intros Hok Hreach.
  unfold rd_params_ok in Hok. apply andb_true_iff in Hok. destruct Hok as [Hlanes Hwidths].
  pose proof Hlanes as Hlanes'.
  apply lanes_ok_spec in Hlanes. destruct Hlanes as (Hm & HL & Hs & HLS & Hms).
  apply widths_ok_spec in Hwidths. destruct Hwidths as (HA & HAd & HAl & Hdw).
  split; [|split].
  - apply gen_req_size; lia.
  - apply gen_req_len; [exact Hlanes' | lia].
  - apply gen_req_addr; try assumption; try lia.
    apply (proj1 (reachable_gen_addr p m Hreach)); [assumption | lia].
Qed.

Lemma slave_equiv_bytes s len size :
  s = 2 ^ Tb.my_log2c s -> 0 <= Tb.my_log2c s -> 0 <= size -> 0 <= len ->
  (snd (slave_equiv s len size) + 1) * 2 ^ fst (slave_equiv s len size) =
  (len + 1) * 2 ^ size.
Proof.
  intros Hs HLS Hsz Hlen. unfold slave_equiv.
  destruct (Z.ltb_spec s (2 ^ size)) as [Hlt|Hge]; simpl; [|reflexivity].
  rewrite Hs in Hlt. apply Z.pow_lt_mono_r_iff in Hlt; [|lia|lia].
  rewrite Z.shiftl_mul_pow2 by lia.
  replace (2 ^ size) with (2 ^ (size - Tb.my_log2c s) * 2 ^ Tb.my_log2c s)
    by (rewrite <- Z.pow_add_r by lia; f_equal; lia).
  ring.
Qed.

Lemma wr_gen_counts p m d :
  wr_params_ok p = true -> Tb.reachable p m ->
  let req := Tb.wr_req p m d in
  let w := Tb.wr_expected p (Tb.MASTER_ID m) req in
  Z.of_nat (length (Tb.ww_m_out w)) = Tb.ap_len req + 1 /\
  Z.of_nat (length (Tb.ww_s_out w)) = Tb.ap_len (Tb.wr_req_s p req) + 1 /\
  Tb.ap_size (Tb.wr_req_s p req) = Tb.wr_s_size p (Tb.ap_size req).
Proof.
  intros Hok Hreach. cbv zeta.
  destruct (wr_req_legal p m d Hok Hreach) as (Hsz & Hlen & Haddr).
  destruct (wr_expected_beats p (Tb.MASTER_ID m) (Tb.wr_req p m d) Hok)
    as (Hn1 & Hn2 & _); [lia | lia | exact Haddr |].
  unfold wr_params_ok in Hok. rewrite !andb_true_iff in Hok.
  destruct Hok as ((((Hlanes & Hwidths) & _) & _) & _).
  pose proof (wr_req_s_equiv p (Tb.wr_req p m d) Hlanes Hwidths Hsz Hlen) as He.
  apply lanes_ok_spec in Hlanes. destruct Hlanes as (Hm & HL & Hs & HLS & Hms).
  destruct (wr_s_size_bounds p (Tb.ap_size (Tb.wr_req p m d)) Hs) as (Hss & _ & Hsv);
    [lia|lia|].
  pose proof (slave_equiv_bytes (Tb.WR_S_LANES p) (Tb.ap_len (Tb.wr_req p m d))
                (Tb.ap_size (Tb.wr_req p m d)) Hs) as Hb.
  pose proof (f_equal fst He) as He1. pose proof (f_equal snd He) as He2.
  cbn [fst snd] in He1, He2. rewrite <- He1, <- He2 in Hb.
  assert (Hsize : Tb.ap_size (Tb.wr_req_s p (Tb.wr_req p m d)) =
                  Tb.wr_s_size p (Tb.ap_size (Tb.wr_req p m d))).
  { rewrite Hsv, He1. unfold slave_equiv. destruct (_ <? _); reflexivity. }
  rewrite Hsize in Hb.
  assert (Hp1 : 0 < 2 ^ Tb.ap_size (Tb.wr_req p m d)) by (apply Z.pow_pos_nonneg; lia).
  assert (Hp2 : 0 < 2 ^ Tb.wr_s_size p (Tb.ap_size (Tb.wr_req p m d)))
    by (apply Z.pow_pos_nonneg; lia).
  split; [nia|]. split; [|exact Hsize].
  specialize (Hb ltac:(lia) ltac:(lia) ltac:(lia)).
  rewrite <- Hb in Hn2. apply Z.mul_cancel_r in Hn2; lia.
Qed.

(** X5: for every write transaction the generator produces (from any
    reachable state, once the address resolves to a destination), the call
    runs to its end, queues the request and its data beats for injection
    and pushes the slave-side request and the data beats expected at the
    slave to the scoreboard queues of the destination; the number of data
    beats queued for injection is the len of the request plus one, and the
    number of data beats expected at the destination is the len of the
    slave-side request pushed to the scoreboard plus one: the request and
    the data the slave is told to expect agree, with and without
    downsizing. *)
Theorem wr_beat_counts p m sb d dst :
  wr_params_ok p = true -> Tb.reachable p m -> Tb.rand_ok d ->
  Tb.mem_map_resolve p (Tb.ap_addr (Tb.wr_req p m d)) = Some dst ->
  let req := Tb.wr_req p m d in
  let w := Tb.wr_expected p (Tb.MASTER_ID m) req in
  (exists m' sb',
     Tb.gen_new_wr_trans p m sb d = Ok (m', sb') /\
     Tb.stored_wr_trans m' = Tb.stored_wr_trans m ++ [req] /\
     Tb.stored_wr_data m' = Tb.stored_wr_data m ++ Tb.ww_m_out w /\
     Tb.sb_wr_req_q sb' =
       upd_at (Z.to_nat dst) (fun q => q ++ [Tb.wr_req_s p req]) (Tb.sb_wr_req_q sb) /\
     Tb.sb_wr_data_q sb' =
       upd_at (Z.to_nat dst) (fun q => q ++ Tb.ww_s_out w) (Tb.sb_wr_data_q sb)) /\
  Z.of_nat (length (Tb.ww_m_out w)) = Tb.ap_len req + 1 /\
  Z.of_nat (length (Tb.ww_s_out w)) = Tb.ap_len (Tb.wr_req_s p req) + 1.
Proof.
  intros Hok Hreach Hd Hres. cbv zeta.
  destruct (wr_gen_counts p m d Hok Hreach) as (H1 & H2 & _).
  split; [|split; assumption].
  unfold Tb.gen_new_wr_trans. cbv zeta.
  change (Tb.ap_addr (Tb.wr_req_s p (Tb.wr_req p m d)))
    with (Tb.ap_addr (Tb.wr_req p m d)).
  rewrite Hres. eexists. eexists. split; [reflexivity|].
  split; [reflexivity|]. split; [reflexivity|]. split; reflexivity.
Qed.

Lemma wr_beat_counts_witness :
  let req := Tb.wr_req p42 m_injected d_wide in
  let w := Tb.wr_expected p42 (Tb.MASTER_ID m_injected) req in
  (exists m' sb',
     Tb.gen_new_wr_trans p42 m_injected sb_pending d_wide = Ok (m', sb') /\
     Tb.stored_wr_trans m' = Tb.stored_wr_trans m_injected ++ [req] /\
     Tb.stored_wr_data m' = Tb.stored_wr_data m_injected ++ Tb.ww_m_out w /\
     Tb.sb_wr_req_q sb' =
       upd_at (Z.to_nat 1) (fun q => q ++ [Tb.wr_req_s p42 req]) (Tb.sb_wr_req_q sb_pending) /\
     Tb.sb_wr_data_q sb' =
       upd_at (Z.to_nat 1) (fun q => q ++ Tb.ww_s_out w) (Tb.sb_wr_data_q sb_pending)) /\
  Z.of_nat (length (Tb.ww_m_out w)) = Tb.ap_len req + 1 /\
  Z.of_nat (length (Tb.ww_s_out w)) = Tb.ap_len (Tb.wr_req_s p42 req) + 1.
Proof.
  apply (wr_beat_counts p42 m_injected sb_pending d_wide 1).
  - reflexivity.
  - exact m_injected_reachable.
  - unfold Tb.rand_ok. simpl. lia.
  - reflexivity.
Defined.

Lemma aligned_window x s2 lanes :
  0 < s2 -> 0 < lanes -> lanes mod s2 = 0 -> x mod s2 = 0 ->
  0 <= x mod lanes /\ x mod lanes + s2 <= lanes.
Proof.
  intros Hs Hl Hlm Hx.
  pose proof (Z.mod_pos_bound x lanes Hl) as Hr.
  split; [lia|]. apply aligned_fits; try assumption; try lia.
  rewrite Z.mod_mod_divide by (apply Z.mod_divide; [lia | exact Hlm]).
  exact Hx.
Qed.

(** X6: for every write transaction the generator produces, each data beat
    strobes exactly the lanes of its window and is zero on every other
    lane: at the master the window of beat [i] has [2 ^ size] lanes and
    starts at lane 0 for a FIXED burst and at [i * 2 ^ size] modulo the
    master lane count otherwise; at the slave it has as many lanes as the
    slave-side size says and starts at the offset of the address in the
    slave lanes, advanced one window per beat (not advanced for FIXED).
    Every window lies inside the lanes of its side. *)
Theorem wr_beats_strobes p m d :
  wr_params_ok p = true -> Tb.reachable p m -> Tb.rand_ok d ->
  let req := Tb.wr_req p m d in
  let w := Tb.wr_expected p (Tb.MASTER_ID m) req in
  (forall i l, 0 <= i <= Tb.ap_len req -> 0 <= l < Tb.WSTRB_WIDTH p ->
     Z.testbit (Tb.wp_wstrb (wr_beat (Tb.ww_m_out w) i)) l =
       in_window (wr_m_lane p req i) (2 ^ Tb.ap_size req) l /\
     (in_window (wr_m_lane p req i) (2 ^ Tb.ap_size req) l = false ->
      get_byte (Tb.wp_data (wr_beat (Tb.ww_m_out w) i)) l = 0)) /\
  (forall i l, 0 <= i <= Tb.ap_len (Tb.wr_req_s p req) -> 0 <= l < Tb.WSTRB_WIDTH p ->
     Z.testbit (Tb.wp_wstrb (wr_beat (Tb.ww_s_out w) i)) l =
       in_window (wr_s_lane p req i) (2 ^ Tb.ap_size (Tb.wr_req_s p req)) l /\
     (in_window (wr_s_lane p req i) (2 ^ Tb.ap_size (Tb.wr_req_s p req)) l = false ->
      get_byte (Tb.wp_data (wr_beat (Tb.ww_s_out w) i)) l = 0)) /\
  (forall i,
     0 <= wr_m_lane p req i /\
     wr_m_lane p req i + 2 ^ Tb.ap_size req <= Tb.WR_M_LANES p) /\
  (forall i,
     0 <= wr_s_lane p req i /\
     wr_s_lane p req i + 2 ^ Tb.ap_size (Tb.wr_req_s p req) <= Tb.WR_S_LANES p).
Proof.
  intros Hok Hreach Hd. cbv zeta.
  destruct (wr_req_legal p m d Hok Hreach) as (Hsz & Hlen & Haddr).
  destruct (wr_gen_counts p m d Hok Hreach) as (Hc1 & Hc2 & Hsize).
  destruct (wr_expected_beats p (Tb.MASTER_ID m) (Tb.wr_req p m d) Hok)
    as (_ & _ & Hb1 & Hb2); [lia | lia | exact Haddr |].
  set (req := Tb.wr_req p m d) in *.
  unfold wr_params_ok in Hok. rewrite !andb_true_iff in Hok.
  destruct Hok as ((((Hlanes & _) & _) & _) & _).
  apply lanes_ok_spec in Hlanes. destruct Hlanes as (Hm & HL & Hs & HLS & Hms).
  destruct (wr_s_size_bounds p (Tb.ap_size req) Hs) as (Hss & HssL & _); [lia|lia|].
  rewrite Hsize.
  set (ssz := Tb.wr_s_size p (Tb.ap_size req)) in *.
  assert (Hm2 : 0 < 2 ^ Tb.ap_size req) by (apply Z.pow_pos_nonneg; lia).
  assert (Hs2 : 0 < 2 ^ ssz) by (apply Z.pow_pos_nonneg; lia).
  assert (Hmpos : 0 < Tb.WR_M_LANES p) by (rewrite Hm; apply Z.pow_pos_nonneg; lia).
  assert (Hspos : 0 < Tb.WR_S_LANES p) by (rewrite Hs; apply Z.pow_pos_nonneg; lia).
  assert (Hbm : forall i,
            side_base (Tb.WR_M_LANES p) (2 ^ Tb.ap_size req) 0
              (Tb.ap_burst req =? Tb.FIXED) i = wr_m_lane p req i).
  { intros i. unfold side_base, wr_m_lane. reflexivity. }
  assert (Hbs : forall i,
            side_base (Tb.WR_S_LANES p) (2 ^ ssz) (Tb.ap_addr req mod Tb.WR_S_LANES p)
              (Tb.ap_burst req =? Tb.FIXED) i = wr_s_lane p req i).
  { intros i. unfold side_base, wr_s_lane. rewrite Hsize. reflexivity. }
  split; [|split; [|split]].
  - intros i l Hi Hl. specialize (Hb1 i ltac:(lia)).
    destruct (Hb1 l Hl) as [Ht Hg]. rewrite Hbm in Ht, Hg.
    split; [exact Ht|]. intros Hout. rewrite Hg, Hout. reflexivity.
  - intros i l Hi Hl. specialize (Hb2 i ltac:(lia)).
    destruct (Hb2 l Hl) as [Ht Hg]. rewrite Hbs in Ht, Hg.
    split; [exact Ht|]. intros Hout. rewrite Hg, Hout. reflexivity.
  - intros i. unfold wr_m_lane. destruct (Tb.ap_burst req =? Tb.FIXED).
    + split; [lia|]. apply aligned_fits; try lia; [apply Zmod_0_l|].
      rewrite Hm. apply pow2_mod. lia.
    + apply aligned_window; try assumption.
      * rewrite Hm. apply pow2_mod. lia.
      * apply Z.mod_mul. lia.
  - assert (Hal : Tb.ap_addr req mod 2 ^ ssz = 0).
    { apply Z.mod_divide; [lia|].
      apply Z.divide_trans with (Tb.WR_M_LANES p).
      - rewrite Hm. apply pow2_divide. lia.
      - apply Z.mod_divide; [lia | exact Haddr]. }
    assert (Hslm : Tb.WR_S_LANES p mod 2 ^ ssz = 0).
    { rewrite Hs. apply pow2_mod. lia. }
    intros i. unfold wr_s_lane. rewrite Hsize. fold ssz.
    destruct (Tb.ap_burst req =? Tb.FIXED).
    + apply aligned_window; assumption.
    + rewrite Z.add_mod_idemp_l by lia.
      apply aligned_window; try assumption.
      rewrite Z.mod_add by lia. exact Hal.
Qed.

Lemma wr_beats_strobes_witness :
  let req := Tb.wr_req p42 m_injected d_wide in
  let w := Tb.wr_expected p42 (Tb.MASTER_ID m_injected) req in
  (forall i l, 0 <= i <= Tb.ap_len req -> 0 <= l < Tb.WSTRB_WIDTH p42 ->
     Z.testbit (Tb.wp_wstrb (wr_beat (Tb.ww_m_out w) i)) l =
       in_window (wr_m_lane p42 req i) (2 ^ Tb.ap_size req) l /\
     (in_window (wr_m_lane p42 req i) (2 ^ Tb.ap_size req) l = false ->
      get_byte (Tb.wp_data (wr_beat (Tb.ww_m_out w) i)) l = 0)) /\
  (forall i l, 0 <= i <= Tb.ap_len (Tb.wr_req_s p42 req) -> 0 <= l < Tb.WSTRB_WIDTH p42 ->
     Z.testbit (Tb.wp_wstrb (wr_beat (Tb.ww_s_out w) i)) l =
       in_window (wr_s_lane p42 req i) (2 ^ Tb.ap_size (Tb.wr_req_s p42 req)) l /\
     (in_window (wr_s_lane p42 req i) (2 ^ Tb.ap_size (Tb.wr_req_s p42 req)) l = false ->
      get_byte (Tb.wp_data (wr_beat (Tb.ww_s_out w) i)) l = 0)) /\
  (forall i,
     0 <= wr_m_lane p42 req i /\
     wr_m_lane p42 req i + 2 ^ Tb.ap_size req <= Tb.WR_M_LANES p42) /\
  (forall i,
     0 <= wr_s_lane p42 req i /\
     wr_s_lane p42 req i + 2 ^ Tb.ap_size (Tb.wr_req_s p42 req) <= Tb.WR_S_LANES p42).
Proof.
  apply (wr_beats_strobes p42 m_injected d_wide).
  - reflexivity.
  - exact m_injected_reachable.
  - unfold Tb.rand_ok. simpl. lia.
Defined.

(** * The lanes a read beat leaves alone *)

(** X7: in every beat the read predictor produces for a generated
    request, each lane of the data word outside the window of the beat is
    zero ([eq_rd_data] compares whole data words, so these lanes take part
    in the comparison). *)
Theorem rd_beats_idle_lanes p m d dst :
  rd_params_ok p = true -> Tb.reachable p m -> Tb.rand_ok d ->
  let req := Tb.rd_req p m d in
  let w := Tb.rd_expected p req dst in
  forall i l, 0 <= i <= Tb.ap_len req -> 0 <= l < Tb.RD_M_LANES p ->
    in_window (rd_lane p req i) (2 ^ Tb.ap_size req) l = false ->
    get_byte (Tb.rp_data (rd_beat (Tb.rw_out w) i)) l = 0.
Proof.
  intros Hok Hreach Hd. cbv zeta.
  destruct (rd_req_legal p m d Hok Hreach) as (Hsz & Hlen & Haddr).
  set (req := Tb.rd_req p m d) in *.
  unfold rd_params_ok in Hok. apply andb_true_iff in Hok. destruct Hok as [Hlanes Hwidths].
  apply lanes_ok_spec in Hlanes. destruct Hlanes as (Hm & HL & Hs & HLS & Hms).
  apply widths_ok_spec in Hwidths. destruct Hwidths as (HA & HAd & HAl & Hdw).
  destruct (rd_expected_legal p req dst Hm) as (_ & Hcount & _);
    [lia | exact Hdw | lia | lia | exact Haddr |].
  destruct (bytes_total_value req) as [Htot Htr]; [lia | lia |].
  assert (Hu8 : u8 (Tb.ap_size req) = Tb.ap_size req).
  { apply trunc_small. lia. }
  assert (Hsh : Z.shiftl 1 (u8 (Tb.ap_size req)) = 2 ^ Tb.ap_size req).
  { rewrite Hu8. apply shiftl_1. lia. }
  assert (Hs2 : 0 < 2 ^ Tb.ap_size req) by (apply Z.pow_pos_nonneg; lia).
  assert (H128 : 0 < Tb.RD_M_LANES p <= 128).
  { rewrite Hm. split; [apply Z.pow_pos_nonneg; lia|].
    change 128 with (2 ^ 7). apply Z.pow_le_mono_r; lia. }
  assert (Hinit : Tb.rd_init_ptr p req = 0).
  { unfold Tb.rd_init_ptr. rewrite Haddr. apply trunc_0. }
  assert (Hlm : Tb.RD_M_LANES p mod 2 ^ Tb.ap_size req = 0).
  { rewrite Hm. apply pow2_mod. lia. }
  destruct (rd_expected_inv p req dst) as (_ & _ & Hbeats).
  - rewrite Hsh. exact Hs2.
  - lia.
  - exact Hdw.
  - rewrite Hsh. exact Hlm.
  - rewrite Hsh, Htot. apply Z.mod_mul. lia.
  - lia.
  - rewrite Hinit. apply Zmod_0_l.
  - rewrite Hinit. lia.
  - rewrite Hinit, Hsh. apply aligned_fits; try assumption; try lia. apply Zmod_0_l.
  - intros i l Hi Hl Hout.
    specialize (Hbeats i ltac:(lia)).
    destruct (Hbeats l Hl) as [_ Hg].
    rewrite Hinit, Hsh in Hg.
    change (side_base (Tb.RD_M_LANES p) (2 ^ Tb.ap_size req) 0
              (Tb.ap_burst req =? Tb.FIXED) i) with (rd_lane p req i) in Hg.
    rewrite Hg, Hout. reflexivity.
Qed.

Lemma rd_beats_idle_lanes_witness :
  get_byte
    (Tb.rp_data
       (rd_beat (Tb.rw_out (Tb.rd_expected p42 (Tb.rd_req p42 m_injected d_narrow) 0)) 1)) 3 = 0.
Proof.
  apply (rd_beats_idle_lanes p42 m_injected d_narrow 0).
  - reflexivity.
  - exact m_injected_reachable.
  - unfold Tb.rand_ok. simpl. lia.
  - split; apply Z.leb_le; vm_compute; reflexivity.
  - split; apply Z.leb_le || apply Z.ltb_lt; vm_compute; reflexivity.
  - vm_compute. reflexivity.
Defined.

(** * The length rules of the generators *)

Lemma lanes_ratio m s :
  lanes_ok m s = true -> s < m ->
  m / s = 2 ^ (Tb.my_log2c m - Tb.my_log2c s) /\
  1 <= Tb.my_log2c m - Tb.my_log2c s <= 2.
Proof.
  intros Hok Hlt. apply lanes_ok_spec in Hok.
  destruct Hok as (Hm & HL & Hs & HLS & Hms).
  set (L := Tb.my_log2c m) in *. set (LS := Tb.my_log2c s) in *.
  assert (HLS1 : LS < L).
  { apply (Z.pow_lt_mono_r_iff 2); [lia | lia | rewrite <- Hm, <- Hs; exact Hlt]. }
  assert (HLS2 : L <= LS + 2).
  { apply (Z.pow_le_mono_r_iff 2); [lia | lia |].
    rewrite <- Hm. rewrite Z.pow_add_r by lia. rewrite <- Hs. lia. }
  split; [|lia].
  rewrite Hm at 1. rewrite Hs at 1. symmetry. apply Z.pow_sub_r; lia.
Qed.

Lemma gen_len_incr_cap m s r :
  lanes_ok m s = true -> s < m ->
  (Tb.gen_len m s Tb.INCR r + 1) * (m / s) <= Tb.AXI4_MAX_INCR_LEN.
Proof.
  intros Hok Hlt. destruct (lanes_ratio m s Hok Hlt) as [Hq Hk].
  unfold Tb.gen_len. change (Tb.INCR =? Tb.WRAP) with false.
  change (Tb.INCR =? Tb.FIXED) with false. cbv iota.
  replace (s <? m) with true by (symmetry; apply Z.ltb_lt; exact Hlt).
  change Tb.AXI4_MAX_INCR_LEN with 4. rewrite Hq.
  assert (Hc : Tb.my_log2c m - Tb.my_log2c s = 1 \/ Tb.my_log2c m - Tb.my_log2c s = 2) by lia.
  destruct Hc as [-> | ->].
  - change (2 ^ 1) with 2. change (4 / 2) with 2.
    pose proof (Z.mod_pos_bound r 2). lia.
  - change (2 ^ 2) with 4. change (4 / 4) with 1.
    rewrite Z.mod_1_r. lia.
Qed.

Lemma gen_req_len_value p m s g d :
  lanes_ok m s = true -> 2 <= Tb.ALEN_WIDTH p ->
  Tb.ap_len (Tb.gen_req p m s g d) =
  Tb.gen_len m s (Tb.ap_burst (Tb.gen_req p m s g d)) (Tb.d_len d).
Proof.
  intros Hok HA. unfold Tb.gen_req. simpl.
  pose proof (gen_len_small m s
    (trunc (Tb.BURST_WIDTH p) (Tb.d_burst d mod Tb.AXI_BURST_NUM)) (Tb.d_len d) Hok) as Hl.
  assert (4 <= 2 ^ Tb.ALEN_WIDTH p).
  { change 4 with (2 ^ 2). apply Z.pow_le_mono_r; lia. }
  apply trunc_small. lia.
Qed.

(** X8: the request a generator builds (for the read or the write lane
    counts) never has the reserved burst type, and its len follows its
    burst type: a WRAP burst has 1, 2 or 4 beats; an INCR burst that will
    be downsized has at most [AXI4_MAX_INCR_LEN] beats once multiplied by
    the ratio of master to slave lanes; every burst has at most four
    beats. *)
Theorem gen_len_by_burst p m_lanes s_lanes g d :
  lanes_ok m_lanes s_lanes = true -> 2 <= Tb.ALEN_WIDTH p -> Tb.rand_ok d ->
  let req := Tb.gen_req p m_lanes s_lanes g d in
  0 <= Tb.ap_burst req <= 2 /\
  (Tb.ap_burst req = Tb.WRAP ->
   Tb.ap_len req = 0 \/ Tb.ap_len req = 1 \/ Tb.ap_len req = 3) /\
  (Tb.ap_burst req = Tb.INCR -> s_lanes < m_lanes ->
   (Tb.ap_len req + 1) * (m_lanes / s_lanes) <= Tb.AXI4_MAX_INCR_LEN) /\
  0 <= Tb.ap_len req <= 3.
Proof.
  intros Hok HA Hd. cbv zeta.
  pose proof (gen_req_len_value p m_lanes s_lanes g d Hok HA) as Hlen.
  split; [|split; [|split]].
  - unfold Tb.gen_req. simpl. unfold trunc.
    change Tb.AXI_BURST_NUM with 3.
    pose proof (Z.mod_pos_bound (Tb.d_burst d) 3) as Hb.
    destruct (Z.eq_dec (2 ^ Tb.BURST_WIDTH p) 0) as [E|E].
    + rewrite E. rewrite Z.mod_0_r. lia.
    + assert (0 < 2 ^ Tb.BURST_WIDTH p).
      { pose proof (Z.pow_nonneg 2 (Tb.BURST_WIDTH p)). lia. }
      pose proof (Z.mod_pos_bound (Tb.d_burst d mod 3) (2 ^ Tb.BURST_WIDTH p)).
      pose proof (Z.mod_le (Tb.d_burst d mod 3) (2 ^ Tb.BURST_WIDTH p)). lia.
  - intros Hw. rewrite Hlen, Hw. unfold Tb.gen_len.
    change (Tb.WRAP =? Tb.WRAP) with true. cbv iota.
    change (Tb.my_log2c (Tb.AXI4_MAX_LEN + 1)) with 3.
    assert (Hr : 0 <= Tb.d_len d mod 3 < 3) by (apply Z.mod_pos_bound; lia).
    assert (Hc : Tb.d_len d mod 3 = 0 \/ Tb.d_len d mod 3 = 1 \/ Tb.d_len d mod 3 = 2) by lia.
    destruct Hc as [-> | [-> | ->]]; simpl; lia.
  - intros Hi Hlt. rewrite Hlen, Hi. apply gen_len_incr_cap; assumption.
  - apply gen_req_len; assumption.
Qed.

Lemma gen_len_by_burst_witness :
  let req := Tb.gen_req p84 8 4 0 d_wide in
  0 <= Tb.ap_burst req <= 2 /\
  (Tb.ap_burst req = Tb.WRAP ->
   Tb.ap_len req = 0 \/ Tb.ap_len req = 1 \/ Tb.ap_len req = 3) /\
  (Tb.ap_burst req = Tb.INCR -> 4 < 8 ->
   (Tb.ap_len req + 1) * (8 / 4) <= Tb.AXI4_MAX_INCR_LEN) /\
  0 <= Tb.ap_len req <= 3.
Proof.
  apply (gen_len_by_burst p84 8 4 0 d_wide).
  - reflexivity.
  - simpl. lia.
  - unfold Tb.rand_ok. simpl. lia.
Defined.

Lemma slave_equiv_incr_cap m s len size :
  lanes_ok m s = true -> 1 <= size <= Tb.my_log2c m -> 0 <= len <= 3 ->
  (s < m -> (len + 1) * (m / s) <= 4) ->
  0 <= snd (slave_equiv s len size) <= 3.
Proof.
  intros Hok Hsz Hlen Hcap. pose proof Hok as Hok'.
  apply lanes_ok_spec in Hok. destruct Hok as (Hm & HL & Hs & HLS & Hms).
  unfold slave_equiv.
  destruct (Z.ltb_spec s (2 ^ size)) as [Hlt|Hge]; simpl; [|lia].
  assert (Hsm : s < m).
  { rewrite Hm. apply Z.lt_le_trans with (2 ^ size); [exact Hlt|].
    apply Z.pow_le_mono_r; lia. }
  destruct (lanes_ratio m s Hok' Hsm) as [Hq Hk].
  specialize (Hcap Hsm). rewrite Hq in Hcap.
  rewrite Hs in Hlt. apply Z.pow_lt_mono_r_iff in Hlt; [|lia|lia].
  rewrite Z.shiftl_mul_pow2 by lia.
  assert (Hmono : 2 ^ (size - Tb.my_log2c s) <= 2 ^ (Tb.my_log2c m - Tb.my_log2c s)).
  { apply Z.pow_le_mono_r; lia. }
  assert (Hpos : 0 < 2 ^ (size - Tb.my_log2c s)) by (apply Z.pow_pos_nonneg; lia).
  nia.
Qed.

(** X9: the cap on the len of INCR bursts does what its comment says: for
    every generated INCR transaction, read or write, the slave-side request
    has at most [AXI4_MAX_INCR_LEN] beats, also after downsizing has
    multiplied the number of beats. *)
Theorem incr_len_capped_at_slave p m d :
  rd_params_ok p = true -> wr_params_ok p = true -> Tb.rand_ok d ->
  (Tb.ap_burst (Tb.rd_req p m d) = Tb.INCR ->
   0 <= Tb.ap_len (Tb.rd_req_s p (Tb.rd_req p m d)) < Tb.AXI4_MAX_INCR_LEN) /\
  (Tb.ap_burst (Tb.wr_req p m d) = Tb.INCR ->
   0 <= Tb.ap_len (Tb.wr_req_s p (Tb.wr_req p m d)) < Tb.AXI4_MAX_INCR_LEN).
Proof.
  intros Hr Hw Hd.
  unfold rd_params_ok in Hr. apply andb_true_iff in Hr. destruct Hr as [Hrl Hrw].
  unfold wr_params_ok in Hw. rewrite !andb_true_iff in Hw.
  destruct Hw as ((((Hwl & Hww) & _) & _) & _).
  change Tb.AXI4_MAX_INCR_LEN with 4.
  split; intros Hi.
  - assert (Hsz : 1 <= Tb.ap_size (Tb.rd_req p m d) <= Tb.my_log2c (Tb.RD_M_LANES p)).
    { apply gen_req_size.
      - apply lanes_ok_spec in Hrl. lia.
      - apply widths_ok_spec in Hrw. lia. }
    assert (HA : 2 <= Tb.ALEN_WIDTH p) by (apply widths_ok_spec in Hrw; lia).
    assert (Hlen : 0 <= Tb.ap_len (Tb.rd_req p m d) <= 3) by (apply gen_req_len; assumption).
    pose proof (rd_req_s_equiv p (Tb.rd_req p m d) Hrl Hrw Hsz Hlen) as He.
    apply (f_equal snd) in He. cbn [snd] in He. rewrite He.
    assert (0 <= snd (slave_equiv (Tb.RD_S_LANES p) (Tb.ap_len (Tb.rd_req p m d))
                        (Tb.ap_size (Tb.rd_req p m d))) <= 3); [|lia].
    apply slave_equiv_incr_cap with (Tb.RD_M_LANES p); try assumption.
    intros Hlt. unfold Tb.rd_req in *.
    rewrite gen_req_len_value by assumption. rewrite Hi.
    apply gen_len_incr_cap; assumption.
  - assert (Hsz : 1 <= Tb.ap_size (Tb.wr_req p m d) <= Tb.my_log2c (Tb.WR_M_LANES p)).
    { apply gen_req_size.
      - apply lanes_ok_spec in Hwl. lia.
      - apply widths_ok_spec in Hww. lia. }
    assert (HA : 2 <= Tb.ALEN_WIDTH p) by (apply widths_ok_spec in Hww; lia).
    assert (Hlen : 0 <= Tb.ap_len (Tb.wr_req p m d) <= 3) by (apply gen_req_len; assumption).
    pose proof (wr_req_s_equiv p (Tb.wr_req p m d) Hwl Hww Hsz Hlen) as He.
    apply (f_equal snd) in He. cbn [snd] in He. rewrite He.
    assert (0 <= snd (slave_equiv (Tb.WR_S_LANES p) (Tb.ap_len (Tb.wr_req p m d))
                        (Tb.ap_size (Tb.wr_req p m d))) <= 3); [|lia].
    apply slave_equiv_incr_cap with (Tb.WR_M_LANES p); try assumption.
    intros Hlt. unfold Tb.wr_req in *.
    rewrite gen_req_len_value by assumption. rewrite Hi.
    apply gen_len_incr_cap; assumption.
Qed.

Lemma incr_len_capped_at_slave_witness :
  (Tb.ap_burst (Tb.rd_req p84 m_reset d_wide) = Tb.INCR ->
   0 <= Tb.ap_len (Tb.rd_req_s p84 (Tb.rd_req p84 m_reset d_wide)) < Tb.AXI4_MAX_INCR_LEN) /\
  (Tb.ap_burst (Tb.wr_req p84 m_reset d_wide) = Tb.INCR ->
   0 <= Tb.ap_len (Tb.wr_req_s p84 (Tb.wr_req p84 m_reset d_wide)) < Tb.AXI4_MAX_INCR_LEN).
Proof.
  apply (incr_len_capped_at_slave p84 m_reset d_wide).
  - reflexivity.
  - reflexivity.
  - unfold Tb.rand_ok. simpl. lia.
Defined.

Lemma slave_equiv_bounds m s len size :
  lanes_ok m s = true -> 1 <= size <= Tb.my_log2c m -> 0 <= len <= 3 ->
  0 <= fst (slave_equiv s len size) <= 7 /\ 0 <= snd (slave_equiv s len size) <= 15.
Proof.
  intros Hok Hsz Hlen.
  apply lanes_ok_spec in Hok. destruct Hok as (Hm & HL & Hs & HLS & Hms).
  assert (HLLS : Tb.my_log2c m <= Tb.my_log2c s + 2).
  { apply (Z.pow_le_mono_r_iff 2); [lia|lia|].
    rewrite <- Hm. rewrite Z.pow_add_r by lia. rewrite <- Hs. lia. }
  unfold slave_equiv.
  destruct (Z.ltb_spec s (2 ^ size)) as [Hlt|Hge]; simpl; [|lia].
  rewrite Hs in Hlt. apply Z.pow_lt_mono_r_iff in Hlt; [|lia|lia].
  split; [lia|]. apply shifted_len_range; lia.
Qed.

(** X10: resizing keeps the number of bytes: for every generated
    transaction, read or write, the request recorded for the slave moves
    exactly as many bytes, [(len + 1) << size], as the request of the
    master. *)
Theorem resize_keeps_bytes p m d :
  rd_params_ok p = true -> wr_params_ok p = true -> Tb.rand_ok d ->
  Tb.bytes_total (Tb.rd_req_s p (Tb.rd_req p m d)) = Tb.bytes_total (Tb.rd_req p m d) /\
  Tb.bytes_total (Tb.wr_req_s p (Tb.wr_req p m d)) = Tb.bytes_total (Tb.wr_req p m d).
Proof.
  intros Hr Hw Hd.
  unfold rd_params_ok in Hr. apply andb_true_iff in Hr. destruct Hr as [Hrl Hrw].
  unfold wr_params_ok in Hw. rewrite !andb_true_iff in Hw.
  destruct Hw as ((((Hwl & Hww) & _) & _) & _).
  split.
  - assert (Hsz : 1 <= Tb.ap_size (Tb.rd_req p m d) <= Tb.my_log2c (Tb.RD_M_LANES p)).
    { apply gen_req_size.
      - apply lanes_ok_spec in Hrl. lia.
      - apply widths_ok_spec in Hrw. lia. }
    assert (HA : 2 <= Tb.ALEN_WIDTH p) by (apply widths_ok_spec in Hrw; lia).
    assert (Hlen : 0 <= Tb.ap_len (Tb.rd_req p m d) <= 3) by (apply gen_req_len; assumption).
    pose proof (rd_req_s_equiv p (Tb.rd_req p m d) Hrl Hrw Hsz Hlen) as He.
    pose proof (f_equal fst He) as He1. pose proof (f_equal snd He) as He2.
    cbn [fst snd] in He1, He2.
    destruct (slave_equiv_bounds _ _ _ _ Hrl Hsz Hlen) as [Hb1 Hb2].
    rewrite <- He1 in Hb1. rewrite <- He2 in Hb2.
    pose proof Hrl as Hrl'. apply lanes_ok_spec in Hrl'.
    destruct Hrl' as (Hm & HL & Hs & HLS & Hms).
    pose proof (slave_equiv_bytes (Tb.RD_S_LANES p) (Tb.ap_len (Tb.rd_req p m d))
                  (Tb.ap_size (Tb.rd_req p m d)) Hs) as Hb.
    rewrite <- He1, <- He2 in Hb.
    destruct (bytes_total_value (Tb.rd_req_s p (Tb.rd_req p m d))) as [-> _]; [lia|lia|].
    destruct (bytes_total_value (Tb.rd_req p m d)) as [-> _]; [lia|lia|].
    apply Hb; lia.
  - assert (Hsz : 1 <= Tb.ap_size (Tb.wr_req p m d) <= Tb.my_log2c (Tb.WR_M_LANES p)).
    { apply gen_req_size.
      - apply lanes_ok_spec in Hwl. lia.
      - apply widths_ok_spec in Hww. lia. }
    assert (HA : 2 <= Tb.ALEN_WIDTH p) by (apply widths_ok_spec in Hww; lia).
    assert (Hlen : 0 <= Tb.ap_len (Tb.wr_req p m d) <= 3) by (apply gen_req_len; assumption).
    pose proof (wr_req_s_equiv p (Tb.wr_req p m d) Hwl Hww Hsz Hlen) as He.
    pose proof (f_equal fst He) as He1. pose proof (f_equal snd He) as He2.
    cbn [fst snd] in He1, He2.
    destruct (slave_equiv_bounds _ _ _ _ Hwl Hsz Hlen) as [Hb1 Hb2].
    rewrite <- He1 in Hb1. rewrite <- He2 in Hb2.
    pose proof Hwl as Hwl'. apply lanes_ok_spec in Hwl'.
    destruct Hwl' as (Hm & HL & Hs & HLS & Hms).
    pose proof (slave_equiv_bytes (Tb.WR_S_LANES p) (Tb.ap_len (Tb.wr_req p m d))
                  (Tb.ap_size (Tb.wr_req p m d)) Hs) as Hb.
    rewrite <- He1, <- He2 in Hb.
    destruct (bytes_total_value (Tb.wr_req_s p (Tb.wr_req p m d))) as [-> _]; [lia|lia|].
    destruct (bytes_total_value (Tb.wr_req p m d)) as [-> _]; [lia|lia|].
    apply Hb; lia.
Qed.

Lemma resize_keeps_bytes_witness :
  Tb.bytes_total (Tb.rd_req_s p84 (Tb.rd_req p84 m_reset d_wide)) =
    Tb.bytes_total (Tb.rd_req p84 m_reset d_wide) /\
  Tb.bytes_total (Tb.wr_req_s p84 (Tb.wr_req p84 m_reset d_wide)) =
    Tb.bytes_total (Tb.wr_req p84 m_reset d_wide).
Proof.
  apply (resize_keeps_bytes p84 m_reset d_wide).
  - reflexivity.
  - reflexivity.
  - unfold Tb.rand_ok. simpl. lia.
Defined.

(** * The write slave port over a history *)

Lemma nb_wread_step s :
  map fst (Ace.returned_pair (fst (Ace.nb_wread s))) ++
    Ace.held_waddr (snd (Ace.nb_wread s)) ++ Ace.aw (snd (Ace.nb_wread s)) =
    Ace.held_waddr s ++ Ace.aw s /\
  map snd (Ace.returned_pair (fst (Ace.nb_wread s))) ++ Ace.w (snd (Ace.nb_wread s)) =
    Ace.w s.
Proof.
  destruct s as [aw0 w0 got st].
  unfold Ace.nb_wread, Ace.nb_wread_data, Ace.held_waddr, Ace.returned_pair.
  destruct got; simpl.
  - destruct w0 as [|d w1]; simpl; split; reflexivity.
  - destruct aw0 as [|a aw1]; simpl; [split; reflexivity|].
    destruct w0 as [|d w1]; simpl; split; reflexivity.
Qed.

Lemma port_trace_fifo : forall evs s,
  map fst (snd (Ace.port_trace s evs)) ++
    Ace.held_waddr (fst (Ace.port_trace s evs)) ++ Ace.aw (fst (Ace.port_trace s evs)) =
    Ace.held_waddr s ++ Ace.aw s ++ Ace.aw_delivered evs /\
  map snd (snd (Ace.port_trace s evs)) ++ Ace.w (fst (Ace.port_trace s evs)) =
    Ace.w s ++ Ace.w_delivered evs.
Proof.
  induction evs as [|e evs IH]; intros s.
  - simpl. rewrite !app_nil_r. split; reflexivity.
  - destruct e as [a|d|]; cbn [Ace.port_trace Ace.aw_delivered Ace.w_delivered].
    + destruct (IH {| Ace.aw := Ace.aw s ++ [a]; Ace.w := Ace.w s;
                      Ace.got_waddr := Ace.got_waddr s;
                      Ace.stored_waddr := Ace.stored_waddr s |}) as [H1 H2].
      rewrite H1, H2. unfold Ace.held_waddr. simpl.
      rewrite <- app_assoc. split; reflexivity.
    + destruct (IH {| Ace.aw := Ace.aw s; Ace.w := Ace.w s ++ [d];
                      Ace.got_waddr := Ace.got_waddr s;
                      Ace.stored_waddr := Ace.stored_waddr s |}) as [H1 H2].
      rewrite H1, H2. unfold Ace.held_waddr. simpl.
      rewrite <- app_assoc. split; reflexivity.
    + destruct (IH (snd (Ace.nb_wread s))) as [H1 H2].
      destruct (nb_wread_step s) as [S1 S2].
      destruct (Ace.port_trace (snd (Ace.nb_wread s)) evs) as [s' pairs].
      cbn [fst snd] in *. rewrite !map_app, <- !app_assoc.
      rewrite H1, H2. rewrite !app_assoc. rewrite S2.
      rewrite <- (app_assoc _ (Ace.held_waddr _) (Ace.aw _)), S1.
      split; reflexivity.
Qed.

Lemma combine_pairs {A B : Type} (l : list (A * B)) x y :
  combine (map fst l ++ x) (map snd l ++ y) = l ++ combine x y.
Proof.
  induction l as [|[a b] l IH]; simpl; [reflexivity|].
  rewrite IH. reflexivity.
Qed.

(** X11: the pairs [nb_wread] hands to its caller over any history of the
    port (messages arriving on AW and W, calls in between, from a port with
    empty channels) are the addresses and the data beats in arrival order:
    the k-th pair is the k-th address delivered with the k-th data beat
    delivered. Nothing is lost or duplicated: the addresses returned, then
    the address held back, then those still in the channel are exactly the
    addresses delivered, and likewise for the data. *)
Theorem nb_wread_pairs_in_order c evs :
  let s := fst (Ace.port_trace (Ace.slave_ctor c [] []) evs) in
  let pairs := snd (Ace.port_trace (Ace.slave_ctor c [] []) evs) in
  pairs = firstn (length pairs) (combine (Ace.aw_delivered evs) (Ace.w_delivered evs)) /\
  map fst pairs ++ Ace.held_waddr s ++ Ace.aw s = Ace.aw_delivered evs /\
  map snd pairs ++ Ace.w s = Ace.w_delivered evs.
Proof.
  cbv zeta.
  destruct (port_trace_fifo evs (Ace.slave_ctor c [] [])) as [H1 H2].
  simpl in H1, H2. split; [|split; assumption].
  rewrite <- H1, <- H2. rewrite combine_pairs.
  rewrite firstn_app, Nat.sub_diag, firstn_all. simpl. rewrite app_nil_r. reflexivity.
Qed.

(** X12: the blocking [wread] does not look at the address [nb_wread]
    holds back. When an earlier [nb_wread] has taken an address and found
    no data ([got_waddr] is set), a call of [wread] returns the next
    address of the channel with the next data beat and leaves the held
    address in place; the following [nb_wread] then pairs the held, older
    address with the data beat after that. *)
Theorem wread_bypasses_held_address s a2 aws d1 d2 ws :
  Ace.got_waddr s = true -> Ace.aw s = a2 :: aws -> Ace.w s = d1 :: d2 :: ws ->
  exists s1,
    Ace.wread s = Some (a2, d1, s1) /\
    Ace.got_waddr s1 = true /\ Ace.stored_waddr s1 = Ace.stored_waddr s /\
    Ace.aw s1 = aws /\
    fst (Ace.nb_wread s1) =
      {| Ace.ret := true; Ace.addr_out := Some (Ace.stored_waddr s);
         Ace.data_out := Some d2 |} /\
    Ace.aw (snd (Ace.nb_wread s1)) = aws /\ Ace.w (snd (Ace.nb_wread s1)) = ws.
Proof.
  intros Hg Ha Hw. destruct s as [aw0 w0 got st]. simpl in *. subst.
  eexists. split; [reflexivity|]. simpl. repeat split; reflexivity.
Qed.

Lemma wread_bypasses_held_address_witness :
  exists s1,
    Ace.wread port_holding = Some (addr_beat 32, data_beat 1, s1) /\
    Ace.got_waddr s1 = true /\ Ace.stored_waddr s1 = addr_beat 16 /\
    Ace.aw s1 = [] /\
    fst (Ace.nb_wread s1) =
      {| Ace.ret := true; Ace.addr_out := Some (addr_beat 16);
         Ace.data_out := Some (data_beat 2) |} /\
    Ace.aw (snd (Ace.nb_wread s1)) = [] /\ Ace.w (snd (Ace.nb_wread s1)) = [].
Proof.
  apply (wread_bypasses_held_address port_holding (addr_beat 32) []
           (data_beat 1) (data_beat 2) []); reflexivity.
Defined.

(** * The clocked thread *)

Lemma gen_new_rd_trans_ok p m sb d m' sb' :
  Tb.gen_new_rd_trans p m sb d = Ok (m', sb') ->
  Tb.stored_rd_trans m' = Tb.stored_rd_trans m ++ [Tb.rd_req p m d] /\
  Tb.rd_trans_generated m' = Tb.rd_trans_generated m + 1 /\
  Tb.stored_wr_trans m' = Tb.stored_wr_trans m /\
  Tb.stored_wr_data m' = Tb.stored_wr_data m /\
  Tb.wr_trans_generated m' = Tb.wr_trans_generated m /\
  Tb.wr_data_generated m' = Tb.wr_data_generated m /\
  Tb.error_sb_rd_resp_not_found m' = Tb.error_sb_rd_resp_not_found m /\
  Tb.error_sb_wr_resp_not_found m' = Tb.error_sb_wr_resp_not_found m /\
  Tb.rd_resp_ej m' = Tb.rd_resp_ej m /\ Tb.wr_resp_ej m' = Tb.wr_resp_ej m.
Proof.
  unfold Tb.gen_new_rd_trans. cbv zeta.
  destruct (Tb.mem_map_resolve p _); [|discriminate].
  intros H. injection H as <- _. simpl. repeat split; reflexivity.
Qed.

Lemma gen_new_wr_trans_ok p m sb d m' sb' :
  Tb.gen_new_wr_trans p m sb d = Ok (m', sb') ->
  Tb.stored_rd_trans m' = Tb.stored_rd_trans m /\
  Tb.rd_trans_generated m' = Tb.rd_trans_generated m /\
  Tb.stored_wr_trans m' = Tb.stored_wr_trans m ++ [Tb.wr_req p m d] /\
  Tb.stored_wr_data m' =
    Tb.stored_wr_data m ++ Tb.ww_m_out (Tb.wr_expected p (Tb.MASTER_ID m) (Tb.wr_req p m d)) /\
  Tb.wr_trans_generated m' = Tb.wr_trans_generated m + 1 /\
  Tb.wr_data_generated m' =
    Tb.wr_data_generated m +
    Z.of_nat (length (Tb.ww_m_out (Tb.wr_expected p (Tb.MASTER_ID m) (Tb.wr_req p m d)))) /\
  Tb.error_sb_rd_resp_not_found m' = Tb.error_sb_rd_resp_not_found m /\
  Tb.error_sb_wr_resp_not_found m' = Tb.error_sb_wr_resp_not_found m /\
  Tb.rd_resp_ej m' = Tb.rd_resp_ej m /\ Tb.wr_resp_ej m' = Tb.wr_resp_ej m.
Proof.
  unfold Tb.gen_new_wr_trans. cbv zeta.
  destruct (Tb.mem_map_resolve p _); [|discriminate].
  intros H. injection H as <- _. simpl. repeat split; reflexivity.
Qed.

Lemma verify_rd_resp_ok p m sb rcv m' sb' :
  Tb.verify_rd_resp p m sb rcv = Ok (m', sb') ->
  Tb.stored_rd_trans m' = Tb.stored_rd_trans m /\
  Tb.rd_trans_generated m' = Tb.rd_trans_generated m /\
  Tb.stored_wr_trans m' = Tb.stored_wr_trans m /\
  Tb.stored_wr_data m' = Tb.stored_wr_data m /\
  Tb.wr_trans_generated m' = Tb.wr_trans_generated m /\
  Tb.wr_data_generated m' = Tb.wr_data_generated m /\
  Tb.error_sb_rd_resp_not_found m' = Tb.error_sb_rd_resp_not_found m /\
  Tb.error_sb_wr_resp_not_found m' = Tb.error_sb_wr_resp_not_found m /\
  Tb.rd_resp_ej m' = Tb.rd_resp_ej m + 1 /\ Tb.wr_resp_ej m' = Tb.wr_resp_ej m.
Proof.
  unfold Tb.verify_rd_resp. cbv zeta.
  destruct (Tb.rd_reorder_check p _ _); [discriminate|].
  destruct (Tb.content_check _ _ _ _) as [[j e]|]; [|discriminate].
  destruct (negb (status =? 2) && negb (status =? 1)); [|discriminate].
  intros H. injection H as <- _. simpl. repeat split; reflexivity.
Qed.

Lemma verify_wr_resp_ok p m sb rcv m' sb' :
  Tb.verify_wr_resp p m sb rcv = Ok (m', sb') ->
  Tb.stored_rd_trans m' = Tb.stored_rd_trans m /\
  Tb.rd_trans_generated m' = Tb.rd_trans_generated m /\
  Tb.stored_wr_trans m' = Tb.stored_wr_trans m /\
  Tb.stored_wr_data m' = Tb.stored_wr_data m /\
  Tb.wr_trans_generated m' = Tb.wr_trans_generated m /\
  Tb.wr_data_generated m' = Tb.wr_data_generated m /\
  Tb.error_sb_rd_resp_not_found m' = Tb.error_sb_rd_resp_not_found m /\
  Tb.error_sb_wr_resp_not_found m' = Tb.error_sb_wr_resp_not_found m /\
  Tb.rd_resp_ej m' = Tb.rd_resp_ej m /\ Tb.wr_resp_ej m' = Tb.wr_resp_ej m + 1.
Proof.
  unfold Tb.verify_wr_resp. cbv zeta.
  destruct (Tb.wr_reorder_check p _ _); [discriminate|].
  destruct (Tb.content_check _ _ _ _) as [[j e]|]; [|discriminate].
  destruct (negb (status =? 2) && negb (status =? 1)); [|discriminate].
  intros H. injection H as <- _. simpl. repeat split; reflexivity.
Qed.

Lemma inject_count {A : Type} (q : list A) (ready : bool) (n : Z) :
  Tb.count_inj n (fst (Tb.inject q ready)) + Z.of_nat (length (snd (Tb.inject q ready))) =
  n + Z.of_nat (length q).
Proof.
  destruct q as [|x q]; [simpl; lia|].
  destruct ready; cbn [Tb.inject Tb.count_inj fst snd length]; lia.
Qed.

Lemma cycle_gen_ok p a sb i m1 sb1 :
  Tb.cycle_gen p a sb i = Ok (m1, sb1) ->
  Tb.rd_trans_generated m1 - Z.of_nat (length (Tb.stored_rd_trans m1)) =
    Tb.rd_trans_generated (Tb.core a) - Z.of_nat (length (Tb.stored_rd_trans (Tb.core a))) /\
  Tb.wr_trans_generated m1 - Z.of_nat (length (Tb.stored_wr_trans m1)) =
    Tb.wr_trans_generated (Tb.core a) - Z.of_nat (length (Tb.stored_wr_trans (Tb.core a))) /\
  Tb.wr_data_generated m1 - Z.of_nat (length (Tb.stored_wr_data m1)) =
    Tb.wr_data_generated (Tb.core a) - Z.of_nat (length (Tb.stored_wr_data (Tb.core a))) /\
  Tb.error_sb_rd_resp_not_found m1 = Tb.error_sb_rd_resp_not_found (Tb.core a) /\
  Tb.error_sb_wr_resp_not_found m1 = Tb.error_sb_wr_resp_not_found (Tb.core a) /\
  Tb.rd_resp_ej m1 = Tb.rd_resp_ej (Tb.core a) /\
  Tb.wr_resp_ej m1 = Tb.wr_resp_ej (Tb.core a).
Proof.
  unfold Tb.cycle_gen. destruct (negb (Tb.stop_gen i)).
  - destruct (if u32 (Tb.rnd_rd i mod 100) <? Tb.GEN_RATE_RD a
              then Tb.gen_new_rd_trans p (Tb.core a) sb (Tb.draws_rd i)
              else Ok (Tb.core a, sb)) as [[m0 sb0]|s] eqn:Hr; [|discriminate].
    assert (H0 :
      Tb.rd_trans_generated m0 - Z.of_nat (length (Tb.stored_rd_trans m0)) =
        Tb.rd_trans_generated (Tb.core a) -
        Z.of_nat (length (Tb.stored_rd_trans (Tb.core a))) /\
      Tb.wr_trans_generated m0 - Z.of_nat (length (Tb.stored_wr_trans m0)) =
        Tb.wr_trans_generated (Tb.core a) -
        Z.of_nat (length (Tb.stored_wr_trans (Tb.core a))) /\
      Tb.wr_data_generated m0 - Z.of_nat (length (Tb.stored_wr_data m0)) =
        Tb.wr_data_generated (Tb.core a) -
        Z.of_nat (length (Tb.stored_wr_data (Tb.core a))) /\
      Tb.error_sb_rd_resp_not_found m0 = Tb.error_sb_rd_resp_not_found (Tb.core a) /\
      Tb.error_sb_wr_resp_not_found m0 = Tb.error_sb_wr_resp_not_found (Tb.core a) /\
      Tb.rd_resp_ej m0 = Tb.rd_resp_ej (Tb.core a) /\
      Tb.wr_resp_ej m0 = Tb.wr_resp_ej (Tb.core a)).
    { destruct (u32 (Tb.rnd_rd i mod 100) <? Tb.GEN_RATE_RD a).
      - apply gen_new_rd_trans_ok in Hr.
        destruct Hr as (E1 & E2 & E3 & E4 & E5 & E6 & E7 & E8 & E9 & E10).
        rewrite E1, E2, E3, E4, E5, E6, E7, E8, E9, E10, length_app. simpl.
        repeat split; lia.
      - injection Hr as <- _. repeat split; reflexivity. }
    destruct H0 as (B1 & B2 & B3 & B4 & B5 & B6 & B7).
    rewrite <- B1, <- B2, <- B3, <- B4, <- B5, <- B6, <- B7.
    destruct (u32 (Tb.rnd_wr i mod 100) <? Tb.GEN_RATE_WR a).
    + intros Hw. apply gen_new_wr_trans_ok in Hw.
      destruct Hw as (E1 & E2 & E3 & E4 & E5 & E6 & E7 & E8 & E9 & E10).
      rewrite E1, E2, E3, E4, E5, E6, E7, E8, E9, E10, !length_app. simpl.
      repeat split; lia.
    + intros H. injection H as <- _. repeat split; reflexivity.
  - intros H. injection H as <- _. repeat split; reflexivity.
Qed.

Lemma cycle_eject_ok p m sb i m2 sb2 :
  Tb.cycle_eject p m sb i = Ok (m2, sb2) ->
  Tb.stored_rd_trans m2 = Tb.stored_rd_trans m /\
  Tb.rd_trans_generated m2 = Tb.rd_trans_generated m /\
  Tb.stored_wr_trans m2 = Tb.stored_wr_trans m /\
  Tb.stored_wr_data m2 = Tb.stored_wr_data m /\
  Tb.wr_trans_generated m2 = Tb.wr_trans_generated m /\
  Tb.wr_data_generated m2 = Tb.wr_data_generated m /\
  Tb.error_sb_rd_resp_not_found m2 = Tb.error_sb_rd_resp_not_found m /\
  Tb.error_sb_wr_resp_not_found m2 = Tb.error_sb_wr_resp_not_found m /\
  Tb.rd_resp_ej m2 =
    Tb.rd_resp_ej m + (match Tb.r_msg i with Some _ => 1 | None => 0 end) /\
  Tb.wr_resp_ej m2 =
    Tb.wr_resp_ej m + (match Tb.b_msg i with Some _ => 1 | None => 0 end).
Proof.
  unfold Tb.cycle_eject.
  destruct (match Tb.r_msg i with
            | Some rcv => Tb.verify_rd_resp p m sb rcv
            | None => Ok (m, sb)
            end) as [[m1 sb1]|s] eqn:Hr; [|discriminate].
  assert (H0 :
    Tb.stored_rd_trans m1 = Tb.stored_rd_trans m /\
    Tb.rd_trans_generated m1 = Tb.rd_trans_generated m /\
    Tb.stored_wr_trans m1 = Tb.stored_wr_trans m /\
    Tb.stored_wr_data m1 = Tb.stored_wr_data m /\
    Tb.wr_trans_generated m1 = Tb.wr_trans_generated m /\
    Tb.wr_data_generated m1 = Tb.wr_data_generated m /\
    Tb.error_sb_rd_resp_not_found m1 = Tb.error_sb_rd_resp_not_found m /\
    Tb.error_sb_wr_resp_not_found m1 = Tb.error_sb_wr_resp_not_found m /\
    Tb.rd_resp_ej m1 =
      Tb.rd_resp_ej m + (match Tb.r_msg i with Some _ => 1 | None => 0 end) /\
    Tb.wr_resp_ej m1 = Tb.wr_resp_ej m).
  { destruct (Tb.r_msg i) as [rcv|].
    - apply verify_rd_resp_ok in Hr. exact Hr.
    - injection Hr as <- _. repeat split; try reflexivity. lia. }
  destruct H0 as (B1 & B2 & B3 & B4 & B5 & B6 & B7 & B8 & B9 & B10).
  rewrite <- B1, <- B2, <- B3, <- B4, <- B5, <- B6, <- B7, <- B8, <- B10.
  destruct (Tb.b_msg i) as [rcv|].
  - intros Hw. apply verify_wr_resp_ok in Hw.
    destruct Hw as (E1 & E2 & E3 & E4 & E5 & E6 & E7 & E8 & E9 & E10).
    rewrite E1, E2, E3, E4, E5, E6, E7, E8, E9, E10, B9.
    repeat split; reflexivity.
  - intros H. injection H as <- _. rewrite B9. repeat split; try reflexivity. lia.
Qed.

Lemma do_cycle_body_ok p a sb i a' sb' out :
  Tb.do_cycle_body p a sb i = Ok (a', sb', out) ->
  (conserved a -> conserved a') /\
  Tb.rd_trans_inj a' = Tb.count_inj (Tb.rd_trans_inj a) (Tb.ar_pushed out) /\
  Tb.wr_trans_inj a' = Tb.count_inj (Tb.wr_trans_inj a) (Tb.aw_pushed out) /\
  Tb.wr_data_inj a' = Tb.count_inj (Tb.wr_data_inj a) (Tb.w_pushed out) /\
  Tb.error_sb_rd_resp_not_found (Tb.core a') = Tb.error_sb_rd_resp_not_found (Tb.core a) /\
  Tb.error_sb_wr_resp_not_found (Tb.core a') = Tb.error_sb_wr_resp_not_found (Tb.core a) /\
  Tb.rd_resp_ej (Tb.core a') =
    Tb.rd_resp_ej (Tb.core a) + (match Tb.r_msg i with Some _ => 1 | None => 0 end) /\
  Tb.wr_resp_ej (Tb.core a') =
    Tb.wr_resp_ej (Tb.core a) + (match Tb.b_msg i with Some _ => 1 | None => 0 end).
Proof.
  unfold Tb.do_cycle_body.
  destruct (Tb.cycle_gen p a sb i) as [[m1 sb1]|[m1 sb1]] eqn:Hg; [|discriminate].
  apply cycle_gen_ok in Hg. destruct Hg as (G1 & G2 & G3 & G4 & G5 & G6 & G7).
  unfold Tb.cycle_inject. cbv zeta. cbn [Tb.core Tb.set_core].
  match goal with
  | |- context [Tb.cycle_eject p ?m sb1 i] =>
      destruct (Tb.cycle_eject p m sb1 i) as [[m2 sb2]|[m2 sb2]] eqn:He; [|discriminate]
  end.
  apply cycle_eject_ok in He. cbn [Tb.stored_rd_trans Tb.stored_wr_trans Tb.stored_wr_data
    Tb.rd_trans_generated Tb.wr_trans_generated Tb.wr_data_generated
    Tb.error_sb_rd_resp_not_found Tb.error_sb_wr_resp_not_found
    Tb.rd_resp_ej Tb.wr_resp_ej] in He.
  destruct He as (E1 & E2 & E3 & E4 & E5 & E6 & E7 & E8 & E9 & E10).
  intros H. injection H as <- _ <-.
  cbn [Tb.core Tb.set_core Tb.rd_trans_inj Tb.wr_trans_inj Tb.wr_data_inj
       Tb.ar_pushed Tb.aw_pushed Tb.w_pushed Tb.GEN_RATE_RD].
  rewrite E7, E8, E9, E10, G4, G5, G6, G7.
  split; [|repeat split; reflexivity].
  unfold conserved. cbn [Tb.core Tb.set_core Tb.rd_trans_inj Tb.wr_trans_inj Tb.wr_data_inj].
  rewrite E1, E2, E3, E4, E5, E6.
  pose proof (inject_count (Tb.stored_rd_trans m1) (Tb.ar_ready i) (Tb.rd_trans_inj a)).
  pose proof (inject_count (Tb.stored_wr_trans m1) (Tb.aw_ready i) (Tb.wr_trans_inj a)).
  pose proof (inject_count (Tb.stored_wr_data m1) (Tb.w_ready i) (Tb.wr_data_inj a)).
  intros (C1 & C2 & C3). repeat split; lia.
Qed.

Lemma count_some_cons {A B : Type} (f : A -> option B) x l :
  count_some f (x :: l) = Tb.count_inj (count_some f l) (f x).
Proof.
  unfold count_some, Tb.count_inj. simpl. destruct (f x); simpl; lia.
Qed.

Lemma do_cycle_loop_ok p : forall cycles a a' outs,
  Tb.do_cycle_loop p a cycles = Ok (a', outs) ->
  (conserved a -> conserved a') /\
  Tb.rd_trans_inj a' = Tb.rd_trans_inj a + count_some Tb.ar_pushed outs /\
  Tb.wr_trans_inj a' = Tb.wr_trans_inj a + count_some Tb.aw_pushed outs /\
  Tb.wr_data_inj a' = Tb.wr_data_inj a + count_some Tb.w_pushed outs /\
  Tb.error_sb_rd_resp_not_found (Tb.core a') = Tb.error_sb_rd_resp_not_found (Tb.core a) /\
  Tb.error_sb_wr_resp_not_found (Tb.core a') = Tb.error_sb_wr_resp_not_found (Tb.core a) /\
  Tb.rd_resp_ej (Tb.core a') =
    Tb.rd_resp_ej (Tb.core a) + count_some (fun c => Tb.r_msg (snd c)) cycles /\
  Tb.wr_resp_ej (Tb.core a') =
    Tb.wr_resp_ej (Tb.core a) + count_some (fun c => Tb.b_msg (snd c)) cycles /\
  length outs = length cycles.
Proof.
  induction cycles as [|[sb i] cycles IH]; intros a a' outs H.
  - simpl in H. injection H as <- <-. unfold count_some. simpl.
    split; [auto|]. repeat split; lia.
  - cbn [Tb.do_cycle_loop] in H.
    destruct (Tb.do_cycle_body p a sb i) as [[[a1 sb1] out]|[[a1 sb1] out]] eqn:Hb;
      [|discriminate].
    destruct (Tb.do_cycle_loop p a1 cycles) as [[a2 outs2]|[a2 outs2]] eqn:Hl;
      [|discriminate].
    injection H as <- <-.
    apply do_cycle_body_ok in Hb. destruct Hb as (B0 & B1 & B2 & B3 & B4 & B5 & B6 & B7).
    destruct (IH a1 a2 outs2 Hl) as (L0 & L1 & L2 & L3 & L4 & L5 & L6 & L7 & L8).
    rewrite !count_some_cons. cbn [snd].
    rewrite L1, L2, L3, L4, L5, L6, L7, B1, B2, B3, B4, B5, B6, B7.
    split; [auto|].
    unfold Tb.count_inj.
    destruct (Tb.ar_pushed out), (Tb.aw_pushed out), (Tb.w_pushed out),
      (Tb.r_msg i), (Tb.b_msg i); simpl; repeat split; lia.
Qed.

(** X13: while [do_cycle] runs (no assertion has fired), the injection
    queues conserve what the generators produce: from a module whose
    injection queues start empty, after any number of clock cycles the
    count of generated read requests equals the read requests injected plus
    those still queued, and likewise for write requests and for write data
    beats; each injected-counter equals the number of messages pushed on
    its port. *)
Theorem do_cycle_conserves p a0 cycles a outs :
  Tb.stored_rd_trans (Tb.core a0) = [] ->
  Tb.stored_wr_trans (Tb.core a0) = [] ->
  Tb.stored_wr_data (Tb.core a0) = [] ->
  Tb.do_cycle p a0 cycles = Ok (a, outs) ->
  Tb.rd_trans_generated (Tb.core a) =
    Tb.rd_trans_inj a + Z.of_nat (length (Tb.stored_rd_trans (Tb.core a))) /\
  Tb.wr_trans_generated (Tb.core a) =
    Tb.wr_trans_inj a + Z.of_nat (length (Tb.stored_wr_trans (Tb.core a))) /\
  Tb.wr_data_generated (Tb.core a) =
    Tb.wr_data_inj a + Z.of_nat (length (Tb.stored_wr_data (Tb.core a))) /\
  Tb.rd_trans_inj a = count_some Tb.ar_pushed outs /\
  Tb.wr_trans_inj a = count_some Tb.aw_pushed outs /\
  Tb.wr_data_inj a = count_some Tb.w_pushed outs /\
  length outs = length cycles.
Proof.
  intros Q1 Q2 Q3 H. unfold Tb.do_cycle in H.
  apply do_cycle_loop_ok in H.
  destruct H as (L0 & L1 & L2 & L3 & _ & _ & _ & _ & L8).
  assert (C0 : conserved (Tb.do_cycle_init a0)).
  { unfold conserved. simpl. rewrite Q1, Q2, Q3. simpl. repeat split; reflexivity. }
  destruct (L0 C0) as (C1 & C2 & C3).
  simpl in L1, L2, L3.
  repeat split; try assumption.
Qed.

Lemma do_cycle_conserves_witness :
  exists a outs,
    Tb.do_cycle p42 a_new [(sb_empty, cyc_gen); (sb_empty, cyc_idle)] = Ok (a, outs) /\
    Tb.rd_trans_generated (Tb.core a) =
      Tb.rd_trans_inj a + Z.of_nat (length (Tb.stored_rd_trans (Tb.core a))) /\
    Tb.wr_trans_generated (Tb.core a) =
      Tb.wr_trans_inj a + Z.of_nat (length (Tb.stored_wr_trans (Tb.core a))) /\
    Tb.wr_data_generated (Tb.core a) =
      Tb.wr_data_inj a + Z.of_nat (length (Tb.stored_wr_data (Tb.core a))) /\
    Tb.rd_trans_inj a = count_some Tb.ar_pushed outs /\
    Tb.wr_trans_inj a = count_some Tb.aw_pushed outs /\
    Tb.wr_data_inj a = count_some Tb.w_pushed outs /\
    length outs = 2%nat.
Proof.
  eexists. eexists. split; [vm_compute; reflexivity|].
  eapply (do_cycle_conserves p42 a_new [(sb_empty, cyc_gen); (sb_empty, cyc_idle)]);
    [reflexivity | reflexivity | reflexivity | vm_compute; reflexivity].
Defined.

(** X14: while [do_cycle] runs (no assertion has fired), both not-found
    counters are zero and every response taken from R and B has been
    counted as ejected: after any number of clock cycles [rd_resp_ej] is
    the number of read beats received and [wr_resp_ej] the number of write
    responses received. A response is never dropped silently: it is either
    accepted and counted, or the simulation stops. *)
Theorem do_cycle_counts_responses p a0 cycles a outs :
  Tb.do_cycle p a0 cycles = Ok (a, outs) ->
  Tb.error_sb_rd_resp_not_found (Tb.core a) = 0 /\
  Tb.error_sb_wr_resp_not_found (Tb.core a) = 0 /\
  Tb.rd_resp_ej (Tb.core a) = count_some (fun c => Tb.r_msg (snd c)) cycles /\
  Tb.wr_resp_ej (Tb.core a) = count_some (fun c => Tb.b_msg (snd c)) cycles.
Proof.
  intros H. unfold Tb.do_cycle in H.
  apply do_cycle_loop_ok in H.
  destruct H as (_ & _ & _ & _ & L4 & L5 & L6 & L7 & _).
  simpl in L4, L5, L6, L7. repeat split; assumption.
Qed.

Lemma do_cycle_counts_responses_witness :
  exists a outs,
    Tb.do_cycle p42 a_new [(sb_empty, cyc_gen_wide); (sb_pending, cyc_resp)] =
      Ok (a, outs) /\
    Tb.error_sb_rd_resp_not_found (Tb.core a) = 0 /\
    Tb.error_sb_wr_resp_not_found (Tb.core a) = 0 /\
    Tb.rd_resp_ej (Tb.core a) = 1 /\
    Tb.wr_resp_ej (Tb.core a) = 1.
Proof.
  eexists. eexists. split; [vm_compute; reflexivity|].
  eapply (do_cycle_counts_responses p42 a_new
            [(sb_empty, cyc_gen_wide); (sb_pending, cyc_resp)]).
  vm_compute. reflexivity.
Defined.

(** * The verifiers and the scoreboard *)

Lemma length_upd_at {A : Type} (f : A -> A) : forall (v : list A) i,
  length (upd_at i f v) = length v.
Proof.
  induction v as [|x v IH]; intros [|i]; simpl; try reflexivity.
  rewrite IH. reflexivity.
Qed.

Lemma nth_upd_at_same {A : Type} (f : A -> A) d : forall (v : list A) i,
  (i < length v)%nat -> nth i (upd_at i f v) d = f (nth i v d).
Proof.
  induction v as [|x v IH]; intros [|i] Hi; simpl in *; try lia; try reflexivity.
  apply IH. lia.
Qed.

Lemma nth_upd_at_other {A : Type} (f : A -> A) d : forall (v : list A) i j,
  i <> j -> nth j (upd_at i f v) d = nth j v d.
Proof.
  induction v as [|x v IH]; intros [|i] [|j] Hij; simpl; try reflexivity; try congruence.
  apply IH. congruence.
Qed.

Lemma nth_in_range {A : Type} (v : list (list A)) i pre e post :
  nth i v [] = pre ++ e :: post -> (i < length v)%nat.
Proof.
  intros H. destruct (Nat.lt_ge_cases i (length v)) as [Hlt|Hge]; [exact Hlt|].
  rewrite nth_overflow in H by exact Hge. destruct pre; discriminate H.
Qed.

Lemma eq_rd_data_refl p b : Tb.eq_rd_data p b b = true.
Proof. unfold Tb.eq_rd_data. rewrite !Z.eqb_refl. reflexivity. Qed.

(** X15: what [verify_rd_resp] does to the scoreboard, whether it ends in
    an assertion or not: it touches nothing but the predicted-response
    queue of its own master; when no prediction there equals the response
    the scoreboard is left as it was; and when one does (and the requests
    on record resolve), exactly the first equal prediction is removed, so
    a prediction is never matched twice. *)
Theorem verify_rd_resp_scoreboard p m sb rcv :
  let sb' := snd (state_of (Tb.verify_rd_resp p m sb rcv)) in
  let q := nth (Z.to_nat (Tb.MASTER_ID m)) (Tb.sb_rd_resp_q sb) [] in
  Tb.sb_rd_req_q sb' = Tb.sb_rd_req_q sb /\
  Tb.sb_wr_req_q sb' = Tb.sb_wr_req_q sb /\
  Tb.sb_wr_data_q sb' = Tb.sb_wr_data_q sb /\
  Tb.sb_wr_resp_q sb' = Tb.sb_wr_resp_q sb /\
  length (Tb.sb_rd_resp_q sb') = length (Tb.sb_rd_resp_q sb) /\
  (forall k, k <> Z.to_nat (Tb.MASTER_ID m) ->
     nth k (Tb.sb_rd_resp_q sb') [] = nth k (Tb.sb_rd_resp_q sb) []) /\
  ((forall x, In x q -> Tb.eq_rd_data p rcv x = false) -> sb' = sb) /\
  (forall pre e post,
     order_resolves p (Tb.sb_rd_order_q m) ->
     q = pre ++ e :: post ->
     (forall x, In x pre -> Tb.eq_rd_data p rcv x = false) ->
     Tb.eq_rd_data p rcv e = true ->
     nth (Z.to_nat (Tb.MASTER_ID m)) (Tb.sb_rd_resp_q sb') [] = pre ++ post).
Proof.
  cbv zeta. unfold Tb.verify_rd_resp.
  destruct (Tb.rd_reorder_check p (Tb.sb_rd_order_q m) rcv) as [|status oq] eqn:Hro.
  - simpl. repeat split; try reflexivity.
    intros pre e post Hres. exfalso.
    unfold Tb.rd_reorder_check in Hro.
    destruct (reorder_check_status p (Tb.sb_rd_order_q m) (Tb.rp_id rcv) (Tb.rp_resp rcv)
                (negb (Tb.rp_last rcv =? 0)) Hres) as [q' Hq'].
    rewrite Hq' in Hro. discriminate Hro.
  - destruct (Tb.content_check (Tb.eq_rd_data p rcv) _ 0 _) as [[j e0]|] eqn:Hc.
    + assert (Hsb : forall X Y : Tb.master * Tb.scoreboard,
                snd X = snd Y ->
                snd (state_of (if negb (status =? 2) && negb (status =? 1)
                               then Ok X else Fatal Y)) = snd X).
      { intros X Y E. destruct (negb _ && negb _); simpl; congruence. }
      rewrite Hsb by reflexivity. simpl.
      split; [reflexivity|]. split; [reflexivity|]. split; [reflexivity|].
      split; [reflexivity|]. split; [apply length_upd_at|].
      split; [intros k Hk; apply nth_upd_at_other; congruence|].
      split.
      * intros Hnone. rewrite content_check_none in Hc by exact Hnone. discriminate Hc.
      * intros pre e post _ Hq Hpre He.
        rewrite Hq in Hc. rewrite content_check_found in Hc by assumption.
        injection Hc as <- <-.
        rewrite nth_upd_at_same by (apply nth_in_range with pre e post; exact Hq).
        rewrite Hq. apply erase_mid.
    + simpl. repeat split; try reflexivity.
      intros pre e post _ Hq Hpre He.
      rewrite Hq in Hc. rewrite content_check_found in Hc by assumption.
      discriminate Hc.
Qed.

(** X16: what [verify_wr_resp] does to the scoreboard, whether it ends in
    an assertion or not: it touches nothing but the predicted write
    responses of its own master; when no prediction there equals the
    response the scoreboard is left as it was; and when one does (and the
    requests on record resolve), exactly the first equal prediction is
    removed. *)
Theorem verify_wr_resp_scoreboard p m sb rcv :
  let sb' := snd (state_of (Tb.verify_wr_resp p m sb rcv)) in
  let q := nth (Z.to_nat (Tb.MASTER_ID m)) (Tb.sb_wr_resp_q sb) [] in
  Tb.sb_rd_req_q sb' = Tb.sb_rd_req_q sb /\
  Tb.sb_rd_resp_q sb' = Tb.sb_rd_resp_q sb /\
  Tb.sb_wr_req_q sb' = Tb.sb_wr_req_q sb /\
  Tb.sb_wr_data_q sb' = Tb.sb_wr_data_q sb /\
  length (Tb.sb_wr_resp_q sb') = length (Tb.sb_wr_resp_q sb) /\
  (forall k, k <> Z.to_nat (Tb.MASTER_ID m) ->
     nth k (Tb.sb_wr_resp_q sb') [] = nth k (Tb.sb_wr_resp_q sb) []) /\
  ((forall x, In x q -> Tb.eq_wr_resp p x rcv = false) -> sb' = sb) /\
  (forall pre e post,
     order_resolves p (Tb.sb_wr_order_q m) ->
     q = pre ++ e :: post ->
     (forall x, In x pre -> Tb.eq_wr_resp p x rcv = false) ->
     Tb.eq_wr_resp p e rcv = true ->
     nth (Z.to_nat (Tb.MASTER_ID m)) (Tb.sb_wr_resp_q sb') [] = pre ++ post).
Proof.
  cbv zeta. unfold Tb.verify_wr_resp.
  destruct (Tb.wr_reorder_check p (Tb.sb_wr_order_q m) rcv) as [|status oq] eqn:Hro.
  - simpl. repeat split; try reflexivity.
    intros pre e post Hres. exfalso.
    unfold Tb.wr_reorder_check in Hro.
    destruct (reorder_check_status p (Tb.sb_wr_order_q m) (Tb.bp_id rcv) (Tb.bp_resp rcv)
                true Hres) as [q' Hq'].
    rewrite Hq' in Hro. discriminate Hro.
  - destruct (Tb.content_check (fun sb_resp => Tb.eq_wr_resp p sb_resp rcv) _ 0 _)
      as [[j e0]|] eqn:Hc.
    + assert (Hsb : forall X Y : Tb.master * Tb.scoreboard,
                snd X = snd Y ->
                snd (state_of (if negb (status =? 2) && negb (status =? 1)
                               then Ok X else Fatal Y)) = snd X).
      { intros X Y E. destruct (negb _ && negb _); simpl; congruence. }
      rewrite Hsb by reflexivity. simpl.
      split; [reflexivity|]. split; [reflexivity|]. split; [reflexivity|].
      split; [reflexivity|]. split; [apply length_upd_at|].
      split; [intros k Hk; apply nth_upd_at_other; congruence|].
      split.
      * intros Hnone.
        rewrite (content_check_none (fun sb_resp => Tb.eq_wr_resp p sb_resp rcv)) in Hc
          by exact Hnone.
        discriminate Hc.
      * intros pre e post _ Hq Hpre He.
        rewrite Hq in Hc.
        rewrite (content_check_found (fun sb_resp => Tb.eq_wr_resp p sb_resp rcv)) in Hc
          by assumption.
        injection Hc as <- <-.
        rewrite nth_upd_at_same by (apply nth_in_range with pre e post; exact Hq).
        rewrite Hq. apply erase_mid.
    + simpl. repeat split; try reflexivity.
      intros pre e post _ Hq Hpre He.
      rewrite Hq in Hc.
      rewrite (content_check_found (fun sb_resp => Tb.eq_wr_resp p sb_resp rcv)) in Hc
        by assumption.
      discriminate Hc.
Qed.

(** * A read burst, from its generation to its last response *)

Lemma verify_rd_resp_accept p m sb b oq_pre req oq_post rq_pre rq_post :
  Tb.sb_rd_order_q m = oq_pre ++ req :: oq_post ->
  (forall x, In x oq_pre -> Tb.ap_id x <> Tb.rp_id b) ->
  Tb.ap_id req = Tb.rp_id b ->
  Tb.mem_map_resolve p (Tb.ap_addr req) = Some (Tb.rp_resp b) ->
  nth (Z.to_nat (Tb.MASTER_ID m)) (Tb.sb_rd_resp_q sb) [] = rq_pre ++ b :: rq_post ->
  (forall x, In x rq_pre -> Tb.eq_rd_data p b x = false) ->
  exists m' sb',
    Tb.verify_rd_resp p m sb b = Ok (m', sb') /\
    Tb.sb_rd_order_q m' =
      (if Tb.rp_last b =? 0 then oq_pre ++ req :: oq_post else oq_pre ++ oq_post) /\
    nth (Z.to_nat (Tb.MASTER_ID m')) (Tb.sb_rd_resp_q sb') [] = rq_pre ++ rq_post /\
    Tb.MASTER_ID m' = Tb.MASTER_ID m /\
    Tb.rd_resp_ej m' = Tb.rd_resp_ej m + 1.
Proof.
  intros Hoq Hpre Hid Hres Hrq Hrpre.
  unfold Tb.verify_rd_resp, Tb.rd_reorder_check. rewrite Hoq.
  rewrite (reorder_check_found p _ _ _ oq_pre req oq_post (Tb.rp_resp b)).
  - rewrite Z.eqb_refl. rewrite Hrq.
    rewrite content_check_found; [|exact Hrpre|apply eq_rd_data_refl].
    simpl. eexists. eexists. split; [reflexivity|]. simpl.
    split; [destruct (Tb.rp_last b =? 0); reflexivity|].
    split; [|split; reflexivity].
    rewrite nth_upd_at_same by (apply nth_in_range with rq_pre b rq_post; exact Hrq).
    rewrite Hrq. apply erase_mid.
  - intros x Hx. apply Z.eqb_neq. apply Hpre. exact Hx.
  - apply Z.eqb_eq. exact Hid.
  - exact Hres.
Qed.

Lemma verify_rd_beats_app p : forall l1 l2 m sb,
  verify_rd_beats p m sb (l1 ++ l2) =
  match verify_rd_beats p m sb l1 with
  | Ok (m', sb') => verify_rd_beats p m' sb' l2
  | Fatal s => Fatal s
  end.
Proof.
  induction l1 as [|b l1 IH]; intros l2 m sb; simpl; [reflexivity|].
  destruct (Tb.verify_rd_resp p m sb b) as [[m' sb']|s]; [apply IH | reflexivity].
Qed.

Lemma verify_rd_beats_front p req dst oq_pre oq_post rq_pre : forall front m sb rq_post,
  Tb.sb_rd_order_q m = oq_pre ++ req :: oq_post ->
  (forall x, In x oq_pre -> Tb.ap_id x <> Tb.ap_id req) ->
  Tb.mem_map_resolve p (Tb.ap_addr req) = Some dst ->
  Forall (fun b => Tb.rp_id b = Tb.ap_id req /\ Tb.rp_resp b = dst /\ Tb.rp_last b = 0)
    front ->
  nth (Z.to_nat (Tb.MASTER_ID m)) (Tb.sb_rd_resp_q sb) [] = rq_pre ++ front ++ rq_post ->
  (forall x b, In x rq_pre -> In b front -> Tb.eq_rd_data p b x = false) ->
  exists m' sb',
    verify_rd_beats p m sb front = Ok (m', sb') /\
    Tb.sb_rd_order_q m' = oq_pre ++ req :: oq_post /\
    nth (Z.to_nat (Tb.MASTER_ID m')) (Tb.sb_rd_resp_q sb') [] = rq_pre ++ rq_post /\
    Tb.MASTER_ID m' = Tb.MASTER_ID m /\
    Tb.rd_resp_ej m' = Tb.rd_resp_ej m + Z.of_nat (length front).
Proof.
  induction front as [|b front IH]; intros m sb rq_post Hoq Hpre Hres Hf Hrq Hrpre.
  - simpl. exists m, sb. simpl in Hrq. repeat split; try assumption. lia.
  - inversion Hf as [|b' front' (Hid & Hresp & Hlast) Hf']. subst b' front'.
    destruct (verify_rd_resp_accept p m sb b oq_pre req oq_post rq_pre (front ++ rq_post))
      as (m1 & sb1 & Hv & Ho1 & Hq1 & Hm1 & He1).
    + exact Hoq.
    + intros x Hx. rewrite Hid. apply Hpre. exact Hx.
    + symmetry. exact Hid.
    + rewrite Hresp. exact Hres.
    + exact Hrq.
    + intros x Hx. apply Hrpre; [exact Hx | left; reflexivity].
    + rewrite Hlast in Ho1. simpl in Ho1.
      destruct (IH m1 sb1 rq_post Ho1 Hpre Hres Hf' Hq1) as (m2 & sb2 & Hv2 & Ho2 & Hq2 & Hm2 & He2).
      * intros x b0 Hx Hb0. apply Hrpre; [exact Hx | right; exact Hb0].
      * exists m2, sb2. cbn [verify_rd_beats]. rewrite Hv.
        split; [exact Hv2|]. split; [exact Ho2|]. split; [exact Hq2|].
        split; [congruence|]. rewrite He2, He1. cbn [length]. lia.
Qed.

Lemma mem_map_resolve_nonneg p addr dst :
  Tb.mem_map_resolve p addr = Some dst -> 0 <= dst.
Proof.
  intros H. unfold Tb.mem_map_resolve in H.
  pose proof (resolve_from_spec addr (Tb.addr_map p) 0) as Hs.
  rewrite H in Hs. destruct Hs as (lo & hi & Hi & _). exact Hi.
Qed.

(** X17: a read burst round trip. From any reachable state of the master,
    when the address of the new request resolves to a destination the
    [resp] field can hold, no request with the same identifier is on record
    and no older prediction of this master equals one of the new beats:
    [gen_new_rd_trans] runs to its end, and handing the beats it predicted
    to [verify_rd_resp], in order, is accepted beat by beat; afterwards the
    order queue and the predictions of this master are what they were
    before the transaction was generated, and [rd_resp_ej] has grown by
    len + 1. *)
Theorem rd_burst_round_trip p m sb d dst :
  rd_params_ok p = true -> 1 <= Tb.LAST_WIDTH p ->
  Tb.reachable p m -> Tb.rand_ok d ->
  Tb.mem_map_resolve p (Tb.ap_addr (Tb.rd_req p m d)) = Some dst ->
  dst < 2 ^ Tb.RESP_WIDTH p ->
  0 <= Tb.MASTER_ID m ->
  (Z.to_nat (Tb.MASTER_ID m) < length (Tb.sb_rd_resp_q sb))%nat ->
  (forall x, In x (Tb.sb_rd_order_q m) -> Tb.ap_id x <> Tb.ap_id (Tb.rd_req p m d)) ->
  (forall x b,
     In x (nth (Z.to_nat (Tb.MASTER_ID m)) (Tb.sb_rd_resp_q sb) []) ->
     In b (map fst (Tb.rw_out (Tb.rd_expected p (Tb.rd_req p m d) dst))) ->
     Tb.eq_rd_data p b x = false) ->
  exists m1 sb1 m2 sb2,
    Tb.gen_new_rd_trans p m sb d = Ok (m1, sb1) /\
    verify_rd_beats p m1 sb1
      (map fst (Tb.rw_out (Tb.rd_expected p (Tb.rd_req p m d) dst))) = Ok (m2, sb2) /\
    Tb.sb_rd_order_q m2 = Tb.sb_rd_order_q m /\
    nth (Z.to_nat (Tb.MASTER_ID m)) (Tb.sb_rd_resp_q sb2) [] =
      nth (Z.to_nat (Tb.MASTER_ID m)) (Tb.sb_rd_resp_q sb) [] /\
    Tb.rd_resp_ej m2 = Tb.rd_resp_ej m + Tb.ap_len (Tb.rd_req p m d) + 1.
Proof.
  intros Hok Hlw Hreach Hd Hres Hdst Hmid Hrange Hoq Hrq.
  destruct (rd_req_legal p m d Hok Hreach) as (Hsz & Hlen & Haddr).
  pose proof (mem_map_resolve_nonneg p _ _ Hres) as Hdst0.
  set (req := Tb.rd_req p m d) in *.
  set (beats := map fst (Tb.rw_out (Tb.rd_expected p req dst))) in *.
  unfold rd_params_ok in Hok. apply andb_true_iff in Hok. destruct Hok as [Hlanes Hwidths].
  apply lanes_ok_spec in Hlanes. destruct Hlanes as (Hm & HL & Hs & HLS & Hms).
  apply widths_ok_spec in Hwidths. destruct Hwidths as (HA & HAd & HAl & Hdw).
  assert (Hcount : Z.of_nat (length beats) = Tb.ap_len req + 1).
  { destruct (rd_expected_legal p req dst Hm) as (_ & Hc & _);
      [lia | exact Hdw | lia | lia | exact Haddr |].
    unfold beats. rewrite length_map. exact Hc. }
  destruct (rd_expected_flags p req dst) as [Hmeta Hlast]. fold beats in Hmeta, Hlast.
  destruct (bytes_total_value req) as [_ Hpos]; [lia | lia |].
  apply LastInv_done in Hlast; [|exact Hlw|lia].
  destruct Hlast as (front & b & Hbeats & Hfront & Hb).
  assert (Htr : trunc (Tb.RESP_WIDTH p) dst = dst) by (apply trunc_small; lia).
  rewrite Hbeats in Hmeta. apply Forall_app in Hmeta. destruct Hmeta as [Hmf Hmb].
  inversion Hmb as [|b' l' [Hbid Hbresp] _]. subst b' l'.
  assert (Hg : exists m1 sb1,
            Tb.gen_new_rd_trans p m sb d = Ok (m1, sb1) /\
            Tb.sb_rd_order_q m1 = Tb.sb_rd_order_q m ++ req :: [] /\
            nth (Z.to_nat (Tb.MASTER_ID m1)) (Tb.sb_rd_resp_q sb1) [] =
              nth (Z.to_nat (Tb.MASTER_ID m)) (Tb.sb_rd_resp_q sb) [] ++ front ++ [b] /\
            Tb.MASTER_ID m1 = Tb.MASTER_ID m /\
            Tb.rd_resp_ej m1 = Tb.rd_resp_ej m).
  { unfold Tb.gen_new_rd_trans. cbv zeta.
    change (Tb.ap_addr (Tb.rd_req_s p (Tb.rd_req p m d))) with (Tb.ap_addr req).
    rewrite Hres. fold req. fold beats.
    eexists. eexists. split; [reflexivity|].
    cbn [Tb.MASTER_ID Tb.sb_rd_resp_q Tb.sb_rd_order_q Tb.rd_resp_ej].
    split; [reflexivity|]. split; [|split; reflexivity].
    rewrite nth_upd_at_same by exact Hrange. rewrite Hbeats. reflexivity. }
  destruct Hg as (m1 & sb1 & Hg & Ho1 & Hq1 & Hm1 & He1).
  exists m1, sb1.
  destruct (verify_rd_beats_front p req dst (Tb.sb_rd_order_q m) []
              (nth (Z.to_nat (Tb.MASTER_ID m)) (Tb.sb_rd_resp_q sb) [])
              front m1 sb1 [b])
    as (m2 & sb2 & Hv2 & Ho2 & Hq2 & Hm2 & He2).
  - exact Ho1.
  - exact Hoq.
  - exact Hres.
  - rewrite Forall_forall in *. intros x Hx.
    destruct (Hmf x Hx) as [H1 H2]. split; [exact H1|].
    split; [rewrite H2; exact Htr | apply Hfront; exact Hx].
  - exact Hq1.
  - intros x b0 Hx Hb0. apply Hrq; [exact Hx|]. rewrite Hbeats. apply in_or_app. left. exact Hb0.
  - destruct (verify_rd_resp_accept p m2 sb2 b (Tb.sb_rd_order_q m) req []
                (nth (Z.to_nat (Tb.MASTER_ID m)) (Tb.sb_rd_resp_q sb) []) [])
      as (m3 & sb3 & Hv3 & Ho3 & Hq3 & Hm3 & He3).
    + exact Ho2.
    + intros x Hx. rewrite Hbid. apply Hoq. exact Hx.
    + symmetry. exact Hbid.
    + rewrite Hbresp, Htr. exact Hres.
    + exact Hq2.
    + intros x Hx. apply Hrq; [exact Hx|]. rewrite Hbeats. apply in_or_app. right.
      left. reflexivity.
    + exists m3, sb3. split; [exact Hg|].
      split.
      * rewrite Hbeats, verify_rd_beats_app, Hv2. cbn [verify_rd_beats]. rewrite Hv3.
        reflexivity.
      * rewrite Hb in Ho3. simpl in Ho3. rewrite app_nil_r in Ho3, Hq3.
        split; [exact Ho3|]. split.
        -- rewrite <- Hq3. rewrite Hm3, Hm2, Hm1. reflexivity.
        -- rewrite He3, He2, He1.
           rewrite Hbeats, length_app in Hcount. cbn [length] in Hcount. lia.
Qed.

Lemma rd_burst_round_trip_witness :
  exists m1 sb1 m2 sb2,
    Tb.gen_new_rd_trans p42 m_injected sb_pending d_narrow = Ok (m1, sb1) /\
    verify_rd_beats p42 m1 sb1
      (map fst (Tb.rw_out (Tb.rd_expected p42 (Tb.rd_req p42 m_injected d_narrow) 0))) =
      Ok (m2, sb2) /\
    Tb.sb_rd_order_q m2 = Tb.sb_rd_order_q m_injected /\
    nth (Z.to_nat (Tb.MASTER_ID m_injected)) (Tb.sb_rd_resp_q sb2) [] =
      nth (Z.to_nat (Tb.MASTER_ID m_injected)) (Tb.sb_rd_resp_q sb_pending) [] /\
    Tb.rd_resp_ej m2 =
      Tb.rd_resp_ej m_injected + Tb.ap_len (Tb.rd_req p42 m_injected d_narrow) + 1.
Proof.
  apply (rd_burst_round_trip p42 m_injected sb_pending d_narrow 0).
  - reflexivity.
  - simpl. lia.
  - exact m_injected_reachable.
  - unfold Tb.rand_ok. simpl. lia.
  - reflexivity.
  - simpl. lia.
  - simpl. lia.
  - simpl. lia.
  - intros x [<-|[]]. vm_compute. discriminate.
  - intros x b [<-|[]] Hb.
    assert (H : forallb (fun b0 => negb (Tb.eq_rd_data p42 b0 rd_resp_a))
                  (map fst (Tb.rw_out
                     (Tb.rd_expected p42 (Tb.rd_req p42 m_injected d_narrow) 0))) = true)
      by (vm_compute; reflexivity).
    rewrite forallb_forall in H. apply negb_true_iff. apply H. exact Hb.
Defined.

(** * Assertions of the address map *)

Lemma resolve_none_iff p addr :
  Tb.mem_map_resolve p addr = None <->
  (forall lo hi, In (lo, hi) (Tb.addr_map p) -> ~ (lo <= addr <= hi)).
Proof.
  unfold Tb.mem_map_resolve.
  pose proof (resolve_from_spec addr (Tb.addr_map p) 0) as H.
  destruct (Tb.resolve_from 0 (Tb.addr_map p) addr) as [i|].
  - split; [discriminate|]. intros Hnone.
    destruct H as (lo & hi & _ & Hn & Hr & _).
    exfalso. apply (Hnone lo hi); [|exact Hr].
    apply nth_error_In with (Z.to_nat (i - 0)). exact Hn.
  - split; [intros _; exact H | reflexivity].
Qed.

(** X18: a generator ends in the assertion of [mem_map_resolve] exactly
    when no row of the address map holds the address of the new request.
    The scoreboard is then untouched and the transaction is not counted,
    but the request is already in the injection queue; the write generator
    has also put it on its order queue by then, the read generator has
    not. *)
Theorem gen_fatal_iff_unmapped p m sb d :
  let unmapped addr :=
    forall lo hi, In (lo, hi) (Tb.addr_map p) -> ~ (lo <= addr <= hi) in
  let rd := Tb.gen_new_rd_trans p m sb d in
  let wr := Tb.gen_new_wr_trans p m sb d in
  (is_fatal rd = true <-> unmapped (Tb.ap_addr (Tb.rd_req p m d))) /\
  (is_fatal rd = true ->
   snd (state_of rd) = sb /\
   Tb.stored_rd_trans (fst (state_of rd)) = Tb.stored_rd_trans m ++ [Tb.rd_req p m d] /\
   Tb.sb_rd_order_q (fst (state_of rd)) = Tb.sb_rd_order_q m /\
   Tb.rd_trans_generated (fst (state_of rd)) = Tb.rd_trans_generated m) /\
  (is_fatal wr = true <-> unmapped (Tb.ap_addr (Tb.wr_req p m d))) /\
  (is_fatal wr = true ->
   snd (state_of wr) = sb /\
   Tb.stored_wr_trans (fst (state_of wr)) = Tb.stored_wr_trans m ++ [Tb.wr_req p m d] /\
   Tb.stored_wr_data (fst (state_of wr)) = Tb.stored_wr_data m /\
   Tb.sb_wr_order_q (fst (state_of wr)) = Tb.sb_wr_order_q m ++ [Tb.wr_req p m d] /\
   Tb.wr_trans_generated (fst (state_of wr)) = Tb.wr_trans_generated m).
Proof.
  cbv zeta.
  rewrite <- (resolve_none_iff p (Tb.ap_addr (Tb.rd_req p m d))).
  rewrite <- (resolve_none_iff p (Tb.ap_addr (Tb.wr_req p m d))).
  unfold Tb.gen_new_rd_trans, Tb.gen_new_wr_trans. cbv zeta.
  change (Tb.ap_addr (Tb.rd_req_s p (Tb.rd_req p m d)))
    with (Tb.ap_addr (Tb.rd_req p m d)).
  change (Tb.ap_addr (Tb.wr_req_s p (Tb.wr_req p m d)))
    with (Tb.ap_addr (Tb.wr_req p m d)).
  destruct (Tb.mem_map_resolve p (Tb.ap_addr (Tb.rd_req p m d)));
    destruct (Tb.mem_map_resolve p (Tb.ap_addr (Tb.wr_req p m d)));
    simpl; repeat split; try discriminate; try reflexivity; intros; discriminate.
Qed.

(** X19: in every reachable state of the master, every request on the
    two order queues has an address the address map resolves, so the
    reorder check of a verifier never ends in the assertion of
    [mem_map_resolve], whatever response arrives. *)
Theorem reorder_check_never_unmapped p m (rcv : Tb.ReadPayload) (brcv : Tb.WRespPayload) :
  Tb.reachable p m ->
  (forall e, In e (Tb.sb_rd_order_q m) \/ In e (Tb.sb_wr_order_q m) ->
     exists dst, Tb.mem_map_resolve p (Tb.ap_addr e) = Some dst) /\
  Tb.rd_reorder_check p (Tb.sb_rd_order_q m) rcv <> Tb.ReorderFatal /\
  Tb.wr_reorder_check p (Tb.sb_wr_order_q m) brcv <> Tb.ReorderFatal.
Proof.
  intros Hreach. destruct (reachable_order_resolves p m Hreach) as [Hr Hw].
  split; [|split].
  - unfold order_resolves in Hr, Hw. rewrite Forall_forall in Hr, Hw.
    intros e [He|He].
    + specialize (Hr e He).
      destruct (Tb.mem_map_resolve p (Tb.ap_addr e)) as [dst|]; [|congruence].
      exists dst. reflexivity.
    + specialize (Hw e He).
      destruct (Tb.mem_map_resolve p (Tb.ap_addr e)) as [dst|]; [|congruence].
      exists dst. reflexivity.
  - unfold Tb.rd_reorder_check.
    destruct (reorder_check_status p (Tb.sb_rd_order_q m) (Tb.rp_id rcv) (Tb.rp_resp rcv)
                (negb (Tb.rp_last rcv =? 0)) Hr) as [q' Hq'].
    rewrite Hq'. discriminate.
  - unfold Tb.wr_reorder_check.
    destruct (reorder_check_status p (Tb.sb_wr_order_q m) (Tb.bp_id brcv) (Tb.bp_resp brcv)
                true Hw) as [q' Hq'].
    rewrite Hq'. discriminate.
Qed.

Lemma reorder_check_never_unmapped_witness :
  (forall e, In e (Tb.sb_rd_order_q m_injected) \/ In e (Tb.sb_wr_order_q m_injected) ->
     exists dst, Tb.mem_map_resolve p42 (Tb.ap_addr e) = Some dst) /\
  Tb.rd_reorder_check p42 (Tb.sb_rd_order_q m_injected) rd_resp_a <> Tb.ReorderFatal /\
  Tb.wr_reorder_check p42 (Tb.sb_wr_order_q m_injected) wr_resp_a <> Tb.ReorderFatal.
Proof.
  apply (reorder_check_never_unmapped p42 m_injected rd_resp_a wr_resp_a).
  exact m_injected_reachable.
Defined.

(** * The order of injection *)

Lemma inject_fifo {A : Type} (q : list A) (ready : bool) :
  opt_list (fst (Tb.inject q ready)) ++ snd (Tb.inject q ready) = q.
Proof.
  destruct q as [|x q]; [reflexivity|]. destruct ready; reflexivity.
Qed.

Lemma cycle_gen_queues p a sb i m1 sb1 :
  Tb.cycle_gen p a sb i = Ok (m1, sb1) ->
  exists nr nw nd,
    Tb.stored_rd_trans m1 = Tb.stored_rd_trans (Tb.core a) ++ nr /\
    Tb.rd_trans_generated m1 = Tb.rd_trans_generated (Tb.core a) + Z.of_nat (length nr) /\
    Tb.stored_wr_trans m1 = Tb.stored_wr_trans (Tb.core a) ++ nw /\
    Tb.wr_trans_generated m1 = Tb.wr_trans_generated (Tb.core a) + Z.of_nat (length nw) /\
    Tb.stored_wr_data m1 = Tb.stored_wr_data (Tb.core a) ++ nd /\
    Tb.wr_data_generated m1 = Tb.wr_data_generated (Tb.core a) + Z.of_nat (length nd).
Proof.
  unfold Tb.cycle_gen. destruct (negb (Tb.stop_gen i)).
  - destruct (if u32 (Tb.rnd_rd i mod 100) <? Tb.GEN_RATE_RD a
              then Tb.gen_new_rd_trans p (Tb.core a) sb (Tb.draws_rd i)
              else Ok (Tb.core a, sb)) as [[m0 sb0]|s] eqn:Hr; [|discriminate].
    assert (H0 : exists nr,
      Tb.stored_rd_trans m0 = Tb.stored_rd_trans (Tb.core a) ++ nr /\
      Tb.rd_trans_generated m0 =
        Tb.rd_trans_generated (Tb.core a) + Z.of_nat (length nr) /\
      Tb.stored_wr_trans m0 = Tb.stored_wr_trans (Tb.core a) /\
      Tb.wr_trans_generated m0 = Tb.wr_trans_generated (Tb.core a) /\
      Tb.stored_wr_data m0 = Tb.stored_wr_data (Tb.core a) /\
      Tb.wr_data_generated m0 = Tb.wr_data_generated (Tb.core a)).
    { destruct (u32 (Tb.rnd_rd i mod 100) <? Tb.GEN_RATE_RD a).
      - apply gen_new_rd_trans_ok in Hr.
        destruct Hr as (E1 & E2 & E3 & E4 & E5 & E6 & _).
        exists [Tb.rd_req p (Tb.core a) (Tb.draws_rd i)].
        rewrite E1, E2, E3, E4, E5, E6. simpl. repeat split; reflexivity.
      - injection Hr as <- _. exists []. rewrite app_nil_r. simpl.
        repeat split; try reflexivity. lia. }
    destruct H0 as (nr & B1 & B2 & B3 & B4 & B5 & B6).
    rewrite <- B3, <- B4, <- B5, <- B6.
    destruct (u32 (Tb.rnd_wr i mod 100) <? Tb.GEN_RATE_WR a).
    + intros Hw. apply gen_new_wr_trans_ok in Hw.
      destruct Hw as (E1 & E2 & E3 & E4 & E5 & E6 & _).
      exists nr, [Tb.wr_req p m0 (Tb.draws_wr i)],
        (Tb.ww_m_out (Tb.wr_expected p (Tb.MASTER_ID m0) (Tb.wr_req p m0 (Tb.draws_wr i)))).
      rewrite E1, E2, E3, E4, E5, E6, B1, B2. simpl. repeat split; reflexivity.
    + intros H. injection H as <- _. exists nr, [], [].
      rewrite !app_nil_r. simpl. repeat split; try assumption; lia.
  - intros H. injection H as <- _. exists [], [], [].
    rewrite !app_nil_r. simpl. repeat split; try reflexivity; lia.
Qed.

Lemma do_cycle_body_fifo p a sb i a' sb' out :
  Tb.do_cycle_body p a sb i = Ok (a', sb', out) ->
  exists nr nw nd,
    opt_list (Tb.ar_pushed out) ++ Tb.stored_rd_trans (Tb.core a') =
      Tb.stored_rd_trans (Tb.core a) ++ nr /\
    Tb.rd_trans_generated (Tb.core a') =
      Tb.rd_trans_generated (Tb.core a) + Z.of_nat (length nr) /\
    opt_list (Tb.aw_pushed out) ++ Tb.stored_wr_trans (Tb.core a') =
      Tb.stored_wr_trans (Tb.core a) ++ nw /\
    Tb.wr_trans_generated (Tb.core a') =
      Tb.wr_trans_generated (Tb.core a) + Z.of_nat (length nw) /\
    opt_list (Tb.w_pushed out) ++ Tb.stored_wr_data (Tb.core a') =
      Tb.stored_wr_data (Tb.core a) ++ nd /\
    Tb.wr_data_generated (Tb.core a') =
      Tb.wr_data_generated (Tb.core a) + Z.of_nat (length nd).
Proof.
  unfold Tb.do_cycle_body.
  destruct (Tb.cycle_gen p a sb i) as [[m1 sb1]|[m1 sb1]] eqn:Hg; [|discriminate].
  apply cycle_gen_queues in Hg.
  destruct Hg as (nr & nw & nd & G1 & G2 & G3 & G4 & G5 & G6).
  unfold Tb.cycle_inject. cbv zeta. cbn [Tb.core Tb.set_core].
  match goal with
  | |- context [Tb.cycle_eject p ?m sb1 i] =>
      destruct (Tb.cycle_eject p m sb1 i) as [[m2 sb2]|[m2 sb2]] eqn:He; [|discriminate]
  end.
  apply cycle_eject_ok in He. cbn [Tb.stored_rd_trans Tb.stored_wr_trans Tb.stored_wr_data
    Tb.rd_trans_generated Tb.wr_trans_generated Tb.wr_data_generated
    Tb.error_sb_rd_resp_not_found Tb.error_sb_wr_resp_not_found
    Tb.rd_resp_ej Tb.wr_resp_ej] in He.
  destruct He as (E1 & E2 & E3 & E4 & E5 & E6 & _).
  intros H. injection H as <- _ <-.
  cbn [Tb.core Tb.set_core Tb.ar_pushed Tb.aw_pushed Tb.w_pushed].
  exists nr, nw, nd.
  rewrite E1, E2, E3, E4, E5, E6, !inject_fifo.
  repeat split; assumption.
Qed.

(** X20: [do_cycle] injects in queue order. Over any stretch of clock
    cycles that ends without an assertion, on each of the ports AR, AW and
    W the messages pushed, followed by what is still queued, are what was
    queued at the start followed by what was generated since (as many as
    the generated-counter has grown): what is queued is pushed oldest
    first, before anything generated later, and nothing is skipped,
    repeated or dropped. *)
Theorem do_cycle_injects_in_order p : forall cycles a a' outs,
  Tb.do_cycle_loop p a cycles = Ok (a', outs) ->
  exists nr nw nd,
    pushed Tb.ar_pushed outs ++ Tb.stored_rd_trans (Tb.core a') =
      Tb.stored_rd_trans (Tb.core a) ++ nr /\
    Tb.rd_trans_generated (Tb.core a') =
      Tb.rd_trans_generated (Tb.core a) + Z.of_nat (length nr) /\
    pushed Tb.aw_pushed outs ++ Tb.stored_wr_trans (Tb.core a') =
      Tb.stored_wr_trans (Tb.core a) ++ nw /\
    Tb.wr_trans_generated (Tb.core a') =
      Tb.wr_trans_generated (Tb.core a) + Z.of_nat (length nw) /\
    pushed Tb.w_pushed outs ++ Tb.stored_wr_data (Tb.core a') =
      Tb.stored_wr_data (Tb.core a) ++ nd /\
    Tb.wr_data_generated (Tb.core a') =
      Tb.wr_data_generated (Tb.core a) + Z.of_nat (length nd).
Proof.
  induction cycles as [|[sb i] cycles IH]; intros a a' outs H.
  - simpl in H. injection H as <- <-. exists [], [], [].
    unfold pushed. simpl. rewrite !app_nil_r. repeat split; try reflexivity; lia.
  - cbn [Tb.do_cycle_loop] in H.
    destruct (Tb.do_cycle_body p a sb i) as [[[a1 sb1] out]|[[a1 sb1] out]] eqn:Hb;
      [|discriminate].
    destruct (Tb.do_cycle_loop p a1 cycles) as [[a2 outs2]|[a2 outs2]] eqn:Hl;
      [|discriminate].
    injection H as <- <-.
    apply do_cycle_body_fifo in Hb.
    destruct Hb as (nr1 & nw1 & nd1 & B1 & B2 & B3 & B4 & B5 & B6).
    destruct (IH a1 a2 outs2 Hl) as (nr2 & nw2 & nd2 & L1 & L2 & L3 & L4 & L5 & L6).
    exists (nr1 ++ nr2), (nw1 ++ nw2), (nd1 ++ nd2).
    unfold pushed in *. cbn [flat_map]. rewrite <- !app_assoc.
    rewrite L1, L2, L3, L4, L5, L6, B2, B4, B6, !length_app.
    rewrite !app_assoc, B1, B3, B5.
    repeat split; try reflexivity; lia.
Qed.

Lemma do_cycle_injects_in_order_witness :
  exists a' outs,
    Tb.do_cycle_loop p42 (Tb.do_cycle_init a_new)
      [(sb_empty, cyc_gen); (sb_empty, cyc_idle)] = Ok (a', outs) /\
    exists nr nw nd,
      pushed Tb.ar_pushed outs ++ Tb.stored_rd_trans (Tb.core a') =
        Tb.stored_rd_trans (Tb.core (Tb.do_cycle_init a_new)) ++ nr /\
      Tb.rd_trans_generated (Tb.core a') =
        Tb.rd_trans_generated (Tb.core (Tb.do_cycle_init a_new)) + Z.of_nat (length nr) /\
      pushed Tb.aw_pushed outs ++ Tb.stored_wr_trans (Tb.core a') =
        Tb.stored_wr_trans (Tb.core (Tb.do_cycle_init a_new)) ++ nw /\
      Tb.wr_trans_generated (Tb.core a') =
        Tb.wr_trans_generated (Tb.core (Tb.do_cycle_init a_new)) + Z.of_nat (length nw) /\
      pushed Tb.w_pushed outs ++ Tb.stored_wr_data (Tb.core a') =
        Tb.stored_wr_data (Tb.core (Tb.do_cycle_init a_new)) ++ nd /\
      Tb.wr_data_generated (Tb.core a') =
        Tb.wr_data_generated (Tb.core (Tb.do_cycle_init a_new)) + Z.of_nat (length nd).
Proof.
  eexists. eexists. split; [vm_compute; reflexivity|].
  apply (do_cycle_injects_in_order p42 [(sb_empty, cyc_gen); (sb_empty, cyc_idle)]
           (Tb.do_cycle_init a_new)).
  vm_compute. reflexivity.
Defined.

(** * The address counters in the clocked thread *)

Lemma u32_step n m : u32 (u32 (n * m) + m) = u32 ((n + 1) * m).
Proof.
  unfold u32, trunc. rewrite Z.add_mod_idemp_l by lia. f_equal. ring.
Qed.

Lemma verify_rd_resp_id p m sb rcv :
  Tb.MASTER_ID (fst (state_of (Tb.verify_rd_resp p m sb rcv))) = Tb.MASTER_ID m.
Proof.
  unfold Tb.verify_rd_resp. cbv zeta.
  destruct (Tb.rd_reorder_check p _ _); [reflexivity|].
  destruct (Tb.content_check _ _ _ _) as [[j e]|]; [|reflexivity].
  destruct (negb (status =? 2) && negb (status =? 1)); reflexivity.
Qed.

Lemma verify_wr_resp_id p m sb rcv :
  Tb.MASTER_ID (fst (state_of (Tb.verify_wr_resp p m sb rcv))) = Tb.MASTER_ID m.
Proof.
  unfold Tb.verify_wr_resp. cbv zeta.
  destruct (Tb.wr_reorder_check p _ _); [reflexivity|].
  destruct (Tb.content_check _ _ _ _) as [[j e]|]; [|reflexivity].
  destruct (negb (status =? 2) && negb (status =? 1)); reflexivity.
Qed.

Lemma gen_new_rd_trans_tracks p m sb d m' sb' :
  Tb.gen_new_rd_trans p m sb d = Ok (m', sb') ->
  addr_tracks p m -> addr_tracks p m' /\ Tb.MASTER_ID m' = Tb.MASTER_ID m.
Proof.
  intros H [T1 T2].
  pose proof (gen_new_rd_trans_fields p m sb d) as F. rewrite H in F. simpl in F.
  destruct F as (F1 & F2 & F3 & _).
  apply gen_new_rd_trans_ok in H. destruct H as (_ & E2 & _ & _ & E5 & _).
  unfold addr_tracks. rewrite F1, F2, F3, E2, E5, T1, <- T2.
  split; [|reflexivity]. split; [apply u32_step | reflexivity].
Qed.

Lemma gen_new_wr_trans_tracks p m sb d m' sb' :
  Tb.gen_new_wr_trans p m sb d = Ok (m', sb') ->
  addr_tracks p m -> addr_tracks p m' /\ Tb.MASTER_ID m' = Tb.MASTER_ID m.
Proof.
  intros H [T1 T2].
  pose proof (gen_new_wr_trans_fields p m sb d) as F. rewrite H in F. simpl in F.
  destruct F as (F1 & F2 & F3 & _).
  apply gen_new_wr_trans_ok in H. destruct H as (_ & E2 & _ & _ & E5 & _).
  unfold addr_tracks. rewrite F1, F2, F3, E2, E5, T2, <- T1.
  split; [|reflexivity]. split; [reflexivity | apply u32_step].
Qed.

Lemma verify_rd_resp_tracks p m sb rcv m' sb' :
  Tb.verify_rd_resp p m sb rcv = Ok (m', sb') ->
  addr_tracks p m -> addr_tracks p m' /\ Tb.MASTER_ID m' = Tb.MASTER_ID m.
Proof.
  intros H [T1 T2].
  pose proof (verify_rd_resp_fields p m sb rcv) as F.
  pose proof (verify_rd_resp_id p m sb rcv) as I.
  rewrite H in F, I. simpl in F, I. destruct F as [F1 F2].
  apply verify_rd_resp_ok in H. destruct H as (_ & E2 & _ & _ & E5 & _).
  unfold addr_tracks. rewrite F1, F2, E2, E5. repeat split; assumption.
Qed.

Lemma verify_wr_resp_tracks p m sb rcv m' sb' :
  Tb.verify_wr_resp p m sb rcv = Ok (m', sb') ->
  addr_tracks p m -> addr_tracks p m' /\ Tb.MASTER_ID m' = Tb.MASTER_ID m.
Proof.
  intros H [T1 T2].
  pose proof (verify_wr_resp_fields p m sb rcv) as F.
  pose proof (verify_wr_resp_id p m sb rcv) as I.
  rewrite H in F, I. simpl in F, I. destruct F as [F1 F2].
  apply verify_wr_resp_ok in H. destruct H as (_ & E2 & _ & _ & E5 & _).
  unfold addr_tracks. rewrite F1, F2, E2, E5. repeat split; assumption.
Qed.

Lemma do_cycle_body_tracks p a sb i a' sb' out :
  Tb.do_cycle_body p a sb i = Ok (a', sb', out) ->
  addr_tracks p (Tb.core a) ->
  addr_tracks p (Tb.core a') /\ Tb.MASTER_ID (Tb.core a') = Tb.MASTER_ID (Tb.core a).
Proof.
  unfold Tb.do_cycle_body.
  destruct (Tb.cycle_gen p a sb i) as [[m1 sb1]|[m1 sb1]] eqn:Hg; [|discriminate].
  intros H T0.
  assert (T1 : addr_tracks p m1 /\ Tb.MASTER_ID m1 = Tb.MASTER_ID (Tb.core a)).
  { unfold Tb.cycle_gen in Hg. destruct (negb (Tb.stop_gen i)).
    - destruct (if u32 (Tb.rnd_rd i mod 100) <? Tb.GEN_RATE_RD a
                then Tb.gen_new_rd_trans p (Tb.core a) sb (Tb.draws_rd i)
                else Ok (Tb.core a, sb)) as [[m0 sb0]|s] eqn:Hr; [|discriminate Hg].
      assert (T : addr_tracks p m0 /\ Tb.MASTER_ID m0 = Tb.MASTER_ID (Tb.core a)).
      { destruct (u32 (Tb.rnd_rd i mod 100) <? Tb.GEN_RATE_RD a).
        - apply (gen_new_rd_trans_tracks p _ _ _ _ _ Hr T0).
        - injection Hr as <- _. split; [exact T0 | reflexivity]. }
      destruct T as [T I0].
      destruct (u32 (Tb.rnd_wr i mod 100) <? Tb.GEN_RATE_WR a).
      + destruct (gen_new_wr_trans_tracks p _ _ _ _ _ Hg T) as [T' I1].
        split; [exact T' | congruence].
      + injection Hg as <- _. split; assumption.
    - injection Hg as <- _. split; [exact T0 | reflexivity]. }
  destruct T1 as [T1 I1].
  unfold Tb.cycle_inject in H. cbv zeta in H. cbn [Tb.core Tb.set_core] in H.
  match type of H with
  | context [Tb.cycle_eject p ?m sb1 i] =>
      set (mi := m) in *;
      destruct (Tb.cycle_eject p mi sb1 i) as [[m2 sb2]|[m2 sb2]] eqn:He; [|discriminate H]
  end.
  injection H as <- _ _. cbn [Tb.core Tb.set_core].
  assert (Ti : addr_tracks p mi /\ Tb.MASTER_ID mi = Tb.MASTER_ID (Tb.core a)).
  { unfold mi, addr_tracks. simpl. split; [exact T1 | exact I1]. }
  destruct Ti as [Ti Ii]. clearbody mi.
  unfold Tb.cycle_eject in He.
  destruct (match Tb.r_msg i with
            | Some rcv => Tb.verify_rd_resp p mi sb1 rcv
            | None => Ok (mi, sb1)
            end) as [[m3 sb3]|s] eqn:Hr; [|discriminate He].
  assert (T3 : addr_tracks p m3 /\ Tb.MASTER_ID m3 = Tb.MASTER_ID mi).
  { destruct (Tb.r_msg i) as [rcv|].
    - apply (verify_rd_resp_tracks p _ _ _ _ _ Hr Ti).
    - injection Hr as <- _. split; [exact Ti | reflexivity]. }
  destruct T3 as [T3 I3].
  destruct (Tb.b_msg i) as [rcv|].
  - destruct (verify_wr_resp_tracks p _ _ _ _ _ He T3) as [T4 I4].
    split; [exact T4 | congruence].
  - injection He as <- _. split; [exact T3 | congruence].
Qed.

Lemma do_cycle_loop_tracks p : forall cycles a a' outs,
  Tb.do_cycle_loop p a cycles = Ok (a', outs) ->
  addr_tracks p (Tb.core a) ->
  addr_tracks p (Tb.core a') /\ Tb.MASTER_ID (Tb.core a') = Tb.MASTER_ID (Tb.core a).
Proof.
  induction cycles as [|[sb i] cycles IH]; intros a a' outs H T.
  - simpl in H. injection H as <- _. split; [exact T | reflexivity].
  - cbn [Tb.do_cycle_loop] in H.
    destruct (Tb.do_cycle_body p a sb i) as [[[a1 sb1] out]|[[a1 sb1] out]] eqn:Hb;
      [|discriminate].
    destruct (Tb.do_cycle_loop p a1 cycles) as [[a2 outs2]|[a2 outs2]] eqn:Hl;
      [|discriminate].
    injection H as <- _.
    destruct (do_cycle_body_tracks p _ _ _ _ _ _ Hb T) as [T1 I1].
    destruct (IH a1 a2 outs2 Hl T1) as [T2 I2].
    split; [exact T2 | congruence].
Qed.

Lemma tracks_aligned n m :
  m = 2 ^ Tb.my_log2c m -> 0 <= Tb.my_log2c m <= 16 -> u32 (n * m) mod m = 0.
Proof.
  intros Hm HL. unfold u32, trunc.
  assert (Hmpos : 0 < m) by (rewrite Hm; apply Z.pow_pos_nonneg; lia).
  rewrite Z.mod_mod_divide by (rewrite Hm; apply pow2_divide; lia).
  apply Z.mod_mul. lia.
Qed.

(** X21: while [do_cycle] runs without an assertion, each address counter
    is the number of transactions generated so far times the master lane
    count, as an [unsigned int], and [MASTER_ID] never changes; injecting
    requests does not disturb this. So (for lane counts that are powers of
    two up to 2^16) every request a generator builds in any such state has
    an address that is a multiple of the master lane count, and the lane
    pointers of the predictors start at 0. *)
Theorem do_cycle_addr_tracks p a0 cycles a outs :
  Tb.do_cycle p a0 cycles = Ok (a, outs) ->
  Tb.gen_rd_addr (Tb.core a) =
    u32 (Tb.rd_trans_generated (Tb.core a) * Tb.RD_M_LANES p) /\
  Tb.gen_wr_addr (Tb.core a) =
    u32 (Tb.wr_trans_generated (Tb.core a) * Tb.WR_M_LANES p) /\
  Tb.MASTER_ID (Tb.core a) = Tb.MASTER_ID (Tb.core a0) /\
  (lanes_divide_offset p (Tb.RD_M_LANES p) = true ->
   forall d,
     Tb.ap_addr (Tb.rd_req p (Tb.core a) d) mod Tb.RD_M_LANES p = 0 /\
     Tb.rd_init_ptr p (Tb.rd_req p (Tb.core a) d) = 0) /\
  (lanes_divide_offset p (Tb.WR_M_LANES p) = true ->
   forall d,
     Tb.ap_addr (Tb.wr_req p (Tb.core a) d) mod Tb.WR_M_LANES p = 0 /\
     Tb.wr_m_init_ptr p (Tb.wr_req p (Tb.core a) d) = 0).
Proof.
  intros H. unfold Tb.do_cycle in H.
  destruct (do_cycle_loop_tracks p cycles _ _ _ H) as [[T1 T2] I].
  { unfold addr_tracks. simpl. split; reflexivity. }
  simpl in I.
  split; [exact T1|]. split; [exact T2|]. split; [exact I|].
  unfold lanes_divide_offset. rewrite !andb_true_iff, !Z.eqb_eq, !Z.leb_le.
  split.
  - intros [[Hm H16] HA] d.
    pose proof (Z.log2_up_nonneg (Tb.RD_M_LANES p)) as H0.
    fold (Tb.my_log2c (Tb.RD_M_LANES p)) in H0.
    assert (Ha : Tb.ap_addr (Tb.rd_req p (Tb.core a) d) mod Tb.RD_M_LANES p = 0).
    { apply gen_req_addr; try assumption; try lia.
      rewrite T1. apply tracks_aligned; [assumption | lia]. }
    split; [exact Ha|]. unfold Tb.rd_init_ptr. rewrite Ha. apply trunc_0.
  - intros [[Hm H16] HA] d.
    pose proof (Z.log2_up_nonneg (Tb.WR_M_LANES p)) as H0.
    fold (Tb.my_log2c (Tb.WR_M_LANES p)) in H0.
    assert (Ha : Tb.ap_addr (Tb.wr_req p (Tb.core a) d) mod Tb.WR_M_LANES p = 0).
    { apply gen_req_addr; try assumption; try lia.
      rewrite T2. apply tracks_aligned; [assumption | lia]. }
    split; [exact Ha|]. unfold Tb.wr_m_init_ptr. rewrite Ha. apply trunc_0.
Qed.

Lemma do_cycle_addr_tracks_witness :
  exists a outs,
    Tb.do_cycle p42 a_new [(sb_empty, cyc_gen); (sb_empty, cyc_idle)] = Ok (a, outs) /\
    Tb.gen_rd_addr (Tb.core a) =
      u32 (Tb.rd_trans_generated (Tb.core a) * Tb.RD_M_LANES p42) /\
    Tb.gen_wr_addr (Tb.core a) =
      u32 (Tb.wr_trans_generated (Tb.core a) * Tb.WR_M_LANES p42) /\
    Tb.MASTER_ID (Tb.core a) = Tb.MASTER_ID (Tb.core a_new) /\
    (lanes_divide_offset p42 (Tb.RD_M_LANES p42) = true ->
     forall d,
       Tb.ap_addr (Tb.rd_req p42 (Tb.core a) d) mod Tb.RD_M_LANES p42 = 0 /\
       Tb.rd_init_ptr p42 (Tb.rd_req p42 (Tb.core a) d) = 0) /\
    (lanes_divide_offset p42 (Tb.WR_M_LANES p42) = true ->
     forall d,
       Tb.ap_addr (Tb.wr_req p42 (Tb.core a) d) mod Tb.WR_M_LANES p42 = 0 /\
       Tb.wr_m_init_ptr p42 (Tb.wr_req p42 (Tb.core a) d) = 0).
Proof.
  eexists. eexists. split; [vm_compute; reflexivity|].
  eapply (do_cycle_addr_tracks p42 a_new [(sb_empty, cyc_gen); (sb_empty, cyc_idle)]).
  vm_compute. reflexivity.
Defined.
